(** * task-api: the task entity, the in-memory store, the service and the
    worker loop, embedded from the Go sources.

    - [model]      : internal/model (Task, NewTask, Duration, UpdateStatus)
    - [repository] : internal/repository/task.go (InMemoryTaskRepository)
    - [service]    : internal/service/task.go (TaskService and its workers)
    - [dto]        : internal/dto/task.go (TaskResponse)
    - [handler]    : internal/handler (the four handlers of TaskHandler)

    Go pointers to tasks are addresses into an explicit heap, so that the
    store, the queue and a worker share one task object exactly as the Go
    program does.  Goroutines are interleaved at the granularity of the
    statements between two blocking points; every [select] takes the case
    chosen by the scheduler among the ready ones. *)

From Stdlib Require Import ZArith Lia Ascii String List.
From stdpp Require Import gmap strings list fin_maps.

Local Open Scope Z_scope.

(** ** Machine integers *)

Module GoInt.

Definition minInt64 : Z := -9223372036854775808.
Definition maxInt64 : Z := 9223372036854775807.
Definition maxUint64 : Z := 18446744073709551615.

(** Two's complement wrap-around of the signed and unsigned 64-bit types. *)
Definition wrap_int64 (z : Z) : Z :=
  (z + 9223372036854775808) mod 18446744073709551616 - 9223372036854775808.

Definition wrap_uint64 (z : Z) : Z := z mod 18446744073709551616.

Definition is_int64 (z : Z) : Prop := minInt64 <= z <= maxInt64.

End GoInt.

(** ** strconv: decimal formatting and parsing (Go standard library) *)

Module strconv.
Import GoInt.

Definition digit_char (d : Z) : ascii := ascii_of_nat (48 + Z.to_nat d).

Definition is_digit (c : ascii) : bool :=
  (48 <=? Z.of_nat (nat_of_ascii c)) && (Z.of_nat (nat_of_ascii c) <=? 57).

Definition digit_val (c : ascii) : Z := Z.of_nat (nat_of_ascii c) - 48.

(** formatBits in base 10: the digits of [u] are written in front of what
    is already in the buffer, least significant first. *)
Fixpoint formatBits (fuel : nat) (u : Z) (buf : string) : string :=
  match fuel with
  | O => buf
  | S fuel' =>
      let buf' := String (digit_char (u mod 10)) buf in
      if u / 10 =? 0 then buf' else formatBits fuel' (u / 10) buf'
  end.

(** A uint64 has at most 20 decimal digits. *)
Definition FormatUint (u : Z) : string := formatBits 20 u "".

Definition FormatInt (i : Z) : string :=
  if i <? 0 then String "-" (formatBits 20 (wrap_uint64 (- i)) "")
  else formatBits 20 i "".

Inductive NumError : Type := ErrSyntax | ErrRange.

(** cutoff is the smallest number such that cutoff*10 > maxUint64. *)
Definition cutoff10 : Z := maxUint64 / 10 + 1.

(** The digit loop of ParseUint for base 10 and bitSize 64.  In base 10
    every byte that is not a decimal digit (letters and '_' included) is a
    syntax error. *)
Fixpoint parseUint_loop (s : string) (n : Z) : Z * option NumError :=
  match s with
  | EmptyString => (n, None)
  | String c s' =>
      if is_digit c then
        if cutoff10 <=? n then (maxUint64, Some ErrRange)
        else
          let n10 := n * 10 in
          let n1 := wrap_uint64 (n10 + digit_val c) in
          if (n1 <? n10) || (maxUint64 <? n1) then (maxUint64, Some ErrRange)
          else parseUint_loop s' n1
      else (0, Some ErrSyntax)
  end.

Definition ParseUint (s : string) : Z * option NumError :=
  match s with
  | EmptyString => (0, Some ErrSyntax)
  | _ => parseUint_loop s 0
  end.

(** ParseInt(s, 10, 64). *)
Definition ParseInt (s : string) : Z * option NumError :=
  match s with
  | EmptyString => (0, Some ErrSyntax)
  | String c0 rest =>
      let neg := Ascii.eqb c0 "-" in
      let s1 := if Ascii.eqb c0 "+" then rest else if neg then rest else s in
      match ParseUint s1 with
      | (_, Some ErrSyntax) => (0, Some ErrSyntax)
      | (un, _) =>
          let cutoff := 9223372036854775808 in
          if negb neg && (cutoff <=? un) then (cutoff - 1, Some ErrRange)
          else if neg && (cutoff <? un) then (- cutoff, Some ErrRange)
          else (if neg then wrap_int64 (- un) else wrap_int64 un, None)
      end
  end.

End strconv.

(** ** Identifiers that are numeric

    The reading of "a valid numeric (base-10 int64) identifier" that the
    validation of the service is compared with: an optional sign, then one
    or more decimal digits, whose value fits in an int64. *)

Fixpoint all_digits (s : string) : bool :=
  match s with
  | EmptyString => true
  | String c s' => strconv.is_digit c && all_digits s'
  end.

Fixpoint decimal_value (s : string) (acc : Z) : Z :=
  match s with
  | EmptyString => acc
  | String c s' => decimal_value s' (acc * 10 + strconv.digit_val c)
  end.

Inductive numeric_id : string -> Prop :=
  | numeric_unsigned (ds : string) :
      ds <> EmptyString -> all_digits ds = true ->
      decimal_value ds 0 <= GoInt.maxInt64 ->
      numeric_id ds
  | numeric_plus (ds : string) :
      ds <> EmptyString -> all_digits ds = true ->
      decimal_value ds 0 <= GoInt.maxInt64 ->
      numeric_id (String "+" ds)
  | numeric_minus (ds : string) :
      ds <> EmptyString -> all_digits ds = true ->
      GoInt.minInt64 <= - decimal_value ds 0 ->
      numeric_id (String "-" ds).

(** ** time: instants and durations (Go standard library) *)

Module GoTime.
Import GoInt.

(** An instant, in nanoseconds on the clock that [time.Now] reads. *)
Definition Time : Type := Z.

(** A Duration is an int64 count of nanoseconds. *)
Definition Duration : Type := Z.

Definition Nanosecond : Z := 1.
Definition Microsecond : Z := 1000.
Definition Millisecond : Z := 1000000.
Definition Second : Z := 1000000000.
Definition Minute : Z := 60 * Second.

(** [t.Sub(u)]: the difference, saturated to the range of Duration. *)
Definition Sub (t u : Time) : Duration :=
  if t - u <? minInt64 then minInt64
  else if maxInt64 <? t - u then maxInt64
  else t - u.

(** [d.Milliseconds()]: integer division truncates towards zero. *)
Definition Milliseconds (d : Duration) : Z := Z.quot d Millisecond.

(** fmtFrac: the [prec] low digits of [v] as a fraction in front of the
    buffer, trailing zeros and a bare decimal point omitted. *)
Fixpoint fmtFrac_loop (prec : nat) (v : Z) (print : bool) (buf : string)
  : string * Z * bool :=
  match prec with
  | O => (buf, v, print)
  | S prec' =>
      let digit := v mod 10 in
      let print' := print || negb (digit =? 0) in
      let buf' := if print' then String (strconv.digit_char digit) buf else buf in
      fmtFrac_loop prec' (v / 10) print' buf'
  end.

Definition fmtFrac (buf : string) (v : Z) (prec : nat) : string * Z :=
  let '(buf', v', print) := fmtFrac_loop prec v false buf in
  (if print then String "." buf' else buf', v').

Fixpoint fmtInt_loop (fuel : nat) (v : Z) (buf : string) : string :=
  match fuel with
  | O => buf
  | S fuel' =>
      if 0 <? v then
        fmtInt_loop fuel' (v / 10) (String (strconv.digit_char (v mod 10)) buf)
      else buf
  end.

Definition fmtInt (buf : string) (v : Z) : string :=
  if v =? 0 then String "0" buf else fmtInt_loop 20 v buf.

(** The two bytes of the micro sign in UTF-8. *)
Definition micro : string :=
  String (ascii_of_nat 194) (String (ascii_of_nat 181) EmptyString).

(** [d.String()], such as "1h2m3.5s", "1.5ms" or "0s". *)
Definition Duration_String (d : Duration) : string :=
  let neg := d <? 0 in
  let u := if neg then wrap_uint64 (- d) else d in
  let body :=
    if u <? Second then
      if u =? 0 then "0s"%string
      else
        let '(unit, prec) :=
          if u <? Microsecond then ("ns"%string, 0%nat)
          else if u <? Millisecond then ((micro ++ "s")%string, 3%nat)
          else ("ms"%string, 6%nat) in
        let '(buf, u') := fmtFrac unit u prec in
        fmtInt buf u'
    else
      let '(buf, u1) := fmtFrac "s"%string u 9 in
      let buf1 := fmtInt buf (u1 mod 60) in
      let u2 := u1 / 60 in
      if 0 <? u2 then
        let buf2 := fmtInt (String "m" buf1) (u2 mod 60) in
        let u3 := u2 / 60 in
        if 0 <? u3 then fmtInt (String "h" buf2) u3 else buf2
      else buf1 in
  if neg then String "-" body else body.

End GoTime.

(** ** errors: sentinel values and wrapping *)

Inductive error : Type :=
  | ErrTaskNotFound                         (* repository.ErrTaskNotFound *)
  | ErrInvalidTaskID                        (* service.ErrInvalidTaskID *)
  | context_Canceled
  | context_DeadlineExceeded
  | errors_Wrap (cause : error) (message : string).

Definition error_eqb (a b : error) : bool :=
  match a, b with
  | ErrTaskNotFound, ErrTaskNotFound => true
  | ErrInvalidTaskID, ErrInvalidTaskID => true
  | context_Canceled, context_Canceled => true
  | context_DeadlineExceeded, context_DeadlineExceeded => true
  | _, _ => false
  end.

(** [errors.Is(err, target)] for a sentinel [target]: the chain of causes
    is searched. *)
Fixpoint errors_Is (err target : error) : bool :=
  match err with
  | errors_Wrap cause _ => errors_Is cause target
  | _ => error_eqb err target
  end.

(** ** internal/model *)

Module model.
Import GoInt GoTime.

Inductive TaskStatus : Type :=
  | StatusPending | StatusProcessing | StatusCompleted | StatusFailed.

Definition TaskStatus_string (s : TaskStatus) : string :=
  match s with
  | StatusPending => "pending"
  | StatusProcessing => "processing"
  | StatusCompleted => "completed"
  | StatusFailed => "failed"
  end.

Record Task : Type := mkTask {
  ID : string;
  Title : string;
  Description : string;
  Status : TaskStatus;
  CreatedAt : Time;
  StartedAt : option Time;
  CompletedAt : option Time;
  DurationStr : string;
  Result : string;
  Error : string
}.

Definition set_ID (v : string) (t : Task) : Task :=
  mkTask v (Title t) (Description t) (Status t) (CreatedAt t) (StartedAt t)
         (CompletedAt t) (DurationStr t) (Result t) (Error t).
Definition set_Status (v : TaskStatus) (t : Task) : Task :=
  mkTask (ID t) (Title t) (Description t) v (CreatedAt t) (StartedAt t)
         (CompletedAt t) (DurationStr t) (Result t) (Error t).
Definition set_StartedAt (v : option Time) (t : Task) : Task :=
  mkTask (ID t) (Title t) (Description t) (Status t) (CreatedAt t) v
         (CompletedAt t) (DurationStr t) (Result t) (Error t).
Definition set_CompletedAt (v : option Time) (t : Task) : Task :=
  mkTask (ID t) (Title t) (Description t) (Status t) (CreatedAt t) (StartedAt t)
         v (DurationStr t) (Result t) (Error t).
Definition set_DurationStr (v : string) (t : Task) : Task :=
  mkTask (ID t) (Title t) (Description t) (Status t) (CreatedAt t) (StartedAt t)
         (CompletedAt t) v (Result t) (Error t).
Definition set_Result (v : string) (t : Task) : Task :=
  mkTask (ID t) (Title t) (Description t) (Status t) (CreatedAt t) (StartedAt t)
         (CompletedAt t) (DurationStr t) v (Error t).

(** generateTaskID: [atomic.AddUint64(&taskCounter, 1)], formatted.  The
    new counter value is returned with the id. *)
Definition generateTaskID (taskCounter : Z) : string * Z :=
  let c := wrap_uint64 (taskCounter + 1) in
  (strconv.FormatUint c, c).

(** NewTask: the task value that is allocated, and the new counter. *)
Definition NewTask (title description : string) (now : Time) (taskCounter : Z)
  : Task * Z :=
  let '(id, c) := generateTaskID taskCounter in
  (mkTask id title description StatusPending now None None "" "" "", c).

(** Duration, in milliseconds.  The float64 conversion of the int64
    millisecond count is exact (its magnitude is below 2^53), so the result
    is given as that integer. *)
Definition Duration (t : Task) (now : Time) : Z :=
  match StartedAt t with
  | None => 0
  | Some started =>
      let endTime := match CompletedAt t with
                     | Some completed => completed
                     | None => now
                     end in
      Milliseconds (Sub endTime started)
  end.

Definition UpdateStatus (status : TaskStatus) (now : Time) (t : Task) : Task :=
  let t1 := set_Status status t in
  let t2 := match status with
            | StatusProcessing => set_StartedAt (Some now) t1
            | StatusCompleted | StatusFailed => set_CompletedAt (Some now) t1
            | StatusPending => t1
            end in
  match StartedAt t2 with
  | Some started =>
      let endTime := match CompletedAt t2 with
                     | Some completed => completed
                     | None => now
                     end in
      set_DurationStr (Duration_String (Sub endTime started)) t2
  | None => t2
  end.

End model.

(** ** Pointers, the heap and the log *)

(** A [*model.Task] that is not nil. *)
Definition loc : Type := positive.

(** The zero value [model.Task{}]. *)
Definition zero_Task : model.Task :=
  model.mkTask "" "" "" model.StatusPending 0 None None "" "" "".

(** Reading through a pointer is [h !!! p]; writing through it is
    [alter f p h].  Every pointer of the program comes from [model.NewTask]
    and is allocated; at an address that was never allocated a read gives
    the zero value and a write does nothing. *)
#[global] Instance Task_inhabited : Inhabited model.Task := populate zero_Task.

(** The address of a newly allocated task: one that is not in use. *)
Definition new_loc (h : gmap loc model.Task) : loc := fresh (dom h).

Inductive Level : Type := InfoLevel | WarnLevel | ErrorLevel.

Inductive Field : Type :=
  | zap_String (key value : string)
  | zap_Int (key : string) (value : Z)
  | zap_Time (key : string) (value : GoTime.Time)
  | zap_Error (err : error).

Record LogEntry : Type := mkLog {
  level : Level;
  message : string;
  fields : list Field
}.

(** ** internal/repository *)

Module repository.
Import GoInt.

(** The mutex is not represented: each method runs under it from its first
    to its last statement, so each method is one atomic step. *)
Record InMemoryTaskRepository : Type := mkRepo {
  tasks : gmap string loc;
  nextID : Z
}.

Definition NewTaskRepository : InMemoryTaskRepository :=
  {| tasks := ∅; nextID := 1 |}.

Definition getNextID (r : InMemoryTaskRepository) : string * InMemoryTaskRepository :=
  let id := nextID r in
  (strconv.FormatInt id, {| tasks := tasks r; nextID := wrap_int64 (nextID r + 1) |}).

(** CreateTask writes the id through the pointer, stores the pointer under
    that id and returns the pointer; its error is always nil. *)
Definition CreateTask (task : loc) (h : gmap loc model.Task)
    (r : InMemoryTaskRepository)
  : (loc + error) * gmap loc model.Task * InMemoryTaskRepository :=
  let '(id, r1) := getNextID r in
  let h' := alter (model.set_ID id) task h in
  let r2 := {| tasks := <[ model.ID (h' !!! task) := task ]> (tasks r1);
               nextID := nextID r1 |} in
  (inl task, h', r2).

(** ListTasks: Go iterates the map in no particular order. *)
Definition ListTasks (r : InMemoryTaskRepository) : list loc + error :=
  inl ((map_to_list (tasks r)).*2).

Definition GetTask (id : string) (r : InMemoryTaskRepository) : loc + error :=
  match tasks r !! id with
  | None => inr ErrTaskNotFound
  | Some task => inl task
  end.

Definition UpdateTask (task : loc) (h : gmap loc model.Task)
    (r : InMemoryTaskRepository) : (loc + error) * InMemoryTaskRepository :=
  match tasks r !! model.ID (h !!! task) with
  | None => (inr ErrTaskNotFound, r)
  | Some _ =>
      (inl task,
       {| tasks := <[ model.ID (h !!! task) := task ]> (tasks r);
          nextID := nextID r |})
  end.

Definition DeleteTask (id : string) (r : InMemoryTaskRepository)
  : option error * InMemoryTaskRepository :=
  match tasks r !! id with
  | None => (Some ErrTaskNotFound, r)
  | Some _ => (None, {| tasks := delete id (tasks r); nextID := nextID r |})
  end.

(** A sequence of creations and deletions on one store. *)
Inductive StoreOp : Type :=
  | OpCreate (task : loc)
  | OpDelete (id : string).

(** What a creation assigned, as its caller sees it: the task that
    CreateTask returned, the id read from that task after the call
    ([task.ID]) and what the store holds under that id after the call
    ([r.tasks[task.ID]]). *)
Record Assigned : Type := mkAssigned {
  assigned_task : loc;
  assigned_ID : string;
  assigned_entry : option loc
}.

(** The run of a sequence of operations, with what each creation assigned,
    oldest first. *)
Fixpoint run_ops (ops : list StoreOp) (h : gmap loc model.Task)
    (r : InMemoryTaskRepository)
  : list Assigned * gmap loc model.Task * InMemoryTaskRepository :=
  match ops with
  | [] => ([], h, r)
  | OpCreate task :: ops' =>
      let '(res, h1, r1) := CreateTask task h r in
      let '(trace, h2, r2) := run_ops ops' h1 r1 in
      (match res with
       | inl created =>
           let id := model.ID (h1 !!! created) in
           mkAssigned created id (tasks r1 !! id) :: trace
       | inr _ => trace
       end, h2, r2)
  | OpDelete id :: ops' =>
      let '(_, r1) := DeleteTask id r in
      run_ops ops' h r1
  end.

Definition assigned_ids (trace : list Assigned) : list string :=
  assigned_ID <$> trace.

(** The tasks that a sequence passes to CreateTask, oldest first; each of
    them is a pointer to a task object, that is, is allocated. *)
Fixpoint created_tasks (ops : list StoreOp) : list loc :=
  match ops with
  | [] => []
  | OpCreate task :: ops' => task :: created_tasks ops'
  | OpDelete _ :: ops' => created_tasks ops'
  end.

Fixpoint all_allocated (ops : list StoreOp) (h : gmap loc model.Task) : bool :=
  match ops with
  | [] => true
  | OpCreate task :: ops' => bool_decide (is_Some (h !! task)) && all_allocated ops' h
  | OpDelete _ :: ops' => all_allocated ops' h
  end.

Fixpoint count_creates (ops : list StoreOp) : Z :=
  match ops with
  | [] => 0
  | OpCreate _ :: ops' => 1 + count_creates ops'
  | OpDelete _ :: ops' => count_creates ops'
  end.

End repository.

(** ** internal/service *)

Module service.
Import GoInt GoTime.

(** The buffered channel [taskQueue]: the buffer, and the values of the
    senders that are parked on a full buffer, both oldest first. *)
Record Chan : Type := mkChan {
  buf : list loc;
  sendq : list loc
}.

Definition queue_cap : nat := 100.

Definition send_ready (q : Chan) : bool := bool_decide (length (buf q) < queue_cap)%nat.

Definition chan_send (x : loc) (q : Chan) : Chan :=
  {| buf := buf q ++ [x]; sendq := sendq q |}.

Definition chan_park (x : loc) (q : Chan) : Chan :=
  {| buf := buf q; sendq := sendq q ++ [x] |}.

(** A receive takes the oldest buffered value; the oldest parked sender, if
    any, then completes its send into the freed slot. *)
Definition chan_recv (q : Chan) : option (loc * Chan) :=
  match buf q with
  | [] => None
  | x :: rest =>
      match sendq q with
      | [] => Some (x, {| buf := rest; sendq := [] |})
      | y :: parked => Some (x, {| buf := rest ++ [y]; sendq := parked |})
      end
  end.

(** The process: the heap of tasks, [model.taskCounter], the repository
    behind [s.repo], the fields of the TaskService, the clock read by
    [time.Now] and the log. [ctxDone] says that [s.ctx] is cancelled and
    [shutdownClosed] that [s.shutdownChan] is closed. *)
Record World : Type := mkWorld {
  heap : gmap loc model.Task;
  taskCounter : Z;
  repo : repository.InMemoryTaskRepository;
  processingDelay : Duration;
  workerCount : Z;
  taskQueue : Chan;
  ctxDone : bool;
  shutdownClosed : bool;
  clock : Time;
  logs : list LogEntry
}.

Definition set_heap (v : gmap loc model.Task) (w : World) : World :=
  mkWorld v (taskCounter w) (repo w) (processingDelay w) (workerCount w)
          (taskQueue w) (ctxDone w) (shutdownClosed w) (clock w) (logs w).
Definition set_taskCounter (v : Z) (w : World) : World :=
  mkWorld (heap w) v (repo w) (processingDelay w) (workerCount w)
          (taskQueue w) (ctxDone w) (shutdownClosed w) (clock w) (logs w).
Definition set_repo (v : repository.InMemoryTaskRepository) (w : World) : World :=
  mkWorld (heap w) (taskCounter w) v (processingDelay w) (workerCount w)
          (taskQueue w) (ctxDone w) (shutdownClosed w) (clock w) (logs w).
Definition set_processingDelay (v : Duration) (w : World) : World :=
  mkWorld (heap w) (taskCounter w) (repo w) v (workerCount w)
          (taskQueue w) (ctxDone w) (shutdownClosed w) (clock w) (logs w).
Definition set_workerCount (v : Z) (w : World) : World :=
  mkWorld (heap w) (taskCounter w) (repo w) (processingDelay w) v
          (taskQueue w) (ctxDone w) (shutdownClosed w) (clock w) (logs w).
Definition set_taskQueue (v : Chan) (w : World) : World :=
  mkWorld (heap w) (taskCounter w) (repo w) (processingDelay w) (workerCount w)
          v (ctxDone w) (shutdownClosed w) (clock w) (logs w).
Definition set_ctxDone (v : bool) (w : World) : World :=
  mkWorld (heap w) (taskCounter w) (repo w) (processingDelay w) (workerCount w)
          (taskQueue w) v (shutdownClosed w) (clock w) (logs w).
Definition set_shutdownClosed (v : bool) (w : World) : World :=
  mkWorld (heap w) (taskCounter w) (repo w) (processingDelay w) (workerCount w)
          (taskQueue w) (ctxDone w) v (clock w) (logs w).
Definition set_clock (v : Time) (w : World) : World :=
  mkWorld (heap w) (taskCounter w) (repo w) (processingDelay w) (workerCount w)
          (taskQueue w) (ctxDone w) (shutdownClosed w) v (logs w).

(** The logger appends one entry. *)
Definition log (l : Level) (msg : string) (fs : list Field) (w : World) : World :=
  mkWorld (heap w) (taskCounter w) (repo w) (processingDelay w) (workerCount w)
          (taskQueue w) (ctxDone w) (shutdownClosed w) (clock w)
          (logs w ++ [mkLog l msg fs]).

Definition log_Error (msg : string) (err : error) (fs : list Field) : World -> World :=
  log ErrorLevel msg (zap_Error err :: fs).

(** The state of a fresh process after [NewTaskService(NewTaskRepository())]
    at time [now], before any worker has run. *)
Definition NewTaskService (now : Time) : World :=
  {| heap := ∅; taskCounter := 0;
     repo := repository.NewTaskRepository;
     processingDelay := 2 * Minute;
     workerCount := 5;
     taskQueue := {| buf := []; sendq := [] |};
     ctxDone := false; shutdownClosed := false;
     clock := now; logs := [] |}.

Definition SetProcessingDelay (delay : Duration) (w : World) : World :=
  set_processingDelay delay w.

Definition SetWorkerCount (count : Z) (w : World) : World :=
  let count := if count <? 1 then 1 else count in
  set_workerCount count w.

(** *** The methods called by the transport layer *)

Record CreateTaskRequest : Type := mkReq {
  req_Title : string;
  req_Description : string
}.

(** The caller's context: [ctx.Err()], nil while the context is live. *)
Definition Context : Type := option error.

(** The case that a [select] takes when several are ready is chosen by the
    runtime; [SelectCase] is that choice. *)
Inductive SelectCase : Type :=
  | CaseCtxDone | CaseShutdown | CaseRecv | CaseSend | CaseTimer | CaseDefault.

(** CreateTask either returns, or is parked in its blocking send, from
    which it returns [(task, nil)] once a receive has made room. *)
Inductive CreateResult : Type :=
  | Returned (r : loc + error)
  | ParkedInSend (task : loc).

(** [task := model.NewTask(title, description)]: the new task is allocated,
    the global counter advances and [time.Now] is read. *)
Definition alloc_NewTask (title description : string) (w : World) : loc * World :=
  let '(t, c) := model.NewTask title description (clock w) (taskCounter w) in
  let p := new_loc (heap w) in
  (p, set_taskCounter c (set_heap (<[p := t]> (heap w)) w)).

(** The calls [s.repo.CreateTask(task)] and [s.repo.UpdateTask(task)]. *)
Definition repo_CreateTask (task : loc) (w : World) : (loc + error) * World :=
  let '(res, h, r) := repository.CreateTask task (heap w) (repo w) in
  (res, set_repo r (set_heap h w)).

Definition repo_UpdateTask (task : loc) (w : World) : (loc + error) * World :=
  let '(res, r) := repository.UpdateTask task (heap w) (repo w) in
  (res, set_repo r w).

(** The select of CreateTask: the send when the buffer has room, the
    caller's cancellation when its context is done, either of the two when
    both are ready, and the default case when none is. *)
Definition enqueue (ctx : Context) (pick : SelectCase) (task : loc) (w : World)
  : CreateResult * World :=
  let send w :=
    (Returned (inl task),
     log InfoLevel "Task queued for processing"
       [zap_String "task_id" (model.ID (heap w !!! task))]
       (set_taskQueue (chan_send task (taskQueue w)) w)) in
  let cancelled (cerr : error) w :=
    (Returned (inr (errors_Wrap cerr "task queue is full")), w) in
  match send_ready (taskQueue w), ctx with
  | true, Some cerr =>
      match pick with
      | CaseCtxDone => cancelled cerr w
      | _ => send w
      end
  | true, None => send w
  | false, Some cerr => cancelled cerr w
  | false, None =>
      let w := log WarnLevel
                 "Task queue is full, task will be processed when space is available"
                 [zap_String "task_id" (model.ID (heap w !!! task))] w in
      (ParkedInSend task, set_taskQueue (chan_park task (taskQueue w)) w)
  end.

(** The world in which CreateTask reaches its select: the task is built,
    stored and the creation is logged. *)
Definition created (title description : string) (w : World) : World :=
  let '(task, w) := alloc_NewTask title description w in
  let '(_, w) := repo_CreateTask task w in
  log InfoLevel "Task created"
    [zap_String "task_id" (model.ID (heap w !!! task));
     zap_String "status"
       (model.TaskStatus_string (model.Status (heap w !!! task)))] w.

Definition CreateTask (ctx : Context) (req : CreateTaskRequest)
    (pick : SelectCase) (w : World) : CreateResult * World :=
  let '(task, w) := alloc_NewTask (req_Title req) (req_Description req) w in
  let '(res, w) := repo_CreateTask task w in
  match res with
  | inr err => (Returned (inr (errors_Wrap err "create task")), w)
  | inl task =>
      let w := log InfoLevel "Task created"
                 [zap_String "task_id" (model.ID (heap w !!! task));
                  zap_String "status"
                    (model.TaskStatus_string (model.Status (heap w !!! task)))] w in
      enqueue ctx pick task w
  end.

Definition ListTasks (w : World) : (list loc + error) * World :=
  (repository.ListTasks (repo w), w).

Definition GetTask (id : string) (w : World) : (loc + error) * World :=
  match strconv.ParseInt id with
  | (_, Some _) => (inr ErrInvalidTaskID, w)
  | (_, None) =>
      match repository.GetTask id (repo w) with
      | inr err => (inr (errors_Wrap err "get task"), w)
      | inl task =>
          (inl task,
           log InfoLevel "Task retrieved"
             [zap_String "task_id" (model.ID (heap w !!! task));
              zap_String "status"
                (model.TaskStatus_string (model.Status (heap w !!! task)))] w)
      end
  end.

Definition DeleteTask (id : string) (w : World) : option error * World :=
  match strconv.ParseInt id with
  | (_, Some _) => (Some ErrInvalidTaskID, w)
  | (_, None) =>
      match repository.DeleteTask id (repo w) with
      | (Some err, r) => (Some (errors_Wrap err "delete task"), set_repo r w)
      | (None, r) =>
          (None, log InfoLevel "Task deleted" [zap_String "task_id" id]
                   (set_repo r w))
      end
  end.

(** The first two statements of Shutdown: the log line and
    [close(s.shutdownChan)].  Closing a closed channel panics. *)
Definition Shutdown_signal (w : World) : option World :=
  let w := log InfoLevel "Shutting down task service" [] w in
  if shutdownClosed w then None else Some (set_shutdownClosed true w).

End service.

(** ** The worker loop of [startWorkers] *)

Module worker.
Import GoInt GoTime service.

(** Where a worker goroutine stands.  [AtDelay] and [AtCompletion] carry
    the task that the worker holds; [AtDelay] also carries the instant at
    which the timer of [time.After(s.processingDelay)] fires. *)
Inductive WorkerPC : Type :=
  | AtStart                                   (* goroutine created *)
  | AtLoopHead                                (* the outer select *)
  | AtDequeue                                 (* the inner select *)
  | AtDelay (task : loc) (deadline : Time)    (* the select of step 3 *)
  | AtCompletion (task : loc)                 (* "Complete task": step 4 *)
  | Exited.

Definition stop_ctx (workerID : Z) (w : World) : WorkerPC * World :=
  (Exited,
   log InfoLevel "Worker stopping due to context cancellation"
     [zap_Int "worker_id" workerID] w).

Definition stop_shutdown (workerID : Z) (w : World) : WorkerPC * World :=
  (Exited,
   log InfoLevel "Worker stopping due to shutdown signal"
     [zap_Int "worker_id" workerID] w).

(** Step 2, from the received (non-nil) task to the select of step 3.  The
    queue only ever holds pointers returned by the repository's CreateTask,
    so the [task == nil] test of the loop never succeeds. *)
Definition begin_processing (task : loc) (w : World) : WorkerPC * World :=
  (* task.UpdateStatus(model.StatusProcessing) *)
  let w := set_heap
             (alter (model.UpdateStatus model.StatusProcessing (clock w)) task (heap w))
             w in
  match repo_UpdateTask task w with
  | (inr err, w) =>
      (AtLoopHead,
       log_Error "Failed to update task status" err
         [zap_String "task_id" (model.ID (heap w !!! task))] w)
  | (inl _, w) =>
      let t := heap w !!! task in
      let w := log InfoLevel "Task processing started"
                 ([zap_String "task_id" (model.ID t)]
                  ++ match model.StartedAt t with
                     | Some started => [zap_Time "started_at" started]
                     | None => []
                     end
                  ++ [zap_String "duration" (model.DurationStr t)]) w in
      (AtDelay task (clock w + processingDelay w), w)
  end.

(** Step 4, from "Complete task" to the end of the iteration. *)
Definition complete_task (task : loc) (w : World) : WorkerPC * World :=
  (* task.UpdateStatus(model.StatusCompleted) *)
  let w := set_heap
             (alter (model.UpdateStatus model.StatusCompleted (clock w)) task (heap w))
             w in
  (* task.Result = "Task completed successfully" *)
  let w := set_heap
             (alter (model.set_Result "Task completed successfully") task (heap w))
             w in
  match repo_UpdateTask task w with
  | (inr err, w) =>
      (AtLoopHead,
       log_Error "Failed to update task status" err
         [zap_String "task_id" (model.ID (heap w !!! task))] w)
  | (inl _, w) =>
      let t := heap w !!! task in
      (AtLoopHead,
       log InfoLevel "Task completed"
         [zap_String "task_id" (model.ID t);
          zap_String "result" (model.Result t);
          zap_String "duration" (model.DurationStr t)] w)
  end.

(** One step of worker [workerID].  [pick] is the case that its select
    takes; the step exists only if that case is ready ([CaseDefault]: only
    if no other case of the outer select is). *)
Definition worker_step (workerID : Z) (pick : SelectCase) (pc : WorkerPC)
    (w : World) : option (WorkerPC * World) :=
  match pc with
  | AtStart =>
      Some (AtLoopHead,
            log InfoLevel "Worker started" [zap_Int "worker_id" workerID] w)
  | AtLoopHead =>
      match pick with
      | CaseCtxDone => if ctxDone w then Some (stop_ctx workerID w) else None
      | CaseShutdown =>
          if shutdownClosed w then Some (stop_shutdown workerID w) else None
      | CaseDefault =>
          if ctxDone w || shutdownClosed w then None else Some (AtDequeue, w)
      | _ => None
      end
  | AtDequeue =>
      match pick with
      | CaseCtxDone => if ctxDone w then Some (stop_ctx workerID w) else None
      | CaseShutdown =>
          if shutdownClosed w then Some (stop_shutdown workerID w) else None
      | CaseRecv =>
          match chan_recv (taskQueue w) with
          | None => None
          | Some (task, q) => Some (begin_processing task (set_taskQueue q w))
          end
      | _ => None
      end
  | AtDelay task deadline =>
      match pick with
      | CaseCtxDone =>
          if ctxDone w then
            Some (Exited,
                  log InfoLevel "Task processing cancelled"
                    [zap_String "task_id" (model.ID (heap w !!! task))] w)
          else None
      | CaseShutdown =>
          if shutdownClosed w then
            Some (Exited,
                  log InfoLevel "Task processing cancelled due to shutdown"
                    [zap_String "task_id" (model.ID (heap w !!! task))] w)
          else None
      | CaseTimer =>
          if deadline <=? clock w then Some (AtCompletion task, w) else None
      | _ => None
      end
  | AtCompletion task => Some (complete_task task w)
  | Exited => None
  end.

(** *** The whole process *)

Record Sys : Type := mkSys {
  world : World;
  workers : list WorkerPC
}.

(** What can happen next: a worker moves, the transport layer calls a
    method of the service, the service context is cancelled, or time
    passes. *)
Inductive Event : Type :=
  | EvWorker (workerID : nat) (pick : SelectCase)
  | EvCreateTask (ctx : Context) (req : CreateTaskRequest) (pick : SelectCase)
  | EvListTasks
  | EvGetTask (id : string)
  | EvDeleteTask (id : string)
  | EvShutdown
  | EvCancel
  | EvSetProcessingDelay (delay : Duration)
  | EvSetWorkerCount (count : Z)
  | EvTick (d : Duration).

Definition sys_step (e : Event) (s : Sys) : option Sys :=
  match e with
  | EvWorker i pick =>
      match workers s !! i with
      | None => None
      | Some pc =>
          match worker_step (Z.of_nat i) pick pc (world s) with
          | None => None
          | Some (pc', w') => Some {| world := w'; workers := <[i := pc']> (workers s) |}
          end
      end
  | EvCreateTask ctx req pick =>
      Some {| world := (CreateTask ctx req pick (world s)).2; workers := workers s |}
  | EvListTasks =>
      Some {| world := (ListTasks (world s)).2; workers := workers s |}
  | EvGetTask id =>
      Some {| world := (GetTask id (world s)).2; workers := workers s |}
  | EvDeleteTask id =>
      Some {| world := (DeleteTask id (world s)).2; workers := workers s |}
  | EvShutdown =>
      match Shutdown_signal (world s) with
      | None => None
      | Some w' => Some {| world := w'; workers := workers s |}
      end
  | EvCancel =>
      Some {| world := set_ctxDone true (world s); workers := workers s |}
  | EvSetProcessingDelay delay =>
      Some {| world := SetProcessingDelay delay (world s); workers := workers s |}
  | EvSetWorkerCount count =>
      Some {| world := SetWorkerCount count (world s); workers := workers s |}
  | EvTick d =>
      if d <? 0 then None
      else Some {| world := set_clock (clock (world s) + d) (world s);
                   workers := workers s |}
  end.

Fixpoint run (es : list Event) (s : Sys) : option Sys :=
  match es with
  | [] => Some s
  | e :: es' =>
      match sys_step e s with
      | None => None
      | Some s' => run es' s'
      end
  end.

(** The process right after [NewTaskService]: five workers are created
    (the default [workerCount]; [SetWorkerCount] is called later and does
    not change how many run). *)
Definition init (now : Time) : Sys :=
  {| world := NewTaskService now; workers := replicate 5 AtStart |}.

(** The rest of Shutdown: [wg.Wait()] returns once every worker has left
    its loop; the caller's context may be done before that.  No result
    while neither has happened. *)
Definition all_exited (s : Sys) : bool :=
  forallb (fun pc => match pc with Exited => true | _ => false end) (workers s).

Definition Shutdown_wait (ctx : Context) (pick : SelectCase) (s : Sys)
  : option (option error) :=
  match ctx, all_exited s with
  | Some cerr, true =>
      match pick with
      | CaseCtxDone => Some (Some (errors_Wrap cerr "ctx done"))
      | _ => Some None
      end
  | Some cerr, false => Some (Some (errors_Wrap cerr "ctx done"))
  | None, true => Some None
  | None, false => None
  end.

(** The stop signal of the worker loop. *)
Definition stop_delivered (w : World) : bool := ctxDone w || shutdownClosed w.

(** The events with which a worker takes a task from the queue and runs
    step 2 on it. *)
Definition begins_step2 (e : Event) (s : Sys) : bool :=
  match e with
  | EvWorker i CaseRecv =>
      match workers s !! i with
      | Some AtDequeue => bool_decide (is_Some (sys_step e s))
      | _ => false
      end
  | _ => false
  end.

(** The task that a worker holds. *)
Definition held (pc : WorkerPC) : option loc :=
  match pc with
  | AtDelay task _ | AtCompletion task => Some task
  | _ => None
  end.

(** The tasks that are on their way to a worker, or with one. *)
Definition queued (w : World) (p : loc) : Prop :=
  p ∈ buf (taskQueue w) ++ sendq (taskQueue w).

Definition in_flight (s : Sys) (p : loc) : Prop :=
  queued (world s) p
  \/ exists i pc, workers s !! i = Some pc /\ held pc = Some p.

(** One heap extends another: what was allocated still is, and what had
    its started_at set still has. *)
Definition heap_le (h h' : gmap loc model.Task) : Prop :=
  forall p t, h !! p = Some t ->
    exists t', h' !! p = Some t'
               /\ (is_Some (model.StartedAt t) -> is_Some (model.StartedAt t')).

(** The invariant of the process: the queued tasks are allocated, and the
    task that a worker holds is allocated and has its started_at set. *)
Definition tasks_allocated (s : Sys) : Prop :=
  forall p, queued (world s) p -> is_Some (heap (world s) !! p).

Definition held_started (s : Sys) : Prop :=
  forall i pc p, workers s !! i = Some pc -> held pc = Some p ->
    exists t, heap (world s) !! p = Some t /\ is_Some (model.StartedAt t).

Definition Inv (s : Sys) : Prop := tasks_allocated s /\ held_started s.

(** How many more times a worker may begin step 2 once the stop signal is
    there: once if it stands at the inner select, else never. *)
Definition step2_budget (pc : option WorkerPC) : nat :=
  match pc with
  | Some AtDequeue => 1
  | _ => 0
  end.

(** How many times worker [i] begins step 2 with event [e], and while
    [es] runs from [s]. *)
Definition step2_cost (i : nat) (e : Event) (s : Sys) : nat :=
  match e with
  | EvWorker j _ => if bool_decide (j = i) && begins_step2 e s then 1 else 0
  | _ => 0
  end.

Fixpoint count_step2 (i : nat) (es : list Event) (s : Sys) : nat :=
  match es with
  | [] => 0
  | e :: es' =>
      match sys_step e s with
      | None => 0
      | Some s' => (step2_cost i e s + count_step2 i es' s')%nat
      end
  end.

End worker.

(** ** internal/dto *)

Module dto.

Record TaskResponse : Type := mkTaskResponse {
  ID : string;
  Title : string;
  Description : string;
  Status : string;
  Result : string;
  Error : string;
  CreatedAt : GoTime.Time;
  StartedAt : option GoTime.Time;
  CompletedAt : option GoTime.Time;
  Duration : Z
}.

(** NewTaskResponse reads the task, and the clock through
    [task.Duration()]. *)
Definition NewTaskResponse (task : model.Task) (now : GoTime.Time) : TaskResponse :=
  {| ID := model.ID task;
     Title := model.Title task;
     Description := model.Description task;
     Status := model.TaskStatus_string (model.Status task);
     Result := model.Result task;
     Error := model.Error task;
     CreatedAt := model.CreatedAt task;
     StartedAt := model.StartedAt task;
     CompletedAt := model.CompletedAt task;
     Duration := model.Duration task now |}.

End dto.

(** ** internal/handler

    What a handler writes with [c.JSON] or [c.Status]: the status code and
    the body.  The handlers log through the logger of the service. *)

Module handler.
Import service.

Inductive Body : Type :=
  | gin_H_error (msg : string)                    (* gin.H{"error": msg} *)
  | task_json (r : dto.TaskResponse)
  | tasks_json (rs : list dto.TaskResponse)
  | no_body.

Record Response : Type := mkResponse {
  code : Z;
  body : Body
}.

Definition StatusOK : Z := 200.
Definition StatusCreated : Z := 201.
Definition StatusNoContent : Z := 204.
Definition StatusBadRequest : Z := 400.
Definition StatusNotFound : Z := 404.
Definition StatusInternalServerError : Z := 500.

(** CreateTask.  [bound] is the outcome of [c.ShouldBindJSON(&req)]: the
    request, or nothing when binding fails.  While the service is parked in
    its blocking send the handler has not answered. *)
Definition CreateTask (bound : option CreateTaskRequest) (ctx : Context)
    (pick : SelectCase) (w : World) : option Response * World :=
  match bound with
  | None => (Some (mkResponse StatusBadRequest (gin_H_error "Invalid request body")), w)
  | Some req =>
      match service.CreateTask ctx req pick w with
      | (Returned (inr err), w) =>
          (Some (mkResponse StatusInternalServerError
                            (gin_H_error "Failed to create task")),
           log_Error "Failed to create task" err [] w)
      | (Returned (inl task), w) =>
          (Some (mkResponse StatusCreated
                   (task_json (dto.NewTaskResponse (heap w !!! task) (clock w)))),
           w)
      | (ParkedInSend _, w) => (None, w)
      end
  end.

Definition ListTasks (w : World) : Response * World :=
  match service.ListTasks w with
  | (inr err, w) =>
      (mkResponse StatusInternalServerError (gin_H_error "Failed to list tasks"),
       log_Error "Failed to list tasks" err [] w)
  | (inl tasks, w) =>
      (mkResponse StatusOK
         (tasks_json
            (map (fun task => dto.NewTaskResponse (heap w !!! task) (clock w)) tasks)),
       w)
  end.

(** GetTask.  [id] is [c.Param("id")]. *)
Definition GetTask (id : string) (w : World) : Response * World :=
  if String.eqb id "" then
    (mkResponse StatusBadRequest (gin_H_error "Task ID is required"),
     log InfoLevel "Invalid request: missing task ID" [] w)
  else
    match service.GetTask id w with
    | (inr err, w) =>
        if errors_Is err ErrInvalidTaskID then
          (mkResponse StatusBadRequest (gin_H_error "Invalid task ID format"),
           log InfoLevel "Invalid task ID format" [zap_String "task_id" id] w)
        else if errors_Is err ErrTaskNotFound then
          (mkResponse StatusNotFound (gin_H_error "Task not found"),
           log InfoLevel "Task not found" [zap_String "task_id" id] w)
        else
          (mkResponse StatusInternalServerError (gin_H_error "Failed to get task"),
           log_Error "Failed to get task" err [zap_String "task_id" id] w)
    | (inl task, w) =>
        (mkResponse StatusOK
           (task_json (dto.NewTaskResponse (heap w !!! task) (clock w))),
         w)
    end.

Definition DeleteTask (id : string) (w : World) : Response * World :=
  if String.eqb id "" then
    (mkResponse StatusBadRequest (gin_H_error "Task ID is required"),
     log InfoLevel "Invalid request: missing task ID" [] w)
  else
    match service.DeleteTask id w with
    | (Some err, w) =>
        if errors_Is err ErrInvalidTaskID then
          (mkResponse StatusBadRequest (gin_H_error "Invalid task ID format"),
           log InfoLevel "Invalid task ID format" [zap_String "task_id" id] w)
        else if errors_Is err ErrTaskNotFound then
          (mkResponse StatusNotFound (gin_H_error "Task not found"),
           log InfoLevel "Task not found" [zap_String "task_id" id] w)
        else
          (mkResponse StatusInternalServerError (gin_H_error "Failed to delete task"),
           log_Error "Failed to delete task" err [zap_String "task_id" id] w)
    | (None, w) => (mkResponse StatusNoContent no_body, w)
    end.

End handler.

(** ** Invariants of the running process *)

(** The shapes that a task can have: Pending and untouched; Processing,
    started and not completed; Completed, with both instants in order and
    the success result.  [now] is the clock of the process. *)
Definition lifecycle (now : GoTime.Time) (t : model.Task) : Prop :=
  model.Error t = ""%string
  /\ ((model.Status t = model.StatusPending
       /\ model.StartedAt t = None /\ model.CompletedAt t = None
       /\ model.Result t = ""%string /\ model.DurationStr t = ""%string)
      \/ (model.Status t = model.StatusProcessing
          /\ (exists started, model.StartedAt t = Some started /\ started <= now)
          /\ model.CompletedAt t = None /\ model.Result t = ""%string)
      \/ (model.Status t = model.StatusCompleted
          /\ (exists started completed,
                model.StartedAt t = Some started
                /\ model.CompletedAt t = Some completed
                /\ started <= completed <= now
                /\ model.DurationStr t
                   = GoTime.Duration_String (GoTime.Sub completed started))
          /\ model.Result t = "Task completed successfully"%string)).

(** Every allocated task has one of these shapes; the queue holds each task
    at most once and only Pending ones; a task held by a worker is
    Processing, is not queued and is held by that worker alone; the store
    keeps each task under the id written in it. *)
Record Good (s : worker.Sys) : Prop := mkGood {
  good_lifecycle :
    forall p t, service.heap (worker.world s) !! p = Some t ->
                lifecycle (service.clock (worker.world s)) t;
  good_queue_nodup :
    NoDup (service.buf (service.taskQueue (worker.world s))
           ++ service.sendq (service.taskQueue (worker.world s)));
  good_queued :
    forall p, worker.queued (worker.world s) p ->
      exists t, service.heap (worker.world s) !! p = Some t
                /\ model.Status t = model.StatusPending;
  good_held :
    forall i pc p, worker.workers s !! i = Some pc -> worker.held pc = Some p ->
      ~ worker.queued (worker.world s) p
      /\ (exists t, service.heap (worker.world s) !! p = Some t
                    /\ model.Status t = model.StatusProcessing)
      /\ (forall j pc', worker.workers s !! j = Some pc' ->
                        worker.held pc' = Some p -> j = i);
  good_keyed :
    forall id p, repository.tasks (service.repo (worker.world s)) !! id = Some p ->
      exists t, service.heap (worker.world s) !! p = Some t /\ model.ID t = id
}.

(** The counters, the bounded queue and the pool. *)
Record Sized (s : worker.Sys) : Prop := mkSized {
  sized_nextID : GoInt.is_int64 (repository.nextID (service.repo (worker.world s)));
  sized_counter :
    0 <= service.taskCounter (worker.world s) <= GoInt.maxUint64
    /\ repository.nextID (service.repo (worker.world s))
       = GoInt.wrap_int64 (service.taskCounter (worker.world s) + 1);
  sized_buffer :
    (length (service.buf (service.taskQueue (worker.world s))) <= service.queue_cap)%nat
    /\ (service.sendq (service.taskQueue (worker.world s)) <> [] ->
        length (service.buf (service.taskQueue (worker.world s))) = service.queue_cap);
  sized_pool :
    length (worker.workers s) = 5%nat /\ 1 <= service.workerCount (worker.world s)
}.

(** A state of the process that some run from [NewTaskService] reaches. *)
Definition reachable (s : worker.Sys) : Prop :=
  exists now es, worker.run es (worker.init now) = Some s.

(** What a step of a worker is: a move that writes nothing but the log;
    or the receipt of a task with step 2; or step 4. *)
Definition quiet_step (pc pc' : worker.WorkerPC) (w w' : service.World) : Prop :=
  service.heap w' = service.heap w /\ service.repo w' = service.repo w
  /\ service.taskQueue w' = service.taskQueue w
  /\ (worker.held pc' = worker.held pc \/ worker.held pc' = None).

Definition begin_step (pc pc' : worker.WorkerPC) (w w' : service.World) : Prop :=
  pc = worker.AtDequeue
  /\ exists task q',
       service.chan_recv (service.taskQueue w) = Some (task, q')
       /\ (pc', w') = worker.begin_processing task (service.set_taskQueue q' w).

Definition complete_step (pc pc' : worker.WorkerPC) (w w' : service.World) : Prop :=
  exists task, pc = worker.AtCompletion task /\ (pc', w') = worker.complete_task task w.

(** How many of its steps a worker can still take once the stop signal is
    there, and how many steps worker [i] takes in a run. *)
Definition exit_rank (pc : worker.WorkerPC) : nat :=
  match pc with
  | worker.AtDequeue => 4
  | worker.AtDelay _ _ => 3
  | worker.AtStart | worker.AtCompletion _ => 2
  | worker.AtLoopHead => 1
  | worker.Exited => 0
  end.

Fixpoint worker_steps (i : nat) (es : list worker.Event) : nat :=
  match es with
  | [] => 0
  | worker.EvWorker j _ :: es' =>
      ((if bool_decide (j = i) then 1 else 0) + worker_steps i es')%nat
  | _ :: es' => worker_steps i es'
  end.

(** ** Sample values *)

(** A task that began processing at instant 100. *)
Definition reentered_task : model.Task :=
  model.mkTask "1" "T" "D" model.StatusProcessing 0 (Some 100) None "0s" "" "".

Definition pending_task : model.Task :=
  model.mkTask "1" "T" "D" model.StatusPending 0 None None "" "" "".

(** A task processed from 1ms to 3.5ms after the origin of the clock. *)
Definition completed_task : model.Task :=
  model.mkTask "1" "T" "D" model.StatusCompleted 0 (Some 1000000) (Some 3500000)
               "2.5ms" "Task completed successfully" "".

(** A task whose instants are 2^63 - 1 + 10^6 nanoseconds apart, more than
    the longest time.Duration (about 292 years). *)
Definition long_task : model.Task :=
  model.mkTask "1" "T" "D" model.StatusCompleted 0 (Some 0)
               (Some 9223372036855775807)
               (GoTime.Duration_String (GoTime.Sub 9223372036855775807 0))
               "Task completed successfully" "".

(** A heap with three tasks built but not yet stored. *)
Definition three_tasks : gmap loc model.Task :=
  {[ 1%positive := pending_task; 2%positive := pending_task;
     3%positive := pending_task ]}.

(** Two creations, the deletion of the first task, and a third creation. *)
Definition create_delete_create : list repository.StoreOp :=
  [repository.OpCreate 1%positive; repository.OpCreate 2%positive;
   repository.OpDelete "1"; repository.OpCreate 3%positive].

(** The ids of a list are numerically increasing: every id parses as a
    number greater than those of the ids before it. *)
Definition numerically_increasing (ids : list string) : Prop :=
  forall (i j : nat) (a b : string),
    (i < j)%nat -> ids !! i = Some a -> ids !! j = Some b ->
    exists na nb,
      strconv.ParseInt a = (na, None) /\ strconv.ParseInt b = (nb, None)
      /\ na < nb.

(** A process whose store holds one completed task under the id "1". *)
Definition stored_world : service.World :=
  service.set_repo
    {| repository.tasks := {[ "1"%string := 1%positive ]}; repository.nextID := 2 |}
    (service.set_heap {[ 1%positive := completed_task ]} (service.NewTaskService 0)).

(** The 42nd task built by NewTask in a process, before it is stored. *)
Definition task_from_NewTask : model.Task :=
  (model.NewTask "T" "D" 0 41).1.

(** *** Sample runs of the process *)

Definition req_TD : service.CreateTaskRequest := service.mkReq "T" "D".

(** Worker 0 starts and waits on the empty queue; a task is created with
    no processing delay; worker 0 takes it, runs step 2 and its timer
    fires: the worker stands before step 4. *)
Definition run_until_completion : list worker.Event :=
  [worker.EvWorker 0 service.CaseDefault;
   worker.EvWorker 0 service.CaseDefault;
   worker.EvSetProcessingDelay 0;
   worker.EvCreateTask None req_TD service.CaseSend;
   worker.EvWorker 0 service.CaseRecv;
   worker.EvWorker 0 service.CaseTimer].

Definition before_completion : worker.Sys :=
  default (worker.init 0) (worker.run run_until_completion (worker.init 0)).

(** The same, but the task is deleted while the worker is in its delay. *)
Definition run_with_delete : list worker.Event :=
  [worker.EvWorker 0 service.CaseDefault;
   worker.EvWorker 0 service.CaseDefault;
   worker.EvSetProcessingDelay 0;
   worker.EvCreateTask None req_TD service.CaseSend;
   worker.EvWorker 0 service.CaseRecv;
   worker.EvDeleteTask "1";
   worker.EvWorker 0 service.CaseTimer].

Definition deleted_before_completion : worker.Sys :=
  default (worker.init 0) (worker.run run_with_delete (worker.init 0)).

(** Worker 0 waits on the empty queue; a task is created and queued; then
    Shutdown closes the shutdown channel. *)
Definition run_until_shutdown : list worker.Event :=
  [worker.EvWorker 0 service.CaseDefault;
   worker.EvWorker 0 service.CaseDefault;
   worker.EvCreateTask None req_TD service.CaseSend;
   worker.EvShutdown].

Definition after_shutdown : worker.Sys :=
  default (worker.init 0) (worker.run run_until_shutdown (worker.init 0)).


(** Worker 0 has taken the task and waits out the default delay of two
    minutes. *)
Definition run_into_delay : list worker.Event :=
  [worker.EvWorker 0 service.CaseDefault;
   worker.EvWorker 0 service.CaseDefault;
   worker.EvCreateTask None req_TD service.CaseSend;
   worker.EvWorker 0 service.CaseRecv].

Definition in_delay : worker.Sys :=
  default (worker.init 0) (worker.run run_into_delay (worker.init 0)).

(** Worker 0 waits on the queue; a task is created, queued, and deleted
    from the store before any worker has taken it. *)
Definition run_delete_queued : list worker.Event :=
  [worker.EvWorker 0 service.CaseDefault;
   worker.EvWorker 0 service.CaseDefault;
   worker.EvCreateTask None req_TD service.CaseSend;
   worker.EvDeleteTask "1"].

Definition deleted_in_queue : worker.Sys :=
  default (worker.init 0) (worker.run run_delete_queued (worker.init 0)).

(** Worker 0 waits on the queue and a task is queued. *)
Definition run_until_queued : list worker.Event :=
  [worker.EvWorker 0 service.CaseDefault;
   worker.EvWorker 0 service.CaseDefault;
   worker.EvCreateTask None req_TD service.CaseSend].

Definition task_queued : worker.Sys :=
  default (worker.init 0) (worker.run run_until_queued (worker.init 0)).

(** * Properties *)

(** ** strconv: what is formatted parses back *)

Section strconv_facts.
Import GoInt strconv.

Lemma digit_char_cases (d : Z) :
  0 <= d < 10 ->
  d = 0 \/ d = 1 \/ d = 2 \/ d = 3 \/ d = 4 \/ d = 5 \/ d = 6 \/ d = 7 \/ d = 8 \/ d = 9.
Proof. lia. Qed.

Lemma digit_char_is_digit (d : Z) :
  0 <= d < 10 ->
  is_digit (digit_char d) = true /\ digit_val (digit_char d) = d
  /\ Ascii.eqb (digit_char d) "+" = false /\ Ascii.eqb (digit_char d) "-" = false.
Proof.
  intros H. destruct (digit_char_cases d H) as [->|[->|[->|[->|[->|[->|[->|[->|[->| ->]]]]]]]]];
    repeat split; reflexivity.
Qed.

Lemma parseUint_loop_digit (d n : Z) (s : string) :
  0 <= d < 10 -> 0 <= n -> n * 10 + d <= maxUint64 ->
  parseUint_loop (String (digit_char d) s) n = parseUint_loop s (n * 10 + d).
Proof.
  intros Hd Hn Hmax. destruct (digit_char_is_digit d Hd) as (Hdig & Hval & _).
  cbn [parseUint_loop]. rewrite Hdig, Hval.
  unfold cutoff10, maxUint64, wrap_uint64 in *.
  replace (18446744073709551615 / 10 + 1) with 1844674407370955162 by reflexivity.
  destruct (Z.leb_spec 1844674407370955162 n); [lia|].
  rewrite Z.mod_small by lia.
  destruct (Z.ltb_spec (n * 10 + d) (n * 10)); [lia|].
  destruct (Z.ltb_spec 18446744073709551615 (n * 10 + d)); [lia|].
  reflexivity.
Qed.

Lemma formatBits_parse (fuel : nat) :
  forall (u : Z) (buf : string),
    0 <= u <= maxUint64 -> u < 10 ^ Z.of_nat fuel ->
    parseUint_loop (formatBits fuel u buf) 0 = parseUint_loop buf u.
Proof.
  induction fuel as [|fuel IH]; intros u buf Hu Hlt.
  - cbn in Hlt. assert (u = 0) by lia. subst. reflexivity.
  - cbn [formatBits].
    assert (Hmod : 0 <= u mod 10 < 10) by (apply Z.mod_pos_bound; lia).
    assert (Hdm : u = 10 * (u / 10) + u mod 10) by (apply Z.div_mod; lia).
    assert (Hdiv : 0 <= u / 10) by (apply Z.div_pos; lia).
    destruct (Z.eqb_spec (u / 10) 0) as [Hz|Hnz].
    + rewrite parseUint_loop_digit by (unfold maxUint64 in *; lia).
      f_equal. lia.
    + rewrite IH.
      * rewrite parseUint_loop_digit by (unfold maxUint64 in *; lia).
        f_equal. lia.
      * unfold maxUint64 in *. lia.
      * rewrite Nat2Z.inj_succ, Z.pow_succ_r in Hlt by lia. lia.
Qed.

Lemma formatBits_head (fuel : nat) :
  forall (u : Z) (buf : string),
    0 <= u ->
    exists d rest, 0 <= d < 10 /\ formatBits (S fuel) u buf = String (digit_char d) rest.
Proof.
  induction fuel as [|fuel IH]; intros u buf Hu.
  - cbn [formatBits].
    assert (0 <= u mod 10 < 10) by (apply Z.mod_pos_bound; lia).
    destruct (u / 10 =? 0); eauto.
  - assert (0 <= u mod 10 < 10) by (apply Z.mod_pos_bound; lia).
    change (formatBits (S (S fuel)) u buf)
      with (let buf' := String (digit_char (u mod 10)) buf in
            if u / 10 =? 0 then buf' else formatBits (S fuel) (u / 10) buf').
    cbv zeta. destruct (u / 10 =? 0); [eauto|].
    apply IH. apply Z.div_pos; lia.
Qed.

Lemma ParseUint_FormatUint (u : Z) :
  0 <= u <= maxUint64 -> ParseUint (FormatUint u) = (u, None).
Proof.
  intros Hu. unfold FormatUint.
  destruct (formatBits_head 19 u "" ltac:(lia)) as (d & rest & Hd & Heq).
  unfold ParseUint. rewrite Heq, <- Heq.
  rewrite formatBits_parse; [reflexivity|lia|].
  unfold maxUint64 in Hu. change (10 ^ Z.of_nat 20) with 100000000000000000000. lia.
Qed.

(** Every int64 is read back from its decimal form. *)
Lemma ParseInt_FormatInt (i : Z) :
  is_int64 i -> ParseInt (FormatInt i) = (i, None).
Proof.
  unfold is_int64, minInt64, maxInt64. intros Hi. unfold FormatInt.
  destruct (Z.ltb_spec i 0) as [Hneg|Hpos].
  - unfold wrap_uint64. rewrite Z.mod_small by lia.
    cbn [ParseInt]. replace (Ascii.eqb "-"%char "+"%char) with false by reflexivity.
    replace (Ascii.eqb "-"%char "-"%char) with true by reflexivity.
    pose proof (ParseUint_FormatUint (- i)) as HP. unfold FormatUint in HP.
    rewrite HP by (unfold maxUint64; lia).
    cbn [negb andb].
    destruct (Z.ltb_spec 9223372036854775808 (- i)); [lia|].
    f_equal. unfold wrap_int64.
    replace (- - i + 9223372036854775808) with (i + 9223372036854775808) by lia.
    rewrite Z.mod_small by lia. lia.
  - destruct (formatBits_head 19 i "" Hpos) as (d & rest & Hd & Heq).
    destruct (digit_char_is_digit d Hd) as (_ & _ & Hplus & Hminus).
    rewrite Heq. cbn [ParseInt]. rewrite Hplus, Hminus. rewrite <- Heq.
    pose proof (ParseUint_FormatUint i) as HP. unfold FormatUint in HP.
    rewrite HP by (unfold maxUint64; lia).
    cbn [negb andb].
    destruct (Z.leb_spec 9223372036854775808 i); [lia|].
    f_equal. unfold wrap_int64. rewrite Z.mod_small by lia. lia.
Qed.

Lemma FormatInt_inj (i j : Z) :
  is_int64 i -> is_int64 j -> FormatInt i = FormatInt j -> i = j.
Proof.
  intros Hi Hj Heq.
  pose proof (ParseInt_FormatInt i Hi) as H1.
  pose proof (ParseInt_FormatInt j Hj) as H2.
  rewrite Heq in H1. congruence.
Qed.

End strconv_facts.

(** ** strconv.ParseInt accepts exactly the numeric identifiers *)

Section ParseInt_facts.
Import GoInt strconv.

Lemma is_digit_val (c : ascii) : is_digit c = true -> 0 <= digit_val c < 10.
Proof.
  unfold is_digit, digit_val. intros H.
  apply andb_prop in H as [H1 H2].
  apply Z.leb_le in H1. apply Z.leb_le in H2. lia.
Qed.

Lemma decimal_value_ge (s : string) :
  forall n, 0 <= n -> all_digits s = true -> n <= decimal_value s n.
Proof.
  induction s as [|c s IH]; intros n Hn Hd; cbn in *; [lia|].
  apply andb_prop in Hd as [Hc Hs].
  pose proof (is_digit_val c Hc).
  specialize (IH (n * 10 + digit_val c) ltac:(lia) Hs). lia.
Qed.

(** The digit loop on a string of digits: the value, or a range error as
    soon as the value leaves the uint64 range. *)
Lemma parseUint_loop_digits (s : string) :
  forall n, 0 <= n <= maxUint64 -> all_digits s = true ->
    parseUint_loop s n =
      if decimal_value s n <=? maxUint64 then (decimal_value s n, None)
      else (maxUint64, Some ErrRange).
Proof.
  induction s as [|c s IH]; intros n Hn Hd.
  - cbn. destruct (Z.leb_spec n maxUint64); [reflexivity|lia].
  - cbn in Hd. apply andb_prop in Hd as [Hc Hs].
    pose proof (is_digit_val c Hc) as Hv.
    cbn [parseUint_loop decimal_value]. rewrite Hc.
    unfold cutoff10, maxUint64, wrap_uint64 in *.
    replace (18446744073709551615 / 10 + 1) with 1844674407370955162 by reflexivity.
    destruct (Z.leb_spec 1844674407370955162 n) as [Hcut|Hcut].
    + pose proof (decimal_value_ge s (n * 10 + digit_val c) ltac:(lia) Hs).
      destruct (Z.leb_spec (decimal_value s (n * 10 + digit_val c)) 18446744073709551615);
        [lia|reflexivity].
    + destruct (Z.le_gt_cases (n * 10 + digit_val c) 18446744073709551615) as [Hfit|Hover].
      * rewrite Z.mod_small by lia.
        destruct (Z.ltb_spec (n * 10 + digit_val c) (n * 10)); [lia|].
        destruct (Z.ltb_spec 18446744073709551615 (n * 10 + digit_val c)); [lia|].
        cbn [orb]. apply IH; [lia|assumption].
      * assert (Hw : (n * 10 + digit_val c) mod 18446744073709551616
                     = n * 10 + digit_val c - 18446744073709551616).
        { symmetry. apply (Z.mod_unique _ _ 1); lia. }
        rewrite Hw.
        destruct (Z.ltb_spec (n * 10 + digit_val c - 18446744073709551616) (n * 10)); [|lia].
        cbn [orb].
        pose proof (decimal_value_ge s (n * 10 + digit_val c) ltac:(lia) Hs).
        destruct (Z.leb_spec (decimal_value s (n * 10 + digit_val c)) 18446744073709551615);
          [lia|reflexivity].
Qed.

(** On any string, an error of the digit loop is a syntax error or the
    range error that comes with the largest uint64. *)
Lemma parseUint_loop_error (s : string) :
  forall n v e, parseUint_loop s n = (v, Some e) ->
    e = ErrSyntax \/ (e = ErrRange /\ v = maxUint64).
Proof.
  induction s as [|c s IH]; intros n v e H; cbn in H; [discriminate|].
  destruct (is_digit c); [|inversion H; auto].
  destruct (cutoff10 <=? n); [inversion H; auto|].
  destruct (_ || _); [inversion H; auto|].
  eapply IH; eassumption.
Qed.

(** Without an error, the digit loop has read digits only. *)
Lemma parseUint_loop_ok (s : string) :
  forall n v, parseUint_loop s n = (v, None) -> all_digits s = true.
Proof.
  induction s as [|c s IH]; intros n v H; cbn in *; [reflexivity|].
  destruct (is_digit c); [|discriminate].
  destruct (cutoff10 <=? n); [discriminate|].
  destruct (_ || _); [discriminate|].
  cbn. eapply IH; eassumption.
Qed.

Lemma ParseUint_ok (s : string) (v : Z) :
  ParseUint s = (v, None) ->
  s <> EmptyString /\ all_digits s = true /\ v = decimal_value s 0 /\ v <= maxUint64.
Proof.
  intros H. destruct s as [|c s]; [discriminate|].
  unfold ParseUint in H.
  pose proof (parseUint_loop_ok _ _ _ H) as Hd.
  rewrite (parseUint_loop_digits _ 0) in H by (unfold maxUint64; lia || assumption).
  destruct (Z.leb_spec (decimal_value (String c s) 0) maxUint64); [|discriminate].
  inversion H. subst. repeat split; [discriminate|assumption|assumption].
Qed.

Lemma ParseUint_digits (s : string) :
  s <> EmptyString -> all_digits s = true -> decimal_value s 0 <= maxUint64 ->
  ParseUint s = (decimal_value s 0, None).
Proof.
  intros Hne Hd Hv. destruct s as [|c s]; [congruence|].
  unfold ParseUint. rewrite (parseUint_loop_digits _ 0) by (unfold maxUint64; lia || assumption).
  destruct (Z.leb_spec (decimal_value (String c s) 0) maxUint64); [reflexivity|lia].
Qed.

Lemma all_digits_head (c : ascii) (s : string) :
  all_digits (String c s) = true ->
  Ascii.eqb c "+" = false /\ Ascii.eqb c "-" = false.
Proof.
  cbn. intros H. apply andb_prop in H as [Hc _].
  split; destruct (Ascii.eqb_spec c "+"%char), (Ascii.eqb_spec c "-"%char);
    subst; try reflexivity; discriminate.
Qed.

Lemma decimal_value_nonneg (s : string) :
  all_digits s = true -> 0 <= decimal_value s 0.
Proof. intros. apply (decimal_value_ge s 0); [lia|assumption]. Qed.

(** ParseInt returns a nil error on the numeric identifiers... *)
Lemma ParseInt_numeric (s : string) :
  numeric_id s -> (ParseInt s).2 = None.
Proof.
  intros [ds Hne Hd Hv | ds Hne Hd Hv | ds Hne Hd Hv];
    pose proof (decimal_value_nonneg ds Hd) as H0;
    unfold minInt64, maxInt64 in Hv.
  - destruct ds as [|c ds]; [congruence|].
    destruct (all_digits_head _ _ Hd) as [Hp Hm].
    cbn [ParseInt]. rewrite Hp, Hm.
    rewrite ParseUint_digits by (unfold maxUint64; lia || assumption).
    cbn [negb andb].
    destruct (Z.leb_spec 9223372036854775808 (decimal_value (String c ds) 0)); [lia|].
    reflexivity.
  - cbn [ParseInt]. replace (Ascii.eqb "+"%char "+"%char) with true by reflexivity.
    rewrite ParseUint_digits by (unfold maxUint64; lia || assumption).
    cbn [negb andb].
    destruct (Z.leb_spec 9223372036854775808 (decimal_value ds 0)); [lia|].
    reflexivity.
  - cbn [ParseInt]. replace (Ascii.eqb "-"%char "+"%char) with false by reflexivity.
    replace (Ascii.eqb "-"%char "-"%char) with true by reflexivity.
    rewrite ParseUint_digits by (unfold maxUint64; lia || assumption).
    cbn [negb andb].
    destruct (Z.ltb_spec 9223372036854775808 (decimal_value ds 0)); [lia|].
    reflexivity.
Qed.

(** ... and on no other string. *)
Lemma ParseInt_ok_numeric (s : string) :
  (ParseInt s).2 = None -> numeric_id s.
Proof.
  destruct s as [|c0 rest]; [discriminate|].
  cbn [ParseInt].
  destruct (Ascii.eqb_spec c0 "+"%char) as [->|Hnp].
  - replace (Ascii.eqb "+"%char "-"%char) with false by reflexivity.
    destruct (ParseUint rest) as [un [[|]|]] eqn:HP; cbn [negb andb]; try discriminate.
    + destruct (parseUint_loop_error rest 0 un ErrRange) as [?|[_ ->]]; try discriminate.
      destruct rest; [discriminate|exact HP].
    + destruct (ParseUint_ok _ _ HP) as (Hne & Hd & -> & Hmax).
      destruct (Z.leb_spec 9223372036854775808 (decimal_value rest 0)); [discriminate|].
      intros _. apply numeric_plus; [assumption|assumption|unfold maxInt64; lia].
  - destruct (Ascii.eqb_spec c0 "-"%char) as [->|Hnm].
    + destruct (ParseUint rest) as [un [[|]|]] eqn:HP; cbn [negb andb]; try discriminate.
      * destruct (parseUint_loop_error rest 0 un ErrRange) as [?|[_ ->]]; try discriminate.
        destruct rest; [discriminate|exact HP].
      * destruct (ParseUint_ok _ _ HP) as (Hne & Hd & -> & Hmax).
        destruct (Z.ltb_spec 9223372036854775808 (decimal_value rest 0)); [discriminate|].
        intros _. apply numeric_minus; [assumption|assumption|unfold minInt64; lia].
    + destruct (ParseUint (String c0 rest)) as [un [[|]|]] eqn:HP; cbn [negb andb];
        try discriminate.
      * destruct (parseUint_loop_error (String c0 rest) 0 un ErrRange) as [?|[_ ->]];
          try discriminate. exact HP.
      * destruct (ParseUint_ok _ _ HP) as (Hne & Hd & -> & Hmax).
        destruct (Z.leb_spec 9223372036854775808 (decimal_value (String c0 rest) 0));
          [discriminate|].
        intros _. apply numeric_unsigned; [assumption|assumption|unfold maxInt64; lia].
Qed.

Lemma ParseInt_error_iff (s : string) :
  (ParseInt s).2 <> None <-> ~ numeric_id s.
Proof.
  split.
  - intros H Hn. apply H, ParseInt_numeric, Hn.
  - intros H Hok. apply H, ParseInt_ok_numeric, Hok.
Qed.

End ParseInt_facts.

(** ** The task entity *)

Section model_facts.
Import GoInt GoTime model.

Lemma Sub_exact (t u : Time) : is_int64 (t - u) -> Sub t u = t - u.
Proof.
  unfold is_int64, Sub. intros [Hlo Hhi].
  destruct (Z.ltb_spec (t - u) minInt64); [lia|].
  destruct (Z.ltb_spec maxInt64 (t - u)); [lia|]. reflexivity.
Qed.

Lemma Sub_nonneg (t u : Time) : u <= t -> 0 <= Sub t u.
Proof.
  unfold Sub, minInt64, maxInt64. intros H.
  destruct (Z.ltb_spec (t - u) (-9223372036854775808)); [lia|].
  destruct (Z.ltb_spec 9223372036854775807 (t - u)); lia.
Qed.

Lemma Milliseconds_nonneg (d : GoTime.Duration) : 0 <= d -> 0 <= Milliseconds d.
Proof. intros H. unfold Milliseconds, Millisecond. apply Z.quot_pos; lia. Qed.

Lemma UpdateStatus_Processing_fields (t : Task) (now : Time) :
  StartedAt (UpdateStatus StatusProcessing now t) = Some now
  /\ Status (UpdateStatus StatusProcessing now t) = StatusProcessing
  /\ CompletedAt (UpdateStatus StatusProcessing now t) = CompletedAt t.
Proof. unfold UpdateStatus. cbn. auto. Qed.

(** C1, as amended: UpdateStatus(Processing) sets started_at to the current
    time whatever it held before (there is no guard; a re-entry resets the
    start time), makes the status Processing and leaves completed_at as it
    was. *)
Theorem UpdateStatus_Processing_sets_StartedAt (t : Task) (now : Time) :
  StartedAt (UpdateStatus StatusProcessing now t) = Some now
  /\ Status (UpdateStatus StatusProcessing now t) = StatusProcessing
  /\ CompletedAt (UpdateStatus StatusProcessing now t) = CompletedAt t.
Proof. exact (UpdateStatus_Processing_fields t now). Qed.

(** C1, as stated, fails: a task that started at instant 100 and is moved
    to Processing again at instant 200 has its started_at reset to 200. *)
Lemma UpdateStatus_Processing_resets_StartedAt :
  StartedAt reentered_task = Some 100
  /\ StartedAt (UpdateStatus StatusProcessing 200 reentered_task) = Some 200
  /\ StartedAt (UpdateStatus StatusProcessing 200 reentered_task)
     <> StartedAt reentered_task.
Proof. repeat split. cbn. discriminate. Qed.

(** Entering Completed or Failed sets completed_at and keeps started_at. *)
Lemma UpdateStatus_Completed_fields (t : Task) (now : Time) :
  Status (UpdateStatus StatusCompleted now t) = StatusCompleted
  /\ CompletedAt (UpdateStatus StatusCompleted now t) = Some now
  /\ StartedAt (UpdateStatus StatusCompleted now t) = StartedAt t
  /\ ID (UpdateStatus StatusCompleted now t) = ID t
  /\ Result (UpdateStatus StatusCompleted now t) = Result t.
Proof. destruct t as [? ? ? ? ? [s|] ? ? ? ?]; cbv; repeat split; reflexivity. Qed.

Lemma UpdateStatus_ID (st : TaskStatus) (now : Time) (t : Task) :
  ID (UpdateStatus st now t) = ID t.
Proof.
  unfold UpdateStatus.
  destruct st; cbn; try destruct (StartedAt t); reflexivity.
Qed.

(** C5, as amended: Duration is zero without started_at.  With started_at
    and completed_at it is completed_at.Sub(started_at) in whole
    milliseconds: the same at every instant of reading; the difference
    completed_at - started_at truncated to milliseconds whenever that
    difference is an int64 duration; the milliseconds of the longest (or
    shortest) duration when the difference is beyond that range; and, when
    completed_at is not earlier than started_at, not negative and not more
    than the difference. *)
Theorem Duration_frozen_at_completion (t : Task) (now : Time) :
  (StartedAt t = None -> Duration t now = 0)
  /\ (forall started completed,
        StartedAt t = Some started -> CompletedAt t = Some completed ->
        Duration t now = Milliseconds (Sub completed started)
        /\ (is_int64 (completed - started) ->
            Duration t now = Z.quot (completed - started) 1000000)
        /\ (maxInt64 < completed - started -> Duration t now = 9223372036854)
        /\ (completed - started < minInt64 -> Duration t now = -9223372036854)
        /\ (forall now', Duration t now' = Duration t now)
        /\ (started <= completed ->
            0 <= Duration t now
            /\ Duration t now * 1000000 <= completed - started)).
Proof.
  split.
  - intros H. unfold Duration. rewrite H. reflexivity.
  - intros started completed Hs Hc. unfold Duration. rewrite Hs, Hc.
    split; [reflexivity|]. split; [|split; [|split; [|split]]].
    + intros Hfit. rewrite Sub_exact by assumption. reflexivity.
    + intros Hbig. unfold Sub, minInt64, maxInt64 in *.
      destruct (Z.ltb_spec (completed - started) (-9223372036854775808)); [lia|].
      destruct (Z.ltb_spec 9223372036854775807 (completed - started)); [|lia].
      reflexivity.
    + intros Hsmall. unfold Sub, minInt64, maxInt64 in *.
      destruct (Z.ltb_spec (completed - started) (-9223372036854775808)); [|lia].
      reflexivity.
    + reflexivity.
    + intros Hle. split; [apply Milliseconds_nonneg, Sub_nonneg, Hle|].
      pose proof (Sub_nonneg completed started Hle) as Hpos.
      assert (Hsub : Sub completed started <= completed - started).
      { unfold Sub, minInt64, maxInt64.
        destruct (Z.ltb_spec (completed - started) (-9223372036854775808)); [lia|].
        destruct (Z.ltb_spec 9223372036854775807 (completed - started)); lia. }
      unfold Milliseconds, Millisecond.
      pose proof (Z.quot_rem' (Sub completed started) 1000000) as Hqr.
      pose proof (Z.rem_bound_pos (Sub completed started) 1000000 Hpos ltac:(lia)).
      lia.
Qed.

Lemma Duration_frozen_at_completion_witness :
  Duration pending_task 77 = 0
  /\ Duration completed_task 77 = 2
  /\ Duration completed_task 99 = Duration completed_task 77
  /\ 0 <= Duration completed_task 77
  /\ Duration long_task 77 = 9223372036854.
Proof.
  destruct (Duration_frozen_at_completion pending_task 77) as [H0 _].
  destruct (Duration_frozen_at_completion completed_task 77) as [_ H1].
  destruct (Duration_frozen_at_completion long_task 77) as [_ H5].
  destruct (H1 1000000 3500000 eq_refl eq_refl) as (_ & H2 & _ & _ & H3 & H4).
  destruct (H5 0 9223372036855775807 eq_refl eq_refl) as (_ & _ & H6 & _).
  split; [exact (H0 eq_refl)|].
  split; [rewrite H2; [reflexivity|unfold is_int64, minInt64, maxInt64; lia]|].
  split; [exact (H3 99)|].
  split; [apply H4; lia|].
  apply H6. unfold maxInt64. lia.
Defined.

(** C5, as stated, fails.  Duration is not the exact difference in
    milliseconds: a task processed for 2.5ms has Duration 2; and a task
    whose instants are 9223372036855.775807 milliseconds apart has
    Duration 9223372036854, the milliseconds of the longest
    time.Duration, at which Sub saturates. *)
Lemma Duration_not_exact_difference :
  (StartedAt completed_task = Some 1000000
   /\ CompletedAt completed_task = Some 3500000
   /\ Duration completed_task 77 = 2
   /\ Duration completed_task 77 * 1000000 <> 3500000 - 1000000)
  /\ (StartedAt long_task = Some 0
      /\ CompletedAt long_task = Some 9223372036855775807
      /\ Duration long_task 77 = 9223372036854
      /\ Z.quot (9223372036855775807 - 0) 1000000 = 9223372036855
      /\ Duration long_task 77 <> Z.quot (9223372036855775807 - 0) 1000000).
Proof. repeat split; vm_compute; discriminate. Qed.

(** While a task is being processed the reading does depend on the clock. *)
Lemma Duration_running (t : Task) (now started : Time) :
  StartedAt t = Some started -> CompletedAt t = None ->
  Duration t now = Milliseconds (Sub now started).
Proof. intros Hs Hc. unfold Duration. rewrite Hs, Hc. reflexivity. Qed.

End model_facts.

(** ** The in-memory store *)

Section repository_facts.
Import GoInt model repository.

Lemma getNextID_eq (r : InMemoryTaskRepository) :
  getNextID r
  = (strconv.FormatInt (nextID r),
     {| tasks := tasks r; nextID := wrap_int64 (nextID r + 1) |}).
Proof. reflexivity. Qed.

Lemma wrap_int64_small (z : Z) : is_int64 z -> wrap_int64 z = z.
Proof.
  unfold is_int64, minInt64, maxInt64, wrap_int64. intros H.
  rewrite Z.mod_small by lia. lia.
Qed.

Lemma wrap_int64_range (z : Z) : is_int64 (wrap_int64 z).
Proof.
  unfold is_int64, minInt64, maxInt64, wrap_int64.
  pose proof (Z.mod_pos_bound (z + 9223372036854775808) 18446744073709551616 ltac:(lia)).
  lia.
Qed.

(** The store's counter wraps around at the end of the int64 range: the
    creation after the one that assigns 9223372036854775807 assigns a
    negative id. *)
Lemma getNextID_wraps :
  assigned_ids
    (run_ops [OpCreate 1%positive; OpCreate 2%positive] three_tasks
             {| tasks := ∅; nextID := maxInt64 |}).1.1
  = ["9223372036854775807"%string; "-9223372036854775808"%string].
Proof. vm_compute. reflexivity. Qed.

Lemma CreateTask_eq (task : loc) (h : gmap loc Task) (r : InMemoryTaskRepository) :
  CreateTask task h r
  = (inl task,
     alter (set_ID (strconv.FormatInt (nextID r))) task h,
     {| tasks := <[ ID (alter (set_ID (strconv.FormatInt (nextID r))) task h !!! task)
                    := task ]> (tasks r);
        nextID := wrap_int64 (nextID r + 1) |}).
Proof. reflexivity. Qed.

(** C10: CreateTask of the store overwrites the id that the task carried,
    whatever it was (the one given by NewTask included), with the decimal
    form of the store's counter; it changes nothing else in the task or in
    the heap, stores the task under that id, changes no other entry of the
    store, and returns the same task. *)
Theorem CreateTask_overwrites_ID (task : loc) (h : gmap loc Task)
    (r : InMemoryTaskRepository) (t : Task) :
  h !! task = Some t ->
  exists h' r',
    CreateTask task h r = (inl task, h', r')
    /\ h' !! task = Some (set_ID (strconv.FormatInt (nextID r)) t)
    /\ (forall q, q <> task -> h' !! q = h !! q)
    /\ tasks r' !! strconv.FormatInt (nextID r) = Some task
    /\ (forall k, k <> strconv.FormatInt (nextID r) -> tasks r' !! k = tasks r !! k)
    /\ nextID r' = wrap_int64 (nextID r + 1).
Proof.
  intros Ht. rewrite CreateTask_eq. eexists _, _. split; [reflexivity|].
  assert (Hh : alter (set_ID (strconv.FormatInt (nextID r))) task h !! task
               = Some (set_ID (strconv.FormatInt (nextID r)) t)).
  { rewrite lookup_alter_eq, Ht. reflexivity. }
  rewrite (lookup_total_correct _ _ _ Hh). cbn [tasks repository.nextID set_ID ID].
  split; [exact Hh|].
  split; [intros q Hq; apply lookup_alter_ne; congruence|].
  split; [apply lookup_insert_eq|].
  split; [intros k Hk; apply lookup_insert_ne; congruence|reflexivity].
Qed.

Lemma CreateTask_overwrites_ID_witness :
  exists h' r',
    CreateTask 1%positive {[ 1%positive := task_from_NewTask ]}
               {| tasks := ∅; nextID := 1 |}
    = (inl 1%positive, h', r')
    /\ h' !! 1%positive = Some (set_ID "1" task_from_NewTask)
    /\ tasks r' !! "1"%string = Some 1%positive.
Proof.
  destruct (CreateTask_overwrites_ID 1%positive {[ 1%positive := task_from_NewTask ]}
              {| tasks := ∅; nextID := 1 |} task_from_NewTask)
    as (h' & r' & H1 & H2 & _ & H4 & _).
  - reflexivity.
  - exists h', r'. split; [exact H1|]. split; [exact H2|exact H4].
Defined.

(** C6: UpdateTask on an id that the store holds stores the given task
    under that id, leaves every other entry and the counter alone and
    returns the task; on an id that the store does not hold it returns
    ErrTaskNotFound and the store is unchanged.  In both cases the set of
    stored ids is the same afterwards: nothing is inserted. *)
Theorem UpdateTask_replaces_or_NotFound (task : loc) (h : gmap loc Task)
    (r : InMemoryTaskRepository) :
  (is_Some (tasks r !! ID (h !!! task)) ->
     (UpdateTask task h r).1 = inl task
     /\ tasks (UpdateTask task h r).2 !! ID (h !!! task) = Some task
     /\ (forall k, k <> ID (h !!! task) ->
           tasks (UpdateTask task h r).2 !! k = tasks r !! k)
     /\ nextID (UpdateTask task h r).2 = nextID r)
  /\ (tasks r !! ID (h !!! task) = None ->
        UpdateTask task h r = (inr ErrTaskNotFound, r))
  /\ dom (tasks (UpdateTask task h r).2) = dom (tasks r).
Proof.
  unfold UpdateTask.
  destruct (tasks r !! ID (h !!! task)) as [old|] eqn:Hl; cbn.
  - split; [|split].
    + intros _. split; [reflexivity|].
      split; [apply lookup_insert_eq|].
      split; [intros k Hk; apply lookup_insert_ne; congruence|reflexivity].
    + intros Hnone. congruence.
    + rewrite dom_insert_L. apply elem_of_dom_2 in Hl.
      apply subseteq_union_1_L, singleton_subseteq_l, Hl.
  - split; [|split].
    + intros [x Hx]. discriminate.
    + reflexivity.
    + reflexivity.
Qed.

Lemma UpdateTask_replaces_or_NotFound_witness :
  (UpdateTask 1%positive {[ 1%positive := completed_task ]}
              {| tasks := {[ "1"%string := 1%positive ]}; nextID := 2 |}).1
  = inl 1%positive
  /\ UpdateTask 1%positive {[ 1%positive := completed_task ]}
                {| tasks := ∅; nextID := 2 |}
     = (inr ErrTaskNotFound, {| tasks := ∅; nextID := 2 |}).
Proof.
  split.
  - apply (UpdateTask_replaces_or_NotFound 1%positive {[ 1%positive := completed_task ]}
             {| tasks := {[ "1"%string := 1%positive ]}; nextID := 2 |}).
    exists 1%positive. reflexivity.
  - apply (UpdateTask_replaces_or_NotFound 1%positive {[ 1%positive := completed_task ]}
             {| tasks := ∅; nextID := 2 |}).
    reflexivity.
Defined.

Lemma DeleteTask_present (id : string) (r : InMemoryTaskRepository) (task : loc) :
  tasks r !! id = Some task ->
  DeleteTask id r = (None, {| tasks := delete id (tasks r); nextID := nextID r |}).
Proof. intros H. unfold DeleteTask. rewrite H. reflexivity. Qed.

Lemma DeleteTask_absent (id : string) (r : InMemoryTaskRepository) :
  tasks r !! id = None -> DeleteTask id r = (Some ErrTaskNotFound, r).
Proof. intros H. unfold DeleteTask. rewrite H. reflexivity. Qed.

Lemma DeleteTask_nextID (id : string) (r : InMemoryTaskRepository) :
  nextID (DeleteTask id r).2 = nextID r.
Proof. unfold DeleteTask. destruct (tasks r !! id); reflexivity. Qed.

Lemma DeleteTask_ok_inv (id : string) (r r' : InMemoryTaskRepository) :
  DeleteTask id r = (None, r') ->
  r' = {| tasks := delete id (tasks r); nextID := nextID r |}.
Proof.
  unfold DeleteTask. destruct (tasks r !! id); congruence.
Qed.

End repository_facts.

(** ** Ids assigned by the store *)

Section id_facts.
Import GoInt model repository.

Lemma count_creates_nonneg (ops : list StoreOp) : 0 <= count_creates ops.
Proof. induction ops as [|[task|id] ops IH]; cbn [count_creates]; lia. Qed.

Lemma count_creates_length (ops : list StoreOp) :
  count_creates ops = Z.of_nat (length (created_tasks ops)).
Proof.
  induction ops as [|[task|id] ops IH];
    cbn [count_creates created_tasks length]; lia.
Qed.

(** The counter goes round the int64 range. *)
Lemma wrap_int64_add_wrap (a j : Z) :
  wrap_int64 (wrap_int64 a + j) = wrap_int64 (a + j).
Proof.
  unfold wrap_int64.
  replace ((a + 9223372036854775808) mod 18446744073709551616
           - 9223372036854775808 + j + 9223372036854775808)
    with ((a + 9223372036854775808) mod 18446744073709551616 + j) by lia.
  rewrite Zplus_mod_idemp_l. f_equal. f_equal. lia.
Qed.

Lemma wrap_int64_inj (x y : Z) :
  -18446744073709551616 < x - y < 18446744073709551616 ->
  wrap_int64 x = wrap_int64 y -> x = y.
Proof.
  unfold wrap_int64. intros Hxy H.
  pose proof (Z.div_mod (x + 9223372036854775808) 18446744073709551616 ltac:(lia)).
  pose proof (Z.div_mod (y + 9223372036854775808) 18446744073709551616 ltac:(lia)).
  lia.
Qed.

(** CreateTask and DeleteTask allocate and free nothing. *)
Lemma all_allocated_alter (f : Task -> Task) (k : loc) (ops : list StoreOp)
    (h : gmap loc Task) :
  all_allocated ops (alter f k h) = all_allocated ops h.
Proof.
  induction ops as [|[task|id] ops IH]; cbn [all_allocated]; [reflexivity| |exact IH].
  rewrite IH. f_equal. apply bool_decide_ext.
  rewrite <- !not_eq_None_Some, lookup_alter_None. reflexivity.
Qed.

Lemma all_allocated_repeat (task : loc) (n : nat) (h : gmap loc Task) :
  is_Some (h !! task) -> all_allocated (repeat (OpCreate task) n) h = true.
Proof.
  intros Ht. induction n as [|n IH]; cbn [repeat all_allocated]; [reflexivity|].
  rewrite IH, bool_decide_eq_true_2 by exact Ht. reflexivity.
Qed.

Lemma count_creates_repeat (task : loc) (n : nat) :
  count_creates (repeat (OpCreate task) n) = Z.of_nat n.
Proof. induction n as [|n IH]; cbn [repeat count_creates]; lia. Qed.

(** What a run assigns.  Each creation returns the task it was given; the
    id read from that task is the decimal form of the counter, which
    starts at [nextID r] and goes up by one (round the int64 range) with
    each creation and with nothing else; and the store holds the task
    under that id. *)
Lemma run_ops_trace (ops : list StoreOp) :
  forall (h : gmap loc Task) (r : InMemoryTaskRepository),
    all_allocated ops h = true -> is_int64 (nextID r) ->
    assigned_task <$> (run_ops ops h r).1.1 = created_tasks ops
    /\ Forall (fun a => assigned_entry a = Some (assigned_task a))
              (run_ops ops h r).1.1
    /\ assigned_ids (run_ops ops h r).1.1
       = (fun k => strconv.FormatInt (wrap_int64 (nextID r + k)))
           <$> seqZ 0 (count_creates ops).
Proof.
  induction ops as [|[task|id] ops IH]; intros h r Ha Hr.
  - repeat split. constructor.
  - cbn [all_allocated] in Ha. apply andb_true_iff in Ha as [Ht Ha].
    apply bool_decide_eq_true in Ht. destruct Ht as [t Ht].
    cbn [run_ops created_tasks count_creates]. rewrite CreateTask_eq.
    assert (Hh : alter (set_ID (strconv.FormatInt (nextID r))) task h !! task
                 = Some (set_ID (strconv.FormatInt (nextID r)) t)).
    { rewrite lookup_alter_eq, Ht. reflexivity. }
    rewrite (lookup_total_correct _ _ _ Hh). cbn [ID set_ID].
    pose proof (count_creates_nonneg ops) as Hc.
    match goal with
    | |- context [run_ops ops ?h1 ?r1] =>
        specialize (IH h1 r1); destruct (run_ops ops h1 r1) as [[trace h2] r2]
    end.
    cbn [fst snd repository.nextID repository.tasks] in *.
    rewrite all_allocated_alter in IH.
    destruct (IH Ha (wrap_int64_range _)) as (IH1 & IH2 & IH3).
    unfold assigned_ids in *.
    cbn [fmap list_fmap assigned_task assigned_ID assigned_entry].
    split; [f_equal; exact IH1|]. split.
    + constructor; [|exact IH2]. cbn [assigned_entry assigned_task].
      apply lookup_insert_eq.
    + rewrite seqZ_cons by lia. cbn [fmap list_fmap].
      rewrite Z.add_0_r, wrap_int64_small by exact Hr. f_equal.
      replace (Z.pred (1 + count_creates ops)) with (count_creates ops) by lia.
      change (list_fmap Assigned string assigned_ID trace)
        with (assigned_ID <$> trace).
      rewrite IH3.
      change (Z.succ 0) with (1 + 0). rewrite <- fmap_add_seqZ.
      rewrite <- list_fmap_compose. apply list_fmap_ext. intros i k _. cbn.
      rewrite wrap_int64_add_wrap. do 2 f_equal. lia.
  - cbn [all_allocated] in Ha. cbn [run_ops created_tasks count_creates].
    pose proof (DeleteTask_nextID id r) as Hn.
    destruct (DeleteTask id r) as [e r1]. cbn [snd] in Hn.
    rewrite <- Hn in *. apply IH; assumption.
Qed.

Lemma seqZ_lookup_lt (m n : Z) (i j : nat) (a b : Z) :
  (i < j)%nat -> seqZ m n !! i = Some a -> seqZ m n !! j = Some b -> a < b.
Proof.
  intros Hij Ha Hb.
  apply lookup_seqZ in Ha as [-> _]. apply lookup_seqZ in Hb as [-> _]. lia.
Qed.

(** C2, as amended: in every sequence of CreateTask and DeleteTask on a
    new store, each CreateTask returns the task it was given, with an id
    under which the store then holds that task.  While the sequence has at
    most 2^64 creations (one round of the store's int64 counter) no id is
    assigned twice, whatever was deleted in between; while it has at most
    2^63 - 1 creations (the positive int64 values) every assigned id is
    numerically greater than every id assigned before it. *)
Theorem ids_increase_and_are_never_reused (ops : list StoreOp) (h : gmap loc Task) :
  all_allocated ops h = true ->
  count_creates ops <= maxUint64 + 1 ->
  assigned_task <$> (run_ops ops h NewTaskRepository).1.1 = created_tasks ops
  /\ Forall (fun a => assigned_entry a = Some (assigned_task a))
            (run_ops ops h NewTaskRepository).1.1
  /\ NoDup (assigned_ids (run_ops ops h NewTaskRepository).1.1)
  /\ (count_creates ops <= maxInt64 ->
      numerically_increasing (assigned_ids (run_ops ops h NewTaskRepository).1.1)).
Proof.
  intros Ha Hk.
  destruct (run_ops_trace ops h NewTaskRepository Ha) as (H1 & H2 & H3).
  { cbn [nextID NewTaskRepository]. unfold is_int64, minInt64, maxInt64. lia. }
  split; [exact H1|]. split; [exact H2|].
  rewrite H3. cbn [nextID NewTaskRepository]. split.
  - apply NoDup_fmap_2_strong; [|apply NoDup_seqZ].
    intros x y Hx Hy Heq. apply elem_of_seqZ in Hx, Hy.
    apply FormatInt_inj in Heq; [|apply wrap_int64_range..].
    apply wrap_int64_inj in Heq; [lia|]. unfold maxUint64 in Hk. lia.
  - intros Hmax i j a b Hij Hi Hj.
    rewrite list_lookup_fmap in Hi, Hj.
    destruct (seqZ 0 (count_creates ops) !! i) as [ki|] eqn:Hki; [|discriminate].
    destruct (seqZ 0 (count_creates ops) !! j) as [kj|] eqn:Hkj; [|discriminate].
    cbn in Hi, Hj. inversion Hi. inversion Hj. subst a b.
    pose proof (seqZ_lookup_lt _ _ _ _ _ _ Hij Hki Hkj) as Hlt.
    apply lookup_seqZ in Hki as [-> Hilt]. apply lookup_seqZ in Hkj as [-> Hjlt].
    assert (Hfit : forall k : nat, Z.of_nat k < count_creates ops ->
                                   is_int64 (1 + (0 + Z.of_nat k))).
    { intros k Hk'. unfold is_int64, minInt64, maxInt64 in *. lia. }
    rewrite !wrap_int64_small by auto.
    exists (1 + (0 + Z.of_nat i)), (1 + (0 + Z.of_nat j)).
    split; [apply ParseInt_FormatInt; auto|].
    split; [apply ParseInt_FormatInt; auto|]. lia.
Qed.

Lemma ids_increase_and_are_never_reused_witness :
  assigned_task <$> (run_ops create_delete_create three_tasks NewTaskRepository).1.1
  = [1%positive; 2%positive; 3%positive]
  /\ Forall (fun a => assigned_entry a = Some (assigned_task a))
            (run_ops create_delete_create three_tasks NewTaskRepository).1.1
  /\ NoDup (assigned_ids
              (run_ops create_delete_create three_tasks NewTaskRepository).1.1)
  /\ numerically_increasing
       (assigned_ids (run_ops create_delete_create three_tasks NewTaskRepository).1.1).
Proof.
  destruct (ids_increase_and_are_never_reused create_delete_create three_tasks)
    as (H1 & H2 & H3 & H4).
  - vm_compute. reflexivity.
  - cbn. unfold maxUint64. lia.
  - split; [exact H1|]. split; [exact H2|]. split; [exact H3|].
    apply H4. cbn. unfold maxInt64. lia.
Defined.

(** The ids of [n] creations of one task object and one more. *)
Lemma repeated_creation_ids (n : nat) (h : gmap loc Task) :
  is_Some (h !! 1%positive) ->
  assigned_ids
    (run_ops (repeat (OpCreate 1%positive) n ++ [OpCreate 1%positive])
             h NewTaskRepository).1.1
  = (fun k => strconv.FormatInt (wrap_int64 (1 + k))) <$> seqZ 0 (Z.of_nat n + 1).
Proof.
  intros Hh. rewrite <- repeat_cons.
  change (OpCreate 1%positive :: repeat (OpCreate 1%positive) n)
    with (repeat (OpCreate 1%positive) (S n)).
  destruct (run_ops_trace (repeat (OpCreate 1%positive) (S n)) h NewTaskRepository)
    as (_ & _ & H3).
  - apply all_allocated_repeat, Hh.
  - cbn [nextID NewTaskRepository]. unfold is_int64, minInt64, maxInt64. lia.
  - rewrite H3, count_creates_repeat. cbn [nextID NewTaskRepository].
    do 2 f_equal. lia.
Qed.

(** Once the creations have used up the positive int64 values, one more
    creation breaks the order of the ids. *)
Lemma ids_wrap_general (n : nat) (h : gmap loc Task) :
  is_Some (h !! 1%positive) -> Z.of_nat n = maxInt64 ->
  ~ numerically_increasing
      (assigned_ids
         (run_ops (repeat (OpCreate 1%positive) n ++ [OpCreate 1%positive])
                  h NewTaskRepository).1.1).
Proof.
  unfold maxInt64. intros Hh Hn Hinc.
  rewrite (repeated_creation_ids n h Hh), Hn in Hinc.
  destruct (Hinc 0%nat n "1"%string "-9223372036854775808"%string)
    as (na & nb & Ha & Hb & Hlt).
  - lia.
  - rewrite list_lookup_fmap, lookup_seqZ_lt by lia. reflexivity.
  - rewrite list_lookup_fmap, lookup_seqZ_lt by lia. cbn [fmap option_fmap option_map].
    rewrite Hn. reflexivity.
  - assert (na = 1) by (vm_compute in Ha; congruence).
    assert (nb = -9223372036854775808) by (vm_compute in Hb; congruence).
    lia.
Qed.

(** C2, as stated, fails after 2^63 - 1 creations (here, of one task
    object that is stored again and again): the next creation gets the id
    -9223372036854775808, which is not greater than the first id, 1. *)
Lemma ids_wrap_after_int64_range :
  ~ numerically_increasing
      (assigned_ids
         (run_ops (repeat (OpCreate 1%positive) (Z.to_nat 9223372036854775807)
                   ++ [OpCreate 1%positive])
                  three_tasks NewTaskRepository).1.1).
Proof.
  apply ids_wrap_general; [vm_compute; eauto|]. apply Z2Nat.id. discriminate.
Qed.

(** After one full round of the counter, 2^64 creations, the next creation
    assigns the first id, 1, again: the bound on the creations in the
    uniqueness of the ids cannot be raised. *)
Lemma ids_reused_general (n : nat) (h : gmap loc Task) :
  is_Some (h !! 1%positive) -> Z.of_nat n = maxUint64 + 1 ->
  ~ NoDup
      (assigned_ids
         (run_ops (repeat (OpCreate 1%positive) n ++ [OpCreate 1%positive])
                  h NewTaskRepository).1.1).
Proof.
  unfold maxUint64. intros Hh Hn Hnd.
  rewrite (repeated_creation_ids n h Hh), Hn in Hnd.
  assert (0%nat = n); [|lia].
  apply (proj1 (NoDup_alt _) Hnd 0%nat n "1"%string).
  - rewrite list_lookup_fmap, lookup_seqZ_lt by lia. reflexivity.
  - rewrite list_lookup_fmap, lookup_seqZ_lt by lia. cbn [fmap option_fmap option_map].
    rewrite Hn. reflexivity.
Qed.

Lemma id_reused_after_uint64_range :
  ~ NoDup
      (assigned_ids
         (run_ops (repeat (OpCreate 1%positive) (Z.to_nat 18446744073709551616)
                   ++ [OpCreate 1%positive])
                  three_tasks NewTaskRepository).1.1).
Proof.
  apply ids_reused_general; [vm_compute; eauto|]. apply Z2Nat.id. discriminate.
Qed.

(** The ids of that run: the id of the deleted task is not given again. *)
Example create_delete_create_ids :
  assigned_ids (run_ops create_delete_create three_tasks NewTaskRepository).1.1
  = ["1"%string; "2"%string; "3"%string].
Proof. vm_compute. reflexivity. Qed.

End id_facts.

(** ** The service: validation of ids, deletion *)

Section service_facts.
Import GoInt model service.

Lemma GetTask_invalid (id : string) (w : World) :
  (strconv.ParseInt id).2 <> None -> GetTask id w = (inr ErrInvalidTaskID, w).
Proof.
  unfold GetTask. destruct (strconv.ParseInt id) as [n [e|]]; cbn; congruence.
Qed.

Lemma DeleteTask_invalid (id : string) (w : World) :
  (strconv.ParseInt id).2 <> None -> DeleteTask id w = (Some ErrInvalidTaskID, w).
Proof.
  unfold DeleteTask. destruct (strconv.ParseInt id) as [n [e|]]; cbn; congruence.
Qed.

(** When the id is numeric the answer of GetTask is the answer of the
    store. *)
Lemma GetTask_numeric (id : string) (w : World) :
  numeric_id id ->
  (GetTask id w).1
  = match repository.GetTask id (repo w) with
    | inl task => inl task
    | inr err => inr (errors_Wrap err "get task")
    end.
Proof.
  intros Hn. apply ParseInt_numeric in Hn. unfold GetTask.
  destruct (strconv.ParseInt id) as [n [e|]]; cbn in Hn; [discriminate|].
  destruct (repository.GetTask id (repo w)); reflexivity.
Qed.

(** C3: for an id that is not numeric (an optional sign and decimal digits
    with an int64 value), GetTask and DeleteTask of the service return
    ErrInvalidTaskID, which is not ErrTaskNotFound, whatever the store
    holds; the process, the store included, is left as it was. *)
Theorem non_numeric_id_is_InvalidID (id : string) (w : World) :
  ~ numeric_id id ->
  GetTask id w = (inr ErrInvalidTaskID, w)
  /\ DeleteTask id w = (Some ErrInvalidTaskID, w)
  /\ errors_Is ErrInvalidTaskID ErrTaskNotFound = false.
Proof.
  intros Hn. apply ParseInt_error_iff in Hn.
  split; [apply GetTask_invalid, Hn|].
  split; [apply DeleteTask_invalid, Hn|reflexivity].
Qed.

Lemma non_numeric_id_is_InvalidID_witness :
  GetTask "12a" stored_world = (inr ErrInvalidTaskID, stored_world)
  /\ DeleteTask "12a" stored_world = (Some ErrInvalidTaskID, stored_world)
  /\ errors_Is ErrInvalidTaskID ErrTaskNotFound = false.
Proof.
  apply (non_numeric_id_is_InvalidID "12a" stored_world).
  apply ParseInt_error_iff. vm_compute. discriminate.
Defined.

(** C7: when DeleteTask of the store returns no error, GetTask of the same
    id on the resulting store returns ErrTaskNotFound and the id is no
    longer a key of the store; the same holds through the service, whose
    GetTask then returns an error that wraps ErrTaskNotFound. *)
Theorem Delete_then_Get_is_NotFound (id : string) :
  (forall r r' : repository.InMemoryTaskRepository,
      repository.DeleteTask id r = (None, r') ->
      repository.GetTask id r' = inr ErrTaskNotFound
      /\ id ∉ dom (repository.tasks r'))
  /\ (forall w w' : World,
        DeleteTask id w = (None, w') ->
        (GetTask id w').1 = inr (errors_Wrap ErrTaskNotFound "get task")
        /\ errors_Is (errors_Wrap ErrTaskNotFound "get task") ErrTaskNotFound = true).
Proof.
  assert (Hrepo : forall r r' : repository.InMemoryTaskRepository,
             repository.DeleteTask id r = (None, r') ->
             repository.tasks r' !! id = None).
  { intros r r' H. apply DeleteTask_ok_inv in H. subst r'. cbn.
    apply lookup_delete_eq. }
  split.
  - intros r r' H. apply Hrepo in H. split.
    + unfold repository.GetTask. rewrite H. reflexivity.
    + apply not_elem_of_dom, H.
  - intros w w' H. split; [|reflexivity].
    unfold DeleteTask in H. unfold GetTask.
    destruct (strconv.ParseInt id) as [n [e|]]; [congruence|].
    destruct (repository.DeleteTask id (repo w)) as [[e|] r'] eqn:Hd; [congruence|].
    inversion H. subst w'. cbn [repo log set_repo].
    apply Hrepo in Hd. unfold repository.GetTask. rewrite Hd. reflexivity.
Qed.

Lemma Delete_then_Get_is_NotFound_witness :
  repository.GetTask "1" (repository.DeleteTask "1" (repo stored_world)).2
  = inr ErrTaskNotFound
  /\ (GetTask "1" (DeleteTask "1" stored_world).2).1
     = inr (errors_Wrap ErrTaskNotFound "get task").
Proof.
  destruct (Delete_then_Get_is_NotFound "1") as [Hr Hs]. split.
  - apply (Hr (repo stored_world)). reflexivity.
  - apply (Hs stored_world). reflexivity.
Defined.

(** *** CreateTask of the service *)

Lemma new_loc_fresh (h : gmap loc Task) : h !! new_loc h = None.
Proof. apply not_elem_of_dom. unfold new_loc. apply is_fresh. Qed.

Lemma alter_insert_lookup_total (f : Task -> Task) (p : loc) (x : Task)
    (h : gmap loc Task) :
  alter f p (<[p := x]> h) !!! p = f x.
Proof.
  apply lookup_total_correct. rewrite lookup_alter_eq, lookup_insert_eq. reflexivity.
Qed.

(** The world after the task has been built, stored and logged, before the
    select. *)
Lemma CreateTask_eq_enqueue (ctx : Context) (req : CreateTaskRequest)
    (pick : SelectCase) (w : World) :
  CreateTask ctx req pick w
  = enqueue ctx pick (new_loc (heap w)) (created (req_Title req) (req_Description req) w).
Proof.
  unfold CreateTask, created, alloc_NewTask, repo_CreateTask.
  cbn [NewTask generateTaskID heap repo set_heap set_taskCounter].
  rewrite CreateTask_eq. reflexivity.
Qed.

Lemma created_heap (title description : string) (w : World) :
  heap (created title description w)
  = <[ new_loc (heap w) :=
         mkTask (strconv.FormatInt (repository.nextID (repo w))) title description
                StatusPending (clock w) None None "" "" "" ]> (heap w).
Proof.
  unfold created, alloc_NewTask, repo_CreateTask.
  cbn [NewTask generateTaskID heap repo set_heap set_taskCounter].
  rewrite CreateTask_eq. cbn [heap log set_repo set_heap].
  apply map_eq. intros q. destruct (decide (q = new_loc (heap w))) as [->|Hq].
  - rewrite lookup_alter_eq, !lookup_insert_eq. reflexivity.
  - rewrite lookup_alter_ne, !lookup_insert_ne by congruence. reflexivity.
Qed.

Lemma created_repo (title description : string) (w : World) :
  repo (created title description w)
  = {| repository.tasks :=
         <[ strconv.FormatInt (repository.nextID (repo w)) := new_loc (heap w) ]>
           (repository.tasks (repo w));
       repository.nextID := wrap_int64 (repository.nextID (repo w) + 1) |}.
Proof.
  unfold created, alloc_NewTask, repo_CreateTask.
  cbn [NewTask generateTaskID heap repo set_heap set_taskCounter].
  rewrite CreateTask_eq. cbn [repo log set_repo set_heap].
  f_equal. rewrite alter_insert_lookup_total. reflexivity.
Qed.

Lemma created_queue (title description : string) (w : World) :
  taskQueue (created title description w) = taskQueue w
  /\ ctxDone (created title description w) = ctxDone w
  /\ shutdownClosed (created title description w) = shutdownClosed w.
Proof.
  unfold created, alloc_NewTask, repo_CreateTask.
  cbn [NewTask generateTaskID heap repo set_heap set_taskCounter].
  rewrite CreateTask_eq. repeat split.
Qed.

End service_facts.

(** ** The worker loop *)

Section worker_facts.
Import GoInt model service worker.

(** *** What the two processing steps do to the world *)

Lemma repo_UpdateTask_fields (task : loc) (w : World) :
  heap (repo_UpdateTask task w).2 = heap w
  /\ taskQueue (repo_UpdateTask task w).2 = taskQueue w
  /\ ctxDone (repo_UpdateTask task w).2 = ctxDone w
  /\ shutdownClosed (repo_UpdateTask task w).2 = shutdownClosed w
  /\ clock (repo_UpdateTask task w).2 = clock w
  /\ processingDelay (repo_UpdateTask task w).2 = processingDelay w
  /\ repo (repo_UpdateTask task w).2
     = (repository.UpdateTask task (heap w) (repo w)).2
  /\ (repo_UpdateTask task w).1 = (repository.UpdateTask task (heap w) (repo w)).1.
Proof.
  unfold repo_UpdateTask.
  destruct (repository.UpdateTask task (heap w) (repo w)) as [res r].
  repeat split.
Qed.

Lemma begin_processing_fields (task : loc) (w : World) :
  heap (begin_processing task w).2
  = alter (UpdateStatus StatusProcessing (clock w)) task (heap w)
  /\ taskQueue (begin_processing task w).2 = taskQueue w
  /\ ctxDone (begin_processing task w).2 = ctxDone w
  /\ shutdownClosed (begin_processing task w).2 = shutdownClosed w
  /\ ((begin_processing task w).1 = AtLoopHead
      \/ (begin_processing task w).1 = AtDelay task (clock w + processingDelay w)).
Proof.
  unfold begin_processing.
  match goal with
  | |- context [repo_UpdateTask task ?w1] =>
      pose proof (repo_UpdateTask_fields task w1) as (Hh & Hq & Hc & Hs & Hk & Hd & _);
      destruct (repo_UpdateTask task w1) as [[ok|err] w2]
  end; cbn [fst snd] in *; cbn [heap taskQueue ctxDone shutdownClosed clock
                                 processingDelay log log_Error set_heap] in *;
    rewrite ?Hh, ?Hq, ?Hc, ?Hs, ?Hk, ?Hd; repeat split; auto.
Qed.

Lemma complete_task_fields (task : loc) (w : World) :
  heap (complete_task task w).2
  = alter (set_Result "Task completed successfully") task
      (alter (UpdateStatus StatusCompleted (clock w)) task (heap w))
  /\ taskQueue (complete_task task w).2 = taskQueue w
  /\ ctxDone (complete_task task w).2 = ctxDone w
  /\ shutdownClosed (complete_task task w).2 = shutdownClosed w
  /\ (complete_task task w).1 = AtLoopHead.
Proof.
  unfold complete_task.
  match goal with
  | |- context [repo_UpdateTask task ?w1] =>
      pose proof (repo_UpdateTask_fields task w1) as (Hh & Hq & Hc & Hs & Hk & Hd & _);
      destruct (repo_UpdateTask task w1) as [[ok|err] w2]
  end; cbn [fst snd] in *; cbn [heap taskQueue ctxDone shutdownClosed clock
                                 processingDelay log log_Error set_heap] in *;
    rewrite ?Hh, ?Hq, ?Hc, ?Hs, ?Hk, ?Hd; repeat split; auto.
Qed.

(** *** Allocated tasks stay allocated, started tasks stay started *)

Lemma heap_le_refl (h : gmap loc Task) : heap_le h h.
Proof. intros p t H. eauto. Qed.

Lemma heap_le_trans (h1 h2 h3 : gmap loc Task) :
  heap_le h1 h2 -> heap_le h2 h3 -> heap_le h1 h3.
Proof.
  intros H12 H23 p t H. destruct (H12 p t H) as (t2 & H2 & Hs2).
  destruct (H23 p t2 H2) as (t3 & H3 & Hs3). eauto.
Qed.

Lemma heap_le_alter (f : Task -> Task) (q : loc) (h : gmap loc Task) :
  (forall t, is_Some (StartedAt t) -> is_Some (StartedAt (f t))) ->
  heap_le h (alter f q h).
Proof.
  intros Hf p t H. destruct (decide (p = q)) as [->|Hne].
  - exists (f t). rewrite lookup_alter_eq, H. auto.
  - exists t. rewrite lookup_alter_ne by congruence. auto.
Qed.

Lemma heap_le_insert_new (q : loc) (x : Task) (h : gmap loc Task) :
  h !! q = None -> heap_le h (<[q := x]> h).
Proof.
  intros Hq p t H. exists t. rewrite lookup_insert_ne by congruence. auto.
Qed.

Lemma UpdateStatus_keeps_started (st : TaskStatus) (now : GoTime.Time) (t : Task) :
  is_Some (StartedAt t) -> is_Some (StartedAt (UpdateStatus st now t)).
Proof.
  intros [s Hs]. destruct t as [? ? ? ? ? sa ? ? ? ?]. cbn in Hs. subst sa.
  destruct st; cbv; eauto.
Qed.

Lemma created_heap_le (title description : string) (w : World) :
  heap_le (heap w) (heap (created title description w)).
Proof.
  rewrite created_heap. apply heap_le_insert_new, new_loc_fresh.
Qed.

Lemma enqueue_heap (ctx : Context) (pick : SelectCase) (task : loc) (w : World) :
  heap (enqueue ctx pick task w).2 = heap w
  /\ repo (enqueue ctx pick task w).2 = repo w
  /\ ctxDone (enqueue ctx pick task w).2 = ctxDone w
  /\ shutdownClosed (enqueue ctx pick task w).2 = shutdownClosed w.
Proof.
  unfold enqueue.
  destruct (send_ready (taskQueue w)), ctx as [cerr|]; try destruct pick; repeat split.
Qed.

(** The queue after the select of CreateTask holds what it held, and the
    new task unless the caller's cancellation was taken. *)
Lemma enqueue_queue (ctx : Context) (pick : SelectCase) (task : loc) (w : World) :
  forall p,
    p ∈ buf (taskQueue (enqueue ctx pick task w).2)
        ++ sendq (taskQueue (enqueue ctx pick task w).2) ->
    p = task \/ p ∈ buf (taskQueue w) ++ sendq (taskQueue w).
Proof.
  intros p. unfold enqueue.
  destruct (send_ready (taskQueue w)), ctx as [cerr|]; try destruct pick;
    cbn [snd taskQueue log set_taskQueue chan_send chan_park buf sendq];
    rewrite ?elem_of_app, ?list_elem_of_singleton; tauto.
Qed.

Lemma chan_recv_elems (q q' : Chan) (x : loc) :
  chan_recv q = Some (x, q') ->
  x ∈ buf q /\ forall p, p ∈ buf q' ++ sendq q' -> p ∈ buf q ++ sendq q.
Proof.
  unfold chan_recv. destruct (buf q) as [|y rest] eqn:Hb; [discriminate|].
  destruct (sendq q) as [|z parked] eqn:Hs; intros H; inversion H; subst; cbn.
  - split; [apply list_elem_of_here|].
    intros p. rewrite ?elem_of_cons, ?elem_of_app. tauto.
  - split; [apply list_elem_of_here|].
    intros p. rewrite ?elem_of_cons, ?elem_of_app, ?elem_of_cons, ?elem_of_nil.
    tauto.
Qed.

(** *** One step of a worker *)

Lemma begin_processing_started (task : loc) (w : World) (t : Task) :
  heap w !! task = Some t ->
  exists t', heap (begin_processing task w).2 !! task = Some t'
             /\ StartedAt t' = Some (clock w) /\ Status t' = StatusProcessing
             /\ ID t' = ID t.
Proof.
  intros Ht. destruct (begin_processing_fields task w) as (Hh & _).
  rewrite Hh, lookup_alter_eq, Ht. eexists. split; [reflexivity|].
  destruct (UpdateStatus_Processing_fields t (clock w)) as (H1 & H2 & _).
  rewrite UpdateStatus_ID. auto.
Qed.

(** A step of a worker extends the heap, adds nothing to the queue, and
    leaves the worker with the task it held or with one it took from the
    queue and marked as started; tasks that are neither queued nor held by
    this worker are not written. *)
Lemma worker_step_effect (workerID : Z) (pick : SelectCase) (pc pc' : WorkerPC)
    (w w' : World) :
  worker_step workerID pick pc w = Some (pc', w') ->
  heap_le (heap w) (heap w')
  /\ (forall p, queued w' p -> queued w p)
  /\ (forall p, held pc' = Some p ->
        held pc = Some p
        \/ (queued w p
            /\ (is_Some (heap w !! p) ->
                exists t', heap w' !! p = Some t' /\ is_Some (StartedAt t'))))
  /\ (forall p, held pc <> Some p -> ~ queued w p -> heap w' !! p = heap w !! p).
Proof.
  unfold queued.
  assert (Hsame : forall l msg fs,
             heap_le (heap w) (heap (log l msg fs w))
             /\ (forall p, p ∈ buf (taskQueue (log l msg fs w))
                               ++ sendq (taskQueue (log l msg fs w)) ->
                           p ∈ buf (taskQueue w) ++ sendq (taskQueue w))).
  { intros. split; [apply heap_le_refl|auto]. }
  destruct pc as [| | |task deadline|task|]; cbn [worker_step].
  - intros [= <- <-]. destruct (Hsame InfoLevel "Worker started"%string
                                  [zap_Int "worker_id" workerID]) as [H1 H2].
    repeat split; auto; discriminate.
  - destruct pick; try discriminate.
    + destruct (ctxDone w); [|discriminate]. intros [= <- <-].
      repeat split; auto using heap_le_refl; discriminate.
    + destruct (shutdownClosed w); [|discriminate]. intros [= <- <-].
      repeat split; auto using heap_le_refl; discriminate.
    + destruct (ctxDone w || shutdownClosed w); [discriminate|]. intros [= <- <-].
      repeat split; auto using heap_le_refl; discriminate.
  - destruct pick; try discriminate.
    + destruct (ctxDone w); [|discriminate]. intros [= <- <-].
      repeat split; auto using heap_le_refl; discriminate.
    + destruct (shutdownClosed w); [|discriminate]. intros [= <- <-].
      repeat split; auto using heap_le_refl; discriminate.
    + destruct (chan_recv (taskQueue w)) as [[task q']|] eqn:Hrecv; [|discriminate].
      intros H. inversion H as [Hbp]. clear H.
      destruct (chan_recv_elems _ _ _ Hrecv) as [Hin Hsub].
      destruct (begin_processing_fields task (set_taskQueue q' w))
        as (Hh & Hq & _ & _ & Hpc).
      cbn [heap taskQueue clock processingDelay set_taskQueue] in Hh, Hq, Hpc.
      rewrite Hbp in Hh, Hq, Hpc. cbn [fst snd] in Hh, Hq, Hpc.
      rewrite Hh, Hq. split; [|split; [|split]].
      * apply heap_le_alter. intros t. apply UpdateStatus_keeps_started.
      * exact Hsub.
      * intros p Hp. right.
        assert (p = task) as ->.
        { destruct Hpc as [-> | ->]; cbn in Hp; congruence. }
        split; [apply elem_of_app; auto|].
        intros [t Ht]. rewrite lookup_alter_eq, Ht. eexists. split; [reflexivity|].
        destruct (UpdateStatus_Processing_fields t (clock w)) as (-> & _).
        eauto.
      * intros p _ Hnq. apply lookup_alter_ne. intros ->.
        apply Hnq, elem_of_app. auto.
  - destruct pick; try discriminate.
    + destruct (ctxDone w); [|discriminate]. intros [= <- <-].
      repeat split; auto using heap_le_refl; discriminate.
    + destruct (shutdownClosed w); [|discriminate]. intros [= <- <-].
      repeat split; auto using heap_le_refl; discriminate.
    + destruct (deadline <=? clock w); [|discriminate]. intros [= <- <-].
      repeat split; auto using heap_le_refl.
  - intros H. inversion H as [Hct]. clear H.
    destruct (complete_task_fields task w) as (Hh & Hq & _ & _ & Hpc).
    rewrite Hct in Hh, Hq, Hpc. cbn [fst snd] in Hh, Hq, Hpc. subst pc'.
    rewrite Hh, Hq. split; [|split; [|split]].
    + eapply heap_le_trans; apply heap_le_alter.
      * intros t. apply UpdateStatus_keeps_started.
      * intros t Hs. destruct t. exact Hs.
    + auto.
    + discriminate.
    + intros p Hp _. cbn [held] in Hp.
      rewrite !lookup_alter_ne by congruence. reflexivity.
  - discriminate.
Qed.

(** *** The calls of the transport layer and the other events *)

Lemma GetTask_world (id : string) (w : World) :
  heap (GetTask id w).2 = heap w /\ taskQueue (GetTask id w).2 = taskQueue w
  /\ ctxDone (GetTask id w).2 = ctxDone w
  /\ shutdownClosed (GetTask id w).2 = shutdownClosed w
  /\ repo (GetTask id w).2 = repo w.
Proof.
  unfold GetTask. destruct (strconv.ParseInt id) as [n [e|]]; [repeat split|].
  destruct (repository.GetTask id (repo w)); repeat split.
Qed.

Lemma DeleteTask_world (id : string) (w : World) :
  heap (DeleteTask id w).2 = heap w /\ taskQueue (DeleteTask id w).2 = taskQueue w
  /\ ctxDone (DeleteTask id w).2 = ctxDone w
  /\ shutdownClosed (DeleteTask id w).2 = shutdownClosed w.
Proof.
  unfold DeleteTask. destruct (strconv.ParseInt id) as [n [e|]]; [repeat split|].
  destruct (repository.DeleteTask id (repo w)) as [[e|] r]; repeat split.
Qed.

Lemma Shutdown_signal_world (w w' : World) :
  Shutdown_signal w = Some w' ->
  heap w' = heap w /\ taskQueue w' = taskQueue w
  /\ ctxDone w' = ctxDone w /\ shutdownClosed w' = true.
Proof.
  unfold Shutdown_signal. cbn [shutdownClosed log].
  destruct (shutdownClosed w); [discriminate|]. intros [= <-]. repeat split.
Qed.

(** An event that is not a worker's step and not a creation leaves the heap
    and the queue alone and does not undo the stop signal. *)
Lemma other_events_world (e : Event) (s s' : Sys) :
  sys_step e s = Some s' ->
  match e with EvWorker _ _ | EvCreateTask _ _ _ => False | _ => True end ->
  heap (world s') = heap (world s)
  /\ taskQueue (world s') = taskQueue (world s)
  /\ workers s' = workers s
  /\ (stop_delivered (world s) = true -> stop_delivered (world s') = true).
Proof.
  unfold stop_delivered. intros H He.
  destruct e; cbn in He; try contradiction; cbn [sys_step] in H; clear He.
  - inversion H. repeat split; auto.
  - inversion H. cbn [world workers].
    destruct (GetTask_world id (world s)) as (-> & -> & -> & -> & _). auto.
  - inversion H. cbn [world workers].
    destruct (DeleteTask_world id (world s)) as (-> & -> & -> & ->). auto.
  - destruct (Shutdown_signal (world s)) as [w'|] eqn:Hs; [|discriminate].
    inversion H. cbn [world workers].
    destruct (Shutdown_signal_world _ _ Hs) as (-> & -> & -> & ->).
    repeat split; try (intros _; apply orb_true_r).
  - inversion H. cbn. repeat split; auto.
  - inversion H. repeat split; auto.
  - inversion H. repeat split; auto.
  - destruct (d <? 0); [discriminate|]. inversion H. repeat split; auto.
Qed.

(** *** The invariant holds in every reachable state *)

Lemma sys_step_Inv (e : Event) (s s' : Sys) :
  Inv s -> sys_step e s = Some s' -> Inv s'.
Proof.
  intros [Ha Hs] H.
  destruct e as [i pick|ctx req pick| | | | | | | |];
    try (destruct (other_events_world _ s s' H I) as (Hh & Hq & Hw & _);
         split;
         [ intros p Hp; unfold queued in Hp; rewrite Hq in Hp; rewrite Hh; apply Ha, Hp
         | intros j pc p Hj Hp; rewrite Hw in Hj; rewrite Hh; eapply Hs; eauto ]).
  - cbn [sys_step] in H.
    destruct (workers s !! i) as [pc|] eqn:Hpc; [|discriminate].
    destruct (worker_step (Z.of_nat i) pick pc (world s)) as [[pc' w']|] eqn:Hstep;
      [|discriminate].
    inversion H. subst s'. clear H.
    destruct (worker_step_effect _ _ _ _ _ _ Hstep) as (Hle & Hq & Hheld & _).
    split.
    + intros p Hp. cbn [world] in *. apply Hq in Hp.
      destruct (Ha p Hp) as [t Ht]. destruct (Hle p t Ht) as (t' & Ht' & _). eauto.
    + intros j pcj p Hj Hp. cbn [world workers] in *.
      destruct (decide (i = j)) as [<-|Hne].
      * rewrite list_lookup_insert_eq in Hj by (eapply lookup_lt_Some; eauto).
        inversion Hj. subst pcj.
        destruct (Hheld p Hp) as [Hold | [Hqp Himp]].
        -- destruct (Hs i pc p Hpc Hold) as (t & Ht & Hst).
           destruct (Hle p t Ht) as (t' & Ht' & Hst'). eauto.
        -- apply Himp, Ha, Hqp.
      * rewrite list_lookup_insert_ne in Hj by congruence.
        destruct (Hs j pcj p Hj Hp) as (t & Ht & Hst).
        destruct (Hle p t Ht) as (t' & Ht' & Hst'). eauto.
  - cbn [sys_step] in H. inversion H. subst s'. clear H.
    rewrite CreateTask_eq_enqueue.
    set (w1 := created (req_Title req) (req_Description req) (world s)).
    destruct (enqueue_heap ctx pick (new_loc (heap (world s))) w1) as (Hh & _).
    pose proof (created_heap_le (req_Title req) (req_Description req) (world s)) as Hle.
    fold w1 in Hle.
    split.
    + intros p Hp. cbn [world] in *. rewrite Hh.
      apply enqueue_queue in Hp as [-> | Hp].
      * subst w1. rewrite created_heap, lookup_insert_eq. eauto.
      * destruct (created_queue (req_Title req) (req_Description req) (world s))
          as (Hq & _).
        fold w1 in Hq. rewrite Hq in Hp.
        destruct (Ha p Hp) as [t Ht]. destruct (Hle p t Ht) as (t' & Ht' & _). eauto.
    + intros j pcj p Hj Hp. cbn [world workers] in *. rewrite Hh.
      destruct (Hs j pcj p Hj Hp) as (t & Ht & Hst).
      destruct (Hle p t Ht) as (t' & Ht' & Hst'). eauto.
Qed.

Lemma run_Inv (es : list Event) :
  forall s s', Inv s -> run es s = Some s' -> Inv s'.
Proof.
  induction es as [|e es IH]; intros s s' HI H; cbn [run] in H.
  - inversion H. subst. exact HI.
  - destruct (sys_step e s) as [s1|] eqn:Hstep; [|discriminate].
    eapply IH; [eapply sys_step_Inv; eauto|exact H].
Qed.

Lemma init_Inv (now : GoTime.Time) : Inv (init now).
Proof.
  split.
  - intros p Hp. unfold queued in Hp. cbn in Hp. apply elem_of_nil in Hp. contradiction.
  - intros i pc p Hi Hp. cbn [init workers] in Hi.
    apply lookup_replicate in Hi as [-> _]. discriminate.
Qed.

(** *** Step 4 *)

Lemma complete_task_repo (task : loc) (w : World) :
  repo (complete_task task w).2
  = (repository.UpdateTask task (heap (complete_task task w).2) (repo w)).2.
Proof.
  destruct (complete_task_fields task w) as (Hh & _). rewrite Hh.
  unfold complete_task.
  match goal with
  | |- context [repo_UpdateTask task ?w1] =>
      pose proof (repo_UpdateTask_fields task w1) as (_ & _ & _ & _ & _ & _ & Hr & _);
      destruct (repo_UpdateTask task w1) as [[ok|err] w2]
  end; cbn [fst snd] in *; cbn [repo log log_Error heap set_heap] in *; exact Hr.
Qed.

(** Step 4 on an allocated task: the task object is completed; the store
    takes the update exactly when it still holds the task's id. *)
Lemma complete_task_spec (task : loc) (w : World) (t : Task) :
  heap w !! task = Some t ->
  exists t',
    heap (complete_task task w).2 !! task = Some t'
    /\ Status t' = StatusCompleted
    /\ Result t' = "Task completed successfully"%string
    /\ StartedAt t' = StartedAt t
    /\ CompletedAt t' = Some (clock w)
    /\ ID t' = ID t
    /\ (complete_task task w).1 = AtLoopHead
    /\ (is_Some (repository.tasks (repo w) !! ID t) ->
          repository.GetTask (ID t') (repo (complete_task task w).2) = inl task)
    /\ (repository.tasks (repo w) !! ID t = None ->
          repo (complete_task task w).2 = repo w
          /\ repository.GetTask (ID t') (repo (complete_task task w).2)
             = inr ErrTaskNotFound).
Proof.
  intros Ht.
  destruct (complete_task_fields task w) as (Hh & _ & _ & _ & Hpc).
  pose proof (complete_task_repo task w) as Hr.
  destruct (UpdateStatus_Completed_fields t (clock w)) as (H1 & H2 & H3 & H4 & H5).
  set (t' := set_Result "Task completed successfully"
               (UpdateStatus StatusCompleted (clock w) t)).
  assert (Ht' : heap (complete_task task w).2 !! task = Some t').
  { rewrite Hh, !lookup_alter_eq, Ht. reflexivity. }
  exists t'. split; [exact Ht'|].
  assert (Hid : ID t' = ID t) by exact H4.
  split; [exact H1|]. split; [reflexivity|]. split; [exact H3|].
  split; [exact H2|]. split; [exact Hid|]. split; [exact Hpc|].
  split; [|intros H; split].
  - intros Hsome. rewrite Hr. unfold repository.UpdateTask, repository.GetTask.
    rewrite (lookup_total_correct _ _ _ Ht'), Hid.
    destruct Hsome as [old Hold]. rewrite Hold. cbn [snd repository.tasks].
    rewrite lookup_insert_eq. reflexivity.
  - rewrite Hr. unfold repository.UpdateTask.
    rewrite (lookup_total_correct _ _ _ Ht'), Hid, H. reflexivity.
  - rewrite Hr. unfold repository.UpdateTask, repository.GetTask.
    rewrite (lookup_total_correct _ _ _ Ht'), Hid, H. cbn [snd]. rewrite H. reflexivity.
Qed.

(** C4, as amended: when a worker of a running process executes step 4 on
    a task, the task object afterwards has status Completed, the result
    "Task completed successfully", the started_at that it had (which is
    set) and completed_at set to the time of the step, and the worker is
    back at the head of its loop.  This state is what the store returns
    for the task's id if the store still holds that id; if the id was
    deleted in the meantime, UpdateTask fails, the store is left as it was
    and the task is not found in it. *)
Theorem worker_completes_task (now0 : GoTime.Time) (es : list Event) (s : Sys)
    (i : nat) (task : loc) (pick : SelectCase) :
  run es (init now0) = Some s ->
  workers s !! i = Some (AtCompletion task) ->
  exists s' t t',
    sys_step (EvWorker i pick) s = Some s'
    /\ heap (world s) !! task = Some t
    /\ heap (world s') !! task = Some t'
    /\ Status t' = StatusCompleted
    /\ Result t' = "Task completed successfully"%string
    /\ StartedAt t' = StartedAt t /\ is_Some (StartedAt t')
    /\ CompletedAt t' = Some (clock (world s))
    /\ ID t' = ID t
    /\ workers s' !! i = Some AtLoopHead
    /\ (is_Some (repository.tasks (repo (world s)) !! ID t) ->
          repository.GetTask (ID t') (repo (world s')) = inl task)
    /\ (repository.tasks (repo (world s)) !! ID t = None ->
          repo (world s') = repo (world s)
          /\ repository.GetTask (ID t') (repo (world s')) = inr ErrTaskNotFound).
Proof.
  intros Hrun Hpc.
  destruct (run_Inv es _ _ (init_Inv now0) Hrun) as [_ Hs].
  destruct (Hs i _ task Hpc eq_refl) as (t & Ht & Hst).
  destruct (complete_task_spec task (world s) t Ht)
    as (t' & Ht' & H1 & H2 & H3 & H4 & H5 & H6 & H7 & H8).
  exists {| world := (complete_task task (world s)).2;
            workers := <[i := AtLoopHead]> (workers s) |}, t, t'.
  split.
  { cbn [sys_step]. rewrite Hpc. cbn [worker_step].
    destruct (complete_task task (world s)) as [pc' w'] eqn:Hc.
    cbn [fst snd] in *. subst pc'. reflexivity. }
  cbn [world workers].
  repeat split; auto.
  - rewrite H3. exact Hst.
  - apply list_lookup_insert_eq. eapply lookup_lt_Some; eauto.
  - apply H8; assumption.
  - apply H8; assumption.
Qed.

Lemma worker_completes_task_witness :
  exists s' t',
    sys_step (EvWorker 0 CaseTimer) before_completion = Some s'
    /\ heap (world s') !! 1%positive = Some t'
    /\ Status t' = StatusCompleted
    /\ Result t' = "Task completed successfully"%string
    /\ is_Some (StartedAt t')
    /\ repository.GetTask "1" (repo (world s')) = inl 1%positive.
Proof.
  destruct (worker_completes_task 0 run_until_completion before_completion
              0%nat 1%positive CaseTimer)
    as (s' & t & t' & H1 & H2 & H3 & H4 & H5 & H6 & H7 & H8 & H9 & H10 & H11 & H12).
  - vm_compute. reflexivity.
  - vm_compute. reflexivity.
  - exists s', t'. repeat split; try assumption.
    assert (Hid : ID t = "1"%string).
    { vm_compute in H2. injection H2 as <-. reflexivity. }
    rewrite Hid in *. rewrite <- H9. apply H11. vm_compute. eauto.
Defined.

(** C4, as stated, fails when the task is deleted during the delay: the
    worker reaches step 4 and runs it, the task object becomes Completed
    with its result and both timestamps, but the update is refused and the
    store does not hold that state: the task is not found. *)
Lemma completed_task_not_in_store :
  run run_with_delete (init 0) = Some deleted_before_completion
  /\ workers deleted_before_completion !! 0%nat = Some (AtCompletion 1%positive)
  /\ exists s',
       sys_step (EvWorker 0 CaseTimer) deleted_before_completion = Some s'
       /\ heap (world s') !! 1%positive
          = Some (mkTask "1" "T" "D" StatusCompleted 0 (Some 0) (Some 0) "0s"
                         "Task completed successfully" "")
       /\ repository.GetTask "1" (repo (world s')) = inr ErrTaskNotFound
       /\ (GetTask "1" (world s')).1 = inr (errors_Wrap ErrTaskNotFound "get task").
Proof.
  split; [vm_compute; reflexivity|].
  split; [vm_compute; reflexivity|].
  eexists. split; [vm_compute; reflexivity|].
  repeat split; vm_compute; reflexivity.
Qed.

(** *** The stop signal *)

Lemma worker_step_flags (workerID : Z) (pick : SelectCase) (pc pc' : WorkerPC)
    (w w' : World) :
  worker_step workerID pick pc w = Some (pc', w') ->
  ctxDone w' = ctxDone w /\ shutdownClosed w' = shutdownClosed w.
Proof.
  destruct pc as [| | |task deadline|task|]; cbn [worker_step].
  - intros [= <- <-]. auto.
  - destruct pick; try discriminate;
      [destruct (ctxDone w) eqn:E|destruct (shutdownClosed w) eqn:E
      |destruct (ctxDone w || shutdownClosed w)];
      try discriminate; intros [= <- <-]; cbn; auto.
  - destruct pick; try discriminate;
      [destruct (ctxDone w) eqn:E|destruct (shutdownClosed w) eqn:E|];
      try discriminate; try (intros [= <- <-]; cbn; auto; fail).
    destruct (chan_recv (taskQueue w)) as [[task q']|]; [|discriminate].
    intros H. inversion H as [Hbp].
    destruct (begin_processing_fields task (set_taskQueue q' w))
      as (_ & _ & Hc & Hs & _).
    rewrite Hbp in Hc, Hs. auto.
  - destruct pick; try discriminate;
      [destruct (ctxDone w) eqn:E|destruct (shutdownClosed w) eqn:E
      |destruct (deadline <=? clock w)];
      try discriminate; intros [= <- <-]; cbn; auto.
  - intros H. inversion H as [Hct].
    destruct (complete_task_fields task w) as (_ & _ & Hc & Hs & _).
    rewrite Hct in Hc, Hs. auto.
  - discriminate.
Qed.

(** With the stop signal delivered, no step of a worker ends at the inner
    select. *)
Lemma worker_step_stopped (workerID : Z) (pick : SelectCase) (pc pc' : WorkerPC)
    (w w' : World) :
  stop_delivered w = true ->
  worker_step workerID pick pc w = Some (pc', w') ->
  pc' <> AtDequeue.
Proof.
  unfold stop_delivered. intros Hstop.
  destruct pc as [| | |task deadline|task|]; cbn [worker_step].
  - intros [= <- <-]. discriminate.
  - rewrite Hstop.
    destruct pick; try discriminate;
      [destruct (ctxDone w)|destruct (shutdownClosed w)];
      try discriminate; intros [= <- <-]; discriminate.
  - destruct pick; try discriminate;
      [destruct (ctxDone w)|destruct (shutdownClosed w)|];
      try discriminate; try (intros [= <- <-]; discriminate).
    destruct (chan_recv (taskQueue w)) as [[task q']|]; [|discriminate].
    intros H. inversion H as [Hbp].
    destruct (begin_processing_fields task (set_taskQueue q' w))
      as (_ & _ & _ & _ & Hpc).
    rewrite Hbp in Hpc. cbn [fst] in Hpc. destruct Hpc as [-> | ->]; discriminate.
  - destruct pick; try discriminate;
      [destruct (ctxDone w)|destruct (shutdownClosed w)
      |destruct (deadline <=? clock w)];
      try discriminate; intros [= <- <-]; discriminate.
  - intros H. inversion H as [Hct].
    destruct (complete_task_fields task w) as (_ & _ & _ & _ & Hpc).
    rewrite Hct in Hpc. cbn [fst] in Hpc. subst pc'. discriminate.
  - discriminate.
Qed.

(** The stop signal is never taken back. *)
Lemma sys_step_stop (e : Event) (s s' : Sys) :
  stop_delivered (world s) = true -> sys_step e s = Some s' ->
  stop_delivered (world s') = true.
Proof.
  intros Hstop H.
  destruct e as [i pick|ctx req pick| | | | | | | |];
    try (destruct (other_events_world _ s s' H I) as (_ & _ & _ & Hk); auto; fail).
  - cbn [sys_step] in H.
    destruct (workers s !! i) as [pc|]; [|discriminate].
    destruct (worker_step (Z.of_nat i) pick pc (world s)) as [[pc' w']|] eqn:Hstep;
      [|discriminate].
    inversion H. cbn [world].
    destruct (worker_step_flags _ _ _ _ _ _ Hstep) as [Hc Hs].
    unfold stop_delivered in *. rewrite Hc, Hs. exact Hstop.
  - cbn [sys_step] in H. inversion H. cbn [world].
    rewrite CreateTask_eq_enqueue.
    destruct (enqueue_heap ctx pick (new_loc (heap (world s)))
                (created (req_Title req) (req_Description req) (world s)))
      as (_ & _ & Hc & Hs).
    destruct (created_queue (req_Title req) (req_Description req) (world s))
      as (_ & Hc' & Hs').
    unfold stop_delivered in *. rewrite Hc, Hs, Hc', Hs'. exact Hstop.
Qed.

(** One event under the stop signal: what worker [i] spends on beginning
    step 2 comes out of its budget. *)
Lemma sys_step_budget (e : Event) (s s' : Sys) (i : nat) :
  stop_delivered (world s) = true -> sys_step e s = Some s' ->
  (step2_cost i e s + step2_budget (workers s' !! i)
   <= step2_budget (workers s !! i))%nat.
Proof.
  intros Hstop H. unfold step2_cost.
  destruct e as [j pick|ctx req pick| | | | | | | |];
    try (destruct (other_events_world _ s s' H I) as (_ & _ & -> & _); cbn; lia).
  - pose proof H as H0. cbn [sys_step] in H.
    destruct (workers s !! j) as [pc|] eqn:Hpc; [|discriminate].
    destruct (worker_step (Z.of_nat j) pick pc (world s)) as [[pc' w']|] eqn:Hstep;
      [|discriminate].
    inversion H. subst s'. cbn [workers].
    destruct (decide (j = i)) as [->|Hne].
    + rewrite list_lookup_insert_eq by (eapply lookup_lt_Some; eauto).
      pose proof (worker_step_stopped _ _ _ _ _ _ Hstop Hstep) as Hnd.
      rewrite Hpc.
      assert (Hb : step2_budget (Some pc') = 0%nat)
        by (destruct pc'; try reflexivity; congruence).
      rewrite Hb. unfold begins_step2. rewrite Hpc.
      destruct pick, pc; cbn [step2_budget];
        rewrite ?andb_false_r; try (cbn; lia).
      destruct (bool_decide (i = i) && _); lia.
    + rewrite list_lookup_insert_ne by congruence.
      rewrite bool_decide_eq_false_2 by congruence. cbn. lia.
  - cbn [sys_step] in H. inversion H. cbn. lia.
Qed.

(** C8, as amended: once the stop signal has been delivered it stays
    delivered, and from then on a worker begins step 2 at most once, and
    only if it stood at its inner select, past the stop check of the outer
    select, when the signal arrived (that select may take the queued task
    although the stop case is ready); a worker that stands anywhere else
    never begins step 2 again.  A worker that stands before step 4 runs it
    whatever the stop signal says: its next step exists for every choice of
    the scheduler, is the whole of step 4, and takes it back to the head of
    the loop. *)
Theorem stop_bounds_step2 :
  (forall (es : list Event) (s s' : Sys) (i : nat),
      stop_delivered (world s) = true -> run es s = Some s' ->
      stop_delivered (world s') = true
      /\ (count_step2 i es s <= step2_budget (workers s !! i))%nat)
  /\ (forall (s : Sys) (i : nat) (task : loc) (pick : SelectCase),
        workers s !! i = Some (AtCompletion task) ->
        sys_step (EvWorker i pick) s
        = Some {| world := (complete_task task (world s)).2;
                  workers := <[i := AtLoopHead]> (workers s) |}).
Proof.
  split.
  - induction es as [|e es IH]; intros s s' i Hstop Hrun; cbn [run] in Hrun.
    + inversion Hrun. subst. split; [exact Hstop|]. cbn. lia.
    + destruct (sys_step e s) as [s1|] eqn:Hstep; [|discriminate].
      pose proof (sys_step_stop _ _ _ Hstop Hstep) as Hstop1.
      destruct (IH s1 s' i Hstop1 Hrun) as [Hs' Hc].
      split; [exact Hs'|].
      pose proof (sys_step_budget e s s1 i Hstop Hstep) as Hb.
      cbn [count_step2]. rewrite Hstep. lia.
  - intros s i task pick Hpc. cbn [sys_step]. rewrite Hpc. cbn [worker_step].
    destruct (complete_task_fields task (world s)) as (_ & _ & _ & _ & Hpc').
    destruct (complete_task task (world s)) as [pc' w']. cbn [fst snd] in *.
    subst pc'. reflexivity.
Qed.

Lemma stop_bounds_step2_witness :
  stop_delivered
    (world (default after_shutdown
              (run [EvWorker 1 CaseDefault; EvWorker 1 CaseShutdown] after_shutdown)))
  = true
  /\ (count_step2 1 [EvWorker 1 CaseDefault; EvWorker 1 CaseShutdown] after_shutdown
      <= 0)%nat
  /\ is_Some (sys_step (EvWorker 0 CaseShutdown) before_completion).
Proof.
  destruct stop_bounds_step2 as [Hstop Hrun].
  destruct (Hstop [EvWorker 1 CaseDefault; EvWorker 1 CaseShutdown] after_shutdown
              (default after_shutdown
                 (run [EvWorker 1 CaseDefault; EvWorker 1 CaseShutdown] after_shutdown))
              1%nat) as [H1 H2].
  - vm_compute. reflexivity.
  - vm_compute. reflexivity.
  - split; [exact H1|]. split; [exact H2|].
    rewrite (Hrun before_completion 0%nat 1%positive CaseShutdown); [eauto|].
    vm_compute. reflexivity.
Defined.

(** C8, as stated, fails: worker 0 stands at its inner select when a task
    is queued and the shutdown channel is closed; with the stop signal
    delivered, the select may still take the task, and the worker runs
    step 2 on it. *)
Lemma step2_begins_after_stop :
  run run_until_shutdown (init 0) = Some after_shutdown
  /\ stop_delivered (world after_shutdown) = true
  /\ begins_step2 (EvWorker 0 CaseRecv) after_shutdown = true
  /\ exists s',
       sys_step (EvWorker 0 CaseRecv) after_shutdown = Some s'
       /\ heap (world s') !! 1%positive
          = Some (mkTask "1" "T" "D" StatusProcessing 0 (Some 0) None "0s" "" "")
       /\ workers s' !! 0%nat = Some (AtDelay 1%positive 120000000000).
Proof.
  split; [vm_compute; reflexivity|].
  split; [vm_compute; reflexivity|].
  split; [vm_compute; reflexivity|].
  eexists. split; [vm_compute; reflexivity|].
  split; vm_compute; reflexivity.
Qed.

(** *** A task that was stored but not queued *)

(** A task that is allocated and not in flight is not written and does not
    get in flight, whatever happens next. *)
Lemma sys_step_untouched (e : Event) (s s' : Sys) (p : loc) (t : Task) :
  heap (world s) !! p = Some t -> ~ in_flight s p ->
  sys_step e s = Some s' ->
  heap (world s') !! p = Some t /\ ~ in_flight s' p.
Proof.
  intros Ht Hnf H.
  assert (Hnq : ~ queued (world s) p) by (intros Hq; apply Hnf; left; exact Hq).
  assert (Hnh : forall i pc, workers s !! i = Some pc -> held pc <> Some p).
  { intros i pc Hi Hp. apply Hnf. right. eauto. }
  destruct e as [i pick|ctx req pick| | | | | | | |];
    try (destruct (other_events_world _ s s' H I) as (Hh & Hq & Hw & _);
         split; [rewrite Hh; exact Ht|];
         intros [Hq' | (j & pc & Hj & Hp)];
         [ apply Hnq; unfold queued in *; rewrite <- Hq; exact Hq'
         | rewrite Hw in Hj; eapply Hnh; eauto ]).
  - cbn [sys_step] in H.
    destruct (workers s !! i) as [pc|] eqn:Hpc; [|discriminate].
    destruct (worker_step (Z.of_nat i) pick pc (world s)) as [[pc' w']|] eqn:Hstep;
      [|discriminate].
    inversion H. subst s'. clear H. cbn [world workers].
    destruct (worker_step_effect _ _ _ _ _ _ Hstep) as (_ & Hq & Hheld & Hkeep).
    split.
    + rewrite Hkeep; [exact Ht|eapply Hnh; eauto|exact Hnq].
    + intros [Hq' | (j & pcj & Hj & Hp)]; cbn [world workers] in *.
      * apply Hnq, Hq, Hq'.
      * destruct (decide (i = j)) as [<-|Hne].
        -- rewrite list_lookup_insert_eq in Hj by (eapply lookup_lt_Some; eauto).
           inversion Hj. subst pcj.
           destruct (Hheld p Hp) as [Hold | [Hqp _]];
             [eapply Hnh; eauto|apply Hnq, Hqp].
        -- rewrite list_lookup_insert_ne in Hj by congruence. eapply Hnh; eauto.
  - cbn [sys_step] in H. inversion H. subst s'. clear H. cbn [world workers].
    rewrite CreateTask_eq_enqueue.
    set (w1 := created (req_Title req) (req_Description req) (world s)).
    destruct (enqueue_heap ctx pick (new_loc (heap (world s))) w1) as (Hh & _).
    assert (Hne : p <> new_loc (heap (world s))).
    { intros ->. rewrite new_loc_fresh in Ht. discriminate. }
    split.
    + rewrite Hh. subst w1. rewrite created_heap, lookup_insert_ne by congruence.
      exact Ht.
    + intros [Hq' | (j & pcj & Hj & Hp)]; cbn [world workers] in *.
      * apply enqueue_queue in Hq' as [-> | Hq']; [congruence|].
        destruct (created_queue (req_Title req) (req_Description req) (world s))
          as (Hq & _).
        fold w1 in Hq. rewrite Hq in Hq'. apply Hnq, Hq'.
      * eapply Hnh; eauto.
Qed.

Lemma run_untouched (es : list Event) :
  forall (s s' : Sys) (p : loc) (t : Task),
    heap (world s) !! p = Some t -> ~ in_flight s p ->
    run es s = Some s' ->
    heap (world s') !! p = Some t /\ ~ in_flight s' p.
Proof.
  induction es as [|e es IH]; intros s s' p t Ht Hnf H; cbn [run] in H.
  - inversion H. subst. auto.
  - destruct (sys_step e s) as [s1|] eqn:Hstep; [|discriminate].
    destruct (sys_step_untouched _ _ _ _ _ Ht Hnf Hstep) as [Ht1 Hnf1].
    eapply IH; eauto.
Qed.

(** The select of CreateTask returns an error only by taking the case of
    the caller's cancelled context, and then changes nothing. *)
Lemma enqueue_error (ctx : Context) (pick : SelectCase) (task : loc) (w w' : World)
    (err : error) :
  enqueue ctx pick task w = (Returned (inr err), w') ->
  w' = w /\ exists cerr, ctx = Some cerr /\ err = errors_Wrap cerr "task queue is full".
Proof.
  unfold enqueue.
  destruct (send_ready (taskQueue w)), ctx as [cerr|]; try destruct pick;
    intros H; inversion H; subst; eauto.
Qed.

(** C9: CreateTask of the service stores the task before its select.  When
    the call returns an error, the error wraps the error of the caller's
    cancelled context; the new task is in the store under the id that the
    store assigned, with status Pending, and the queue is as it was.  From
    then on, whatever the process does, the task object is never written
    (so it stays Pending) and is never in the queue or with a worker. *)
Theorem cancelled_CreateTask_leaves_task (now0 : GoTime.Time) (es0 : list Event)
    (s : Sys) (ctx : Context) (req : CreateTaskRequest) (pick : SelectCase)
    (err : error) (w' : World) :
  run es0 (init now0) = Some s ->
  CreateTask ctx req pick (world s) = (Returned (inr err), w') ->
  (exists cerr, ctx = Some cerr /\ err = errors_Wrap cerr "task queue is full")
  /\ repository.GetTask (strconv.FormatInt (repository.nextID (repo (world s))))
                        (repo w')
     = inl (new_loc (heap (world s)))
  /\ heap w' !! new_loc (heap (world s))
     = Some (mkTask (strconv.FormatInt (repository.nextID (repo (world s))))
                    (req_Title req) (req_Description req) StatusPending
                    (clock (world s)) None None "" "" "")
  /\ taskQueue w' = taskQueue (world s)
  /\ forall (es : list Event) (s'' : Sys),
       run es {| world := w'; workers := workers s |} = Some s'' ->
       heap (world s'') !! new_loc (heap (world s))
       = Some (mkTask (strconv.FormatInt (repository.nextID (repo (world s))))
                      (req_Title req) (req_Description req) StatusPending
                      (clock (world s)) None None "" "" "")
       /\ ~ in_flight s'' (new_loc (heap (world s))).
Proof.
  intros Hrun Hc. rewrite CreateTask_eq_enqueue in Hc.
  apply enqueue_error in Hc as [-> Hctx].
  destruct (created_queue (req_Title req) (req_Description req) (world s)) as (Hq & _).
  assert (Hheap : heap (created (req_Title req) (req_Description req) (world s))
                  !! new_loc (heap (world s))
                  = Some (mkTask (strconv.FormatInt (repository.nextID (repo (world s))))
                            (req_Title req) (req_Description req) StatusPending
                            (clock (world s)) None None "" "" "")).
  { rewrite created_heap. apply lookup_insert_eq. }
  split; [exact Hctx|]. split; [|split; [exact Hheap|split; [exact Hq|]]].
  - rewrite created_repo. unfold repository.GetTask. cbn [repository.tasks].
    rewrite lookup_insert_eq. reflexivity.
  - intros es s'' Hes. refine (run_untouched es _ s'' _ _ _ _ Hes); [exact Hheap|].
    destruct (run_Inv es0 _ _ (init_Inv now0) Hrun) as [Ha Hs].
    pose proof (new_loc_fresh (heap (world s))) as Hfresh.
    intros [Hq' | (j & pc & Hj & Hp)]; cbn [world workers] in *.
    + unfold queued in Hq'. rewrite Hq in Hq'.
      destruct (Ha _ Hq') as [t Ht]. congruence.
    + destruct (Hs j pc _ Hj Hp) as (t & Ht & _). congruence.
Qed.

Lemma cancelled_CreateTask_leaves_task_witness :
  repository.GetTask "1"
    (repo (CreateTask (Some context_Canceled) req_TD CaseCtxDone (world (init 0))).2)
  = inl 1%positive
  /\ forall (es : list Event) (s'' : Sys),
       run es {| world := (CreateTask (Some context_Canceled) req_TD CaseCtxDone
                             (world (init 0))).2;
                 workers := workers (init 0) |} = Some s'' ->
       heap (world s'') !! 1%positive
       = Some (mkTask "1" "T" "D" StatusPending 0 None None "" "" "")
       /\ ~ in_flight s'' 1%positive.
Proof.
  destruct (cancelled_CreateTask_leaves_task 0 [] (init 0) (Some context_Canceled)
              req_TD CaseCtxDone
              (errors_Wrap context_Canceled "task queue is full")
              (CreateTask (Some context_Canceled) req_TD CaseCtxDone (world (init 0))).2)
    as (_ & H1 & _ & _ & H2).
  - reflexivity.
  - vm_compute. reflexivity.
  - split; [exact H1|exact H2].
Defined.

(** Through the service: the id that NewTask took from the global counter
    is replaced by the one of the store. *)
Lemma service_CreateTask_uses_store_id (ctx : Context) (req : CreateTaskRequest)
    (pick : SelectCase) (w : World) :
  ID (heap (CreateTask ctx req pick w).2 !!! new_loc (heap w))
  = strconv.FormatInt (repository.nextID (repo w))
  /\ repository.tasks (repo (CreateTask ctx req pick w).2)
       !! strconv.FormatInt (repository.nextID (repo w))
     = Some (new_loc (heap w))
  /\ taskCounter (CreateTask ctx req pick w).2 = wrap_uint64 (taskCounter w + 1).
Proof.
  rewrite CreateTask_eq_enqueue.
  destruct (enqueue_heap ctx pick (new_loc (heap w))
              (created (req_Title req) (req_Description req) w)) as (Hh & Hr & _).
  rewrite Hh, Hr, created_heap, created_repo, lookup_total_insert_eq.
  cbn [ID repository.tasks]. rewrite lookup_insert_eq.
  split; [reflexivity|]. split; [reflexivity|].
  unfold enqueue, created, alloc_NewTask, repo_CreateTask.
  cbn [NewTask generateTaskID heap repo set_heap set_taskCounter].
  rewrite CreateTask_eq.
  destruct (send_ready _), ctx as [cerr|]; try destruct pick; reflexivity.
Qed.

End worker_facts.

(** ** Sample evaluations *)

Example FormatInt_42 : strconv.FormatInt 42 = "42"%string.
Proof. reflexivity. Qed.

Example FormatInt_minInt64 :
  strconv.FormatInt GoInt.minInt64 = "-9223372036854775808"%string.
Proof. reflexivity. Qed.

Example ParseInt_plus : strconv.ParseInt "+17" = (17, None).
Proof. reflexivity. Qed.

Example ParseInt_leading_zeros : strconv.ParseInt "-007" = (-7, None).
Proof. reflexivity. Qed.

Example ParseInt_letter : strconv.ParseInt "12a" = (0, Some strconv.ErrSyntax).
Proof. reflexivity. Qed.

Example ParseInt_empty : strconv.ParseInt "" = (0, Some strconv.ErrSyntax).
Proof. reflexivity. Qed.

Example ParseInt_out_of_range :
  strconv.ParseInt "9223372036854775808"
  = (9223372036854775807, Some strconv.ErrRange).
Proof. reflexivity. Qed.

Example Duration_String_hms :
  GoTime.Duration_String 3723500000000 = "1h2m3.5s"%string.
Proof. reflexivity. Qed.

Example Duration_String_ms : GoTime.Duration_String 1500000 = "1.5ms"%string.
Proof. reflexivity. Qed.

Example Duration_String_zero : GoTime.Duration_String 0 = "0s"%string.
Proof. reflexivity. Qed.

Example Duration_String_negative :
  GoTime.Duration_String (-60000000000) = "-1m0s"%string.
Proof. reflexivity. Qed.

Example task_from_NewTask_ID : model.ID task_from_NewTask = "42"%string.
Proof. reflexivity. Qed.

(** One task, no delay and one worker that runs: the task ends Completed,
    with its result, both timestamps and a duration of zero. *)
Example one_task_completes :
  exists s,
    worker.run (run_until_completion ++ [worker.EvWorker 0 service.CaseTimer])
               (worker.init 0) = Some s
    /\ service.heap (worker.world s) !! 1%positive
       = Some (model.mkTask "1" "T" "D" model.StatusCompleted 0 (Some 0) (Some 0)
                            "0s" "Task completed successfully" "")
    /\ model.Duration (service.heap (worker.world s) !!! 1%positive) 5 = 0
    /\ (service.GetTask "1" (worker.world s)).1 = inl 1%positive.
Proof.
  eexists. split; [vm_compute; reflexivity|].
  repeat split; vm_compute; reflexivity.
Qed.

(** * Further properties *)

(** ** The steps of a worker, case by case *)

Section step_cases.
Import GoInt model service worker.

Lemma UpdateTask_cases (task : loc) (h : gmap loc Task)
    (r : repository.InMemoryTaskRepository) :
  (repository.tasks r !! ID (h !!! task) = None
   /\ repository.UpdateTask task h r = (inr ErrTaskNotFound, r))
  \/ (is_Some (repository.tasks r !! ID (h !!! task))
      /\ repository.UpdateTask task h r
         = (inl task,
            {| repository.tasks := <[ ID (h !!! task) := task ]> (repository.tasks r);
               repository.nextID := repository.nextID r |})).
Proof.
  unfold repository.UpdateTask.
  destruct (repository.tasks r !! ID (h !!! task)) eqn:E; [right|left]; eauto.
Qed.

(** Step 2 in full: the heap is written at the task only; the store takes
    the task and the worker goes on to the delay if the store holds the
    id, and otherwise the store is left alone and the worker goes back to
    the head of its loop. *)
Lemma begin_processing_cases (task : loc) (w : World) :
  heap (begin_processing task w).2
  = alter (UpdateStatus StatusProcessing (clock w)) task (heap w)
  /\ taskQueue (begin_processing task w).2 = taskQueue w
  /\ clock (begin_processing task w).2 = clock w
  /\ taskCounter (begin_processing task w).2 = taskCounter w
  /\ processingDelay (begin_processing task w).2 = processingDelay w
  /\ workerCount (begin_processing task w).2 = workerCount w
  /\ ((repository.tasks (repo w) !! ID (heap (begin_processing task w).2 !!! task) = None
       /\ repo (begin_processing task w).2 = repo w
       /\ (begin_processing task w).1 = AtLoopHead)
      \/ (is_Some (repository.tasks (repo w)
                   !! ID (heap (begin_processing task w).2 !!! task))
          /\ repo (begin_processing task w).2
             = {| repository.tasks :=
                    <[ ID (heap (begin_processing task w).2 !!! task) := task ]>
                      (repository.tasks (repo w));
                  repository.nextID := repository.nextID (repo w) |}
          /\ (begin_processing task w).1
             = AtDelay task (clock w + processingDelay w))).
Proof.
  unfold begin_processing, repo_UpdateTask. cbn [heap repo set_heap].
  destruct (UpdateTask_cases task
              (alter (UpdateStatus StatusProcessing (clock w)) task (heap w)) (repo w))
    as [[Hn ->] | [Hs ->]]; cbn; repeat split; auto.
Qed.

Lemma complete_task_cases (task : loc) (w : World) :
  heap (complete_task task w).2
  = alter (set_Result "Task completed successfully") task
      (alter (UpdateStatus StatusCompleted (clock w)) task (heap w))
  /\ taskQueue (complete_task task w).2 = taskQueue w
  /\ clock (complete_task task w).2 = clock w
  /\ taskCounter (complete_task task w).2 = taskCounter w
  /\ processingDelay (complete_task task w).2 = processingDelay w
  /\ workerCount (complete_task task w).2 = workerCount w
  /\ (complete_task task w).1 = AtLoopHead
  /\ ((repository.tasks (repo w) !! ID (heap (complete_task task w).2 !!! task) = None
       /\ repo (complete_task task w).2 = repo w)
      \/ (is_Some (repository.tasks (repo w)
                   !! ID (heap (complete_task task w).2 !!! task))
          /\ repo (complete_task task w).2
             = {| repository.tasks :=
                    <[ ID (heap (complete_task task w).2 !!! task) := task ]>
                      (repository.tasks (repo w));
                  repository.nextID := repository.nextID (repo w) |})).
Proof.
  unfold complete_task, repo_UpdateTask. cbn [heap repo set_heap].
  destruct (UpdateTask_cases task
              (alter (set_Result "Task completed successfully") task
                 (alter (UpdateStatus StatusCompleted (clock w)) task (heap w)))
              (repo w))
    as [[Hn ->] | [Hs ->]]; cbn; repeat split; auto.
Qed.

Lemma worker_step_cases (workerID : Z) (pick : SelectCase) (pc pc' : WorkerPC)
    (w w' : World) :
  worker_step workerID pick pc w = Some (pc', w') ->
  (clock w' = clock w /\ taskCounter w' = taskCounter w
   /\ processingDelay w' = processingDelay w /\ workerCount w' = workerCount w)
  /\ (quiet_step pc pc' w w' \/ begin_step pc pc' w w' \/ complete_step pc pc' w w').
Proof.
  assert (Hlog : forall l msg fs pc0,
             held pc0 = None ->
             (clock (log l msg fs w) = clock w
              /\ taskCounter (log l msg fs w) = taskCounter w
              /\ processingDelay (log l msg fs w) = processingDelay w
              /\ workerCount (log l msg fs w) = workerCount w)
             /\ (quiet_step pc pc0 w (log l msg fs w)
                 \/ begin_step pc pc0 w (log l msg fs w)
                 \/ complete_step pc pc0 w (log l msg fs w))).
  { intros. split; [repeat split|]. left. repeat split. auto. }
  destruct pc as [| | |task deadline|task|]; cbn [worker_step].
  - intros [= <- <-]. apply Hlog. reflexivity.
  - destruct pick; try discriminate.
    + destruct (ctxDone w); [|discriminate]. intros [= <- <-]. apply Hlog. reflexivity.
    + destruct (shutdownClosed w); [|discriminate]. intros [= <- <-].
      apply Hlog. reflexivity.
    + destruct (ctxDone w || shutdownClosed w); [discriminate|]. intros [= <- <-].
      split; [repeat split|]. left. repeat split. auto.
  - destruct pick; try discriminate.
    + destruct (ctxDone w); [|discriminate]. intros [= <- <-]. apply Hlog. reflexivity.
    + destruct (shutdownClosed w); [|discriminate]. intros [= <- <-].
      apply Hlog. reflexivity.
    + destruct (chan_recv (taskQueue w)) as [[task q']|] eqn:Hrecv; [|discriminate].
      intros H. inversion H as [Hbp]. clear H.
      destruct (begin_processing_cases task (set_taskQueue q' w))
        as (_ & _ & Hc & Ht & Hd & Hn & _).
      rewrite Hbp in Hc, Ht, Hd, Hn. cbn [snd] in Hc, Ht, Hd, Hn.
      split; [auto|]. right. left. split; [reflexivity|]. eauto.
  - destruct pick; try discriminate.
    + destruct (ctxDone w); [|discriminate]. intros [= <- <-]. apply Hlog. reflexivity.
    + destruct (shutdownClosed w); [|discriminate]. intros [= <- <-].
      apply Hlog. reflexivity.
    + destruct (deadline <=? clock w); [|discriminate]. intros [= <- <-].
      split; [repeat split|]. left. repeat split. auto.
  - intros H. inversion H as [Hct]. clear H.
    destruct (complete_task_cases task w) as (_ & _ & Hc & Ht & Hd & Hn & _).
    rewrite Hct in Hc, Ht, Hd, Hn. cbn [snd] in Hc, Ht, Hd, Hn.
    split; [auto|]. right. right. exists task. auto.
  - discriminate.
Qed.

End step_cases.

(** ** The shapes of a task *)

Section lifecycle_facts.
Import GoInt model service worker.

Lemma UpdateStatus_Processing_shape (now : GoTime.Time) (t : Task) :
  UpdateStatus StatusProcessing now t
  = mkTask (ID t) (Title t) (Description t) StatusProcessing (CreatedAt t)
           (Some now) (CompletedAt t)
           (GoTime.Duration_String
              (GoTime.Sub (match CompletedAt t with
                           | Some completed => completed
                           | None => now
                           end) now))
           (Result t) (Error t).
Proof. destruct t. reflexivity. Qed.

Lemma UpdateStatus_Completed_shape (now started : GoTime.Time) (t : Task) :
  StartedAt t = Some started ->
  UpdateStatus StatusCompleted now t
  = mkTask (ID t) (Title t) (Description t) StatusCompleted (CreatedAt t)
           (Some started) (Some now)
           (GoTime.Duration_String (GoTime.Sub now started))
           (Result t) (Error t).
Proof. destruct t. cbn. intros ->. reflexivity. Qed.

Lemma lifecycle_mono (now now' : GoTime.Time) (t : Task) :
  now <= now' -> lifecycle now t -> lifecycle now' t.
Proof.
  intros Hle (He & [Hp | [(Hs & (st & Hst & Hle1) & Hr) | (Hs & (st & c & Hst & Hc & Hle1 & Hd) & Hr)]]).
  - split; auto.
  - split; [exact He|]. right. left. split; [exact Hs|]. split; [|exact Hr].
    exists st. split; [exact Hst|lia].
  - split; [exact He|]. right. right. split; [exact Hs|]. split; [|exact Hr].
    exists st, c. repeat split; auto; lia.
Qed.

Lemma lifecycle_Pending (now : GoTime.Time) (t : Task) :
  lifecycle now t -> Status t = StatusPending ->
  Error t = ""%string /\ StartedAt t = None /\ CompletedAt t = None
  /\ Result t = ""%string.
Proof.
  intros (He & [(_ & H1 & H2 & H3 & _) | [(Hs & _) | (Hs & _)]]) Hst;
    [auto|congruence|congruence].
Qed.

Lemma lifecycle_Processing (now : GoTime.Time) (t : Task) :
  lifecycle now t -> Status t = StatusProcessing ->
  Error t = ""%string /\ CompletedAt t = None /\ Result t = ""%string
  /\ exists started, StartedAt t = Some started /\ started <= now.
Proof.
  intros (He & [(Hs & _) | [(_ & H1 & H2 & H3) | (Hs & _)]]) Hst;
    [congruence|auto|congruence].
Qed.

(** Step 2 turns a Pending task into a Processing one, step 4 a Processing
    task into a Completed one. *)
Lemma lifecycle_begin (now : GoTime.Time) (t : Task) :
  lifecycle now t -> Status t = StatusPending ->
  lifecycle now (UpdateStatus StatusProcessing now t)
  /\ Status (UpdateStatus StatusProcessing now t) = StatusProcessing.
Proof.
  intros Hl Hst. destruct (lifecycle_Pending _ _ Hl Hst) as (He & Hs & Hc & Hr).
  rewrite UpdateStatus_Processing_shape. split; [|reflexivity].
  split; [exact He|]. right. left. cbn. repeat split; auto.
  exists now. split; [reflexivity|lia].
Qed.

Lemma lifecycle_complete (now : GoTime.Time) (t : Task) :
  lifecycle now t -> Status t = StatusProcessing ->
  lifecycle now (set_Result "Task completed successfully"
                   (UpdateStatus StatusCompleted now t)).
Proof.
  intros Hl Hst.
  destruct (lifecycle_Processing _ _ Hl Hst) as (He & Hc & Hr & started & Hs & Hle).
  rewrite (UpdateStatus_Completed_shape now started t Hs).
  split; [exact He|]. right. right. cbn. repeat split.
  exists started, now. repeat split; auto; lia.
Qed.

Lemma chan_recv_tail (q q' : Chan) (x : loc) :
  chan_recv q = Some (x, q') ->
  buf q ++ sendq q = x :: (buf q' ++ sendq q').
Proof.
  unfold chan_recv. destruct (buf q) as [|y rest]; [discriminate|].
  destruct (sendq q) as [|z parked]; intros [= <- <-]; cbn.
  - reflexivity.
  - rewrite <- app_assoc. reflexivity.
Qed.

(** The queue after the select of CreateTask. *)
Lemma enqueue_cases (ctx : Context) (pick : SelectCase) (task : loc) (w : World) :
  heap (enqueue ctx pick task w).2 = heap w
  /\ repo (enqueue ctx pick task w).2 = repo w
  /\ clock (enqueue ctx pick task w).2 = clock w
  /\ taskCounter (enqueue ctx pick task w).2 = taskCounter w
  /\ workerCount (enqueue ctx pick task w).2 = workerCount w
  /\ ((taskQueue (enqueue ctx pick task w).2 = taskQueue w
       /\ exists err, (enqueue ctx pick task w).1 = Returned (inr err))
      \/ (send_ready (taskQueue w) = true
          /\ taskQueue (enqueue ctx pick task w).2 = chan_send task (taskQueue w)
          /\ (enqueue ctx pick task w).1 = Returned (inl task))
      \/ (send_ready (taskQueue w) = false /\ ctx = None
          /\ taskQueue (enqueue ctx pick task w).2 = chan_park task (taskQueue w)
          /\ (enqueue ctx pick task w).1 = ParkedInSend task)).
Proof.
  unfold enqueue.
  destruct (send_ready (taskQueue w)), ctx as [cerr|]; try destruct pick;
    cbn; repeat split;
    first [ left; split; [reflexivity|eexists; reflexivity]
          | right; left; repeat split; reflexivity
          | right; right; repeat split; reflexivity ].
Qed.

Lemma created_scalars (title description : string) (w : World) :
  clock (created title description w) = clock w
  /\ taskCounter (created title description w) = wrap_uint64 (taskCounter w + 1)
  /\ workerCount (created title description w) = workerCount w
  /\ processingDelay (created title description w) = processingDelay w.
Proof.
  unfold created, alloc_NewTask, repo_CreateTask.
  cbn [NewTask generateTaskID heap repo set_heap set_taskCounter].
  rewrite CreateTask_eq. repeat split.
Qed.

Lemma lookup_insert_worker (ws : list WorkerPC) (i k : nat) (pc pc' pck : WorkerPC) :
  ws !! i = Some pc -> <[i := pc']> ws !! k = Some pck ->
  (k = i /\ pck = pc') \/ (k <> i /\ ws !! k = Some pck).
Proof.
  intros Hi Hk. destruct (decide (i = k)) as [<-|Hne].
  - rewrite list_lookup_insert_eq in Hk by (eapply lookup_lt_Some; eauto).
    left. split; congruence.
  - rewrite list_lookup_insert_ne in Hk by congruence. right. split; congruence.
Qed.

(** The store stays keyed by the ids written in the tasks when the ids in
    the heap do not change and the store at most takes a task under the id
    written in it. *)
Lemma keyed_preserved (h h' : gmap loc Task) (m m' : gmap string loc) (q : loc) :
  (forall id p, m !! id = Some p -> exists t, h !! p = Some t /\ ID t = id) ->
  (forall p t, h !! p = Some t -> exists t', h' !! p = Some t' /\ ID t' = ID t) ->
  (m' = m \/ (is_Some (h' !! q) /\ m' = <[ ID (h' !!! q) := q ]> m)) ->
  forall id p, m' !! id = Some p -> exists t, h' !! p = Some t /\ ID t = id.
Proof.
  intros Hk Hh Hm id p Hl.
  assert (Hold : m !! id = Some p -> exists t, h' !! p = Some t /\ ID t = id).
  { intros Ho. destruct (Hk id p Ho) as (t & Ht & Hid).
    destruct (Hh p t Ht) as (t' & Ht' & Hid'). exists t'. split; congruence. }
  destruct Hm as [-> | [[tq Hq] ->]]; [auto|].
  destruct (decide (ID (h' !!! q) = id)) as [Heq|Hne].
  - rewrite Heq, lookup_insert_eq in Hl. inversion Hl. subst p.
    exists tq. split; [exact Hq|]. rewrite (lookup_total_correct _ _ _ Hq) in Heq.
    exact Heq.
  - rewrite lookup_insert_ne in Hl by exact Hne. auto.
Qed.

End lifecycle_facts.

(** ** The invariant of tasks, queue, workers and store *)

Section Good_facts.
Import GoInt model service worker.

Lemma Good_quiet (s : Sys) (i : nat) (pc pc' : WorkerPC) (w' : World) :
  Good s -> workers s !! i = Some pc ->
  quiet_step pc pc' (world s) w' -> clock w' = clock (world s) ->
  Good {| world := w'; workers := <[i := pc']> (workers s) |}.
Proof.
  intros [G1 G2 G3 G4 G5] Hpc (Hh & Hr & Hq & Hheld) Hc.
  assert (Hold : forall k pck p,
             <[i := pc']> (workers s) !! k = Some pck -> held pck = Some p ->
             exists pck0, workers s !! k = Some pck0 /\ held pck0 = Some p).
  { intros k pck p Hk Hkp.
    destruct (lookup_insert_worker _ _ _ _ _ _ Hpc Hk) as [[-> ->] | [Hne Hk']].
    - exists pc. split; [exact Hpc|]. destruct Hheld as [He|He]; congruence.
    - eauto. }
  constructor; cbn [world workers]; unfold queued in *.
  - rewrite Hh, Hc. exact G1.
  - rewrite Hq. exact G2.
  - intros p Hp. rewrite Hq in Hp. rewrite Hh. apply G3, Hp.
  - intros j pcj p Hj Hp.
    destruct (Hold j pcj p Hj Hp) as (pc0 & Hj0 & Hp0).
    destruct (G4 j pc0 p Hj0 Hp0) as (Hnq & Ht & Huniq).
    split; [rewrite Hq; exact Hnq|]. split; [rewrite Hh; exact Ht|].
    intros k pck Hk Hkp. destruct (Hold k pck p Hk Hkp) as (pck0 & Hk0 & Hkp0).
    eapply Huniq; eauto.
  - rewrite Hr, Hh. exact G5.
Qed.

Lemma Good_complete (s : Sys) (i : nat) (pc pc' : WorkerPC) (w' : World) :
  Good s -> workers s !! i = Some pc ->
  complete_step pc pc' (world s) w' ->
  Good {| world := w'; workers := <[i := pc']> (workers s) |}.
Proof.
  intros [G1 G2 G3 G4 G5] Hpc (task & -> & Hct).
  destruct (complete_task_cases task (world s))
    as (Hh & Hq & Hc & _ & _ & _ & Hpc' & Hrepo).
  rewrite <- Hct in Hh, Hq, Hc, Hpc', Hrepo. cbn [fst snd] in Hh, Hq, Hc, Hpc', Hrepo.
  subst pc'.
  destruct (G4 i _ task Hpc eq_refl) as (Hnq & (t & Ht & Hst) & Huniq).
  assert (Hother : forall p, p <> task -> heap w' !! p = heap (world s) !! p).
  { intros p Hp. rewrite Hh, !lookup_alter_ne by congruence. reflexivity. }
  assert (Htask : heap w' !! task
                  = Some (set_Result "Task completed successfully"
                            (UpdateStatus StatusCompleted (clock (world s)) t))).
  { rewrite Hh, !lookup_alter_eq, Ht. reflexivity. }
  assert (Hold : forall k pck p,
             <[i := AtLoopHead]> (workers s) !! k = Some pck -> held pck = Some p ->
             k <> i /\ workers s !! k = Some pck /\ p <> task).
  { intros k pck p Hk Hkp.
    destruct (lookup_insert_worker _ _ _ _ _ _ Hpc Hk) as [[-> ->] | [Hne Hk']];
      [discriminate|].
    split; [exact Hne|]. split; [exact Hk'|]. intros ->. apply Hne.
    eapply Huniq; eauto. }
  constructor; cbn [world workers]; unfold queued in *.
  - intros p t' Hp. rewrite Hc. destruct (decide (p = task)) as [->|Hne].
    + rewrite Htask in Hp. inversion Hp. apply lifecycle_complete; eauto.
    + rewrite Hother in Hp by exact Hne. eauto.
  - rewrite Hq. exact G2.
  - intros p Hp. rewrite Hq in Hp. rewrite Hother; [apply G3, Hp|].
    intros ->. apply Hnq, Hp.
  - intros j pcj p Hj Hp. destruct (Hold j pcj p Hj Hp) as (Hne & Hj0 & Hpt).
    destruct (G4 j pcj p Hj0 Hp) as (Hnq' & Ht' & Huniq').
    split; [rewrite Hq; exact Hnq'|]. split; [rewrite Hother by exact Hpt; exact Ht'|].
    intros k pck Hk Hkp. destruct (Hold k pck p Hk Hkp) as (_ & Hk0 & _).
    eapply Huniq'; eauto.
  - apply (keyed_preserved (heap (world s)) (heap w')
             (repository.tasks (repo (world s))) _ task G5).
    + intros p t0 Hp. destruct (decide (p = task)) as [->|Hne].
      * rewrite Htask. eexists. split; [reflexivity|].
        assert (t0 = t) by congruence. subst t0.
        apply (UpdateStatus_ID StatusCompleted).
      * rewrite Hother by exact Hne. eauto.
    + destruct Hrepo as [[_ ->] | [_ ->]]; [left; reflexivity|].
      right. split; [rewrite Htask; eauto|reflexivity].
Qed.

Lemma Good_begin (s : Sys) (i : nat) (pc pc' : WorkerPC) (w' : World) :
  Good s -> workers s !! i = Some pc ->
  begin_step pc pc' (world s) w' ->
  Good {| world := w'; workers := <[i := pc']> (workers s) |}.
Proof.
  intros [G1 G2 G3 G4 G5] Hpc (-> & task & q' & Hrecv & Hbp).
  destruct (begin_processing_cases task (set_taskQueue q' (world s)))
    as (Hh & Hq & Hc & _ & _ & _ & Hrepo).
  rewrite <- Hbp in Hh, Hq, Hc, Hrepo.
  cbn [fst snd heap taskQueue clock repo processingDelay set_taskQueue]
    in Hh, Hq, Hc, Hrepo.
  pose proof (chan_recv_tail _ _ _ Hrecv) as Htail.
  rewrite Htail in G2. apply NoDup_cons in G2 as [Hnotin G2].
  assert (Hqold : queued (world s) task).
  { unfold queued. rewrite Htail. apply list_elem_of_here. }
  assert (Hsub : forall p, p ∈ buf q' ++ sendq q' -> queued (world s) p /\ p <> task).
  { intros p Hp. split; [unfold queued; rewrite Htail; apply list_elem_of_further, Hp|].
    intros ->. contradiction. }
  destruct (G3 task Hqold) as (t & Ht & Hst).
  destruct (lifecycle_begin _ _ (G1 _ _ Ht) Hst) as (Hlt & Hst').
  assert (Hother : forall p, p <> task -> heap w' !! p = heap (world s) !! p).
  { intros p Hp. rewrite Hh, lookup_alter_ne by congruence. reflexivity. }
  assert (Htask : heap w' !! task
                  = Some (UpdateStatus StatusProcessing (clock (world s)) t)).
  { rewrite Hh, lookup_alter_eq, Ht. reflexivity. }
  assert (Hheld' : forall p, held pc' = Some p -> p = task).
  { intros p Hp. destruct Hrepo as [(_ & _ & ->) | (_ & _ & ->)]; cbn in Hp; congruence. }
  constructor; cbn [world workers]; unfold queued in *.
  - intros p t' Hp. rewrite Hc. destruct (decide (p = task)) as [->|Hne].
    + rewrite Htask in Hp. inversion Hp. exact Hlt.
    + rewrite Hother in Hp by exact Hne. eauto.
  - rewrite Hq. exact G2.
  - intros p Hp. rewrite Hq in Hp. destruct (Hsub p Hp) as [Hpq Hne].
    rewrite Hother by exact Hne. apply G3, Hpq.
  - intros j pcj p Hj Hp. rewrite Hq.
    destruct (lookup_insert_worker _ _ _ _ _ _ Hpc Hj) as [[-> ->] | [Hne Hj0]].
    + pose proof (Hheld' p Hp) as ->.
      split; [exact Hnotin|]. split; [rewrite Htask; eauto|].
      intros k pck Hk Hkp.
      destruct (lookup_insert_worker _ _ _ _ _ _ Hpc Hk) as [[-> _] | [Hnek Hk0]];
        [reflexivity|].
      destruct (G4 k pck task Hk0 Hkp) as (Hnq & _). contradiction.
    + destruct (G4 j pcj p Hj0 Hp) as (Hnq & Ht' & Huniq).
      assert (Hpt : p <> task) by (intros ->; contradiction).
      split; [intros Hin; apply Hnq, (Hsub p Hin)|].
      split; [rewrite Hother by exact Hpt; exact Ht'|].
      intros k pck Hk Hkp.
      destruct (lookup_insert_worker _ _ _ _ _ _ Hpc Hk) as [[-> ->] | [Hnek Hk0]].
      * exfalso. apply Hpt, Hheld', Hkp.
      * eapply Huniq; eauto.
  - apply (keyed_preserved (heap (world s)) (heap w')
             (repository.tasks (repo (world s))) _ task G5).
    + intros p t0 Hp. destruct (decide (p = task)) as [->|Hne].
      * rewrite Htask. eexists. split; [reflexivity|].
        assert (t0 = t) by congruence. subst t0.
        apply (UpdateStatus_ID StatusProcessing).
      * rewrite Hother by exact Hne. eauto.
    + destruct Hrepo as [(_ & -> & _) | (_ & -> & _)]; [left; reflexivity|].
      right. split; [rewrite Htask; eauto|reflexivity].
Qed.

Lemma Good_create (s : Sys) (ctx : Context) (req : CreateTaskRequest)
    (pick : SelectCase) :
  Good s ->
  Good {| world := (CreateTask ctx req pick (world s)).2; workers := workers s |}.
Proof.
  intros [G1 G2 G3 G4 G5]. rewrite CreateTask_eq_enqueue.
  set (p0 := new_loc (heap (world s))).
  set (w1 := created (req_Title req) (req_Description req) (world s)).
  destruct (enqueue_cases ctx pick p0 w1) as (Hh & Hr & Hc & _ & _ & Hqc).
  destruct (created_queue (req_Title req) (req_Description req) (world s)) as (Hq1 & _).
  destruct (created_scalars (req_Title req) (req_Description req) (world s))
    as (Hc1 & _).
  pose proof (created_heap (req_Title req) (req_Description req) (world s)) as Hh1.
  pose proof (created_repo (req_Title req) (req_Description req) (world s)) as Hr1.
  fold w1 in Hq1, Hc1, Hh1, Hr1. fold p0 in Hh1, Hr1.
  pose proof (new_loc_fresh (heap (world s))) as Hfresh. fold p0 in Hfresh.
  set (w2 := (enqueue ctx pick p0 w1).2) in *.
  assert (Hother : forall p t, heap (world s) !! p = Some t -> heap w2 !! p = Some t).
  { intros p t Hp. rewrite Hh, Hh1, lookup_insert_ne; [exact Hp|]. congruence. }
  assert (Hnew : exists t0, heap w2 !! p0 = Some t0 /\ Status t0 = StatusPending
                            /\ ID t0 = strconv.FormatInt
                                         (repository.nextID (repo (world s)))
                            /\ lifecycle (clock (world s)) t0).
  { eexists. rewrite Hh, Hh1, lookup_insert_eq. split; [reflexivity|].
    split; [reflexivity|]. split; [reflexivity|].
    split; [reflexivity|]. left. repeat split. }
  assert (Hnq0 : ~ queued (world s) p0).
  { intros Hin. destruct (G3 p0 Hin) as (t & Ht & _). congruence. }
  assert (Hqsub : forall p, queued w2 p -> p = p0 \/ queued (world s) p).
  { unfold queued. intros p Hp.
    destruct Hqc as [[Hq _] | [(_ & Hq & _) | (_ & _ & Hq & _)]];
      rewrite Hq in Hp; cbn [chan_send chan_park buf sendq] in Hp;
      rewrite ?Hq1 in Hp;
      repeat (rewrite elem_of_app in Hp || rewrite elem_of_cons in Hp
              || rewrite elem_of_nil in Hp);
      rewrite elem_of_app; tauto. }
  constructor; cbn [world workers].
  - intros p t Hp. rewrite Hc, Hc1.
    destruct (decide (p = p0)) as [->|Hne].
    + destruct Hnew as (t0 & Ht0 & _ & _ & Hl). congruence.
    + rewrite Hh, Hh1, lookup_insert_ne in Hp by congruence. eauto.
  - destruct Hqc as [[Hq _] | [(_ & Hq & _) | (_ & _ & Hq & _)]];
      rewrite Hq; cbn [chan_send chan_park buf sendq]; rewrite ?Hq1.
    + exact G2.
    + rewrite <- app_assoc. cbn [app].
      apply NoDup_app in G2 as (Hb & Hbs & Hs).
      apply NoDup_app. split; [exact Hb|]. split.
      * intros x Hx Hin. apply elem_of_cons in Hin as [-> | Hin];
          [apply Hnq0, elem_of_app; auto|eapply Hbs; eauto].
      * apply NoDup_cons. split; [|exact Hs].
        intros Hin. apply Hnq0, elem_of_app. auto.
    + rewrite app_assoc. apply NoDup_app. split; [exact G2|]. split.
      * intros x Hx Hin. apply list_elem_of_singleton in Hin as ->. apply Hnq0, Hx.
      * apply NoDup_singleton.
  - intros p Hp. destruct (Hqsub p Hp) as [-> | Hold].
    + destruct Hnew as (t0 & Ht0 & Hst & _). eauto.
    + destruct (G3 p Hold) as (t & Ht & Hst). eauto.
  - intros j pcj p Hj Hp. destruct (G4 j pcj p Hj Hp) as (Hnq & (t & Ht & Hst) & Huniq).
    split; [|split; [eauto|exact Huniq]].
    intros Hin. destruct (Hqsub p Hin) as [-> | Hold]; [congruence|contradiction].
  - intros id p Hl. rewrite Hr, Hr1 in Hl. cbn [repository.tasks] in Hl.
    destruct (decide (strconv.FormatInt (repository.nextID (repo (world s))) = id))
      as [<-|Hne].
    + rewrite lookup_insert_eq in Hl. inversion Hl. subst p.
      destruct Hnew as (t0 & Ht0 & _ & Hid & _). eauto.
    + rewrite lookup_insert_ne in Hl by exact Hne.
      destruct (G5 id p Hl) as (t & Ht & Hid). eauto.
Qed.

(** What the remaining events do to the store and to the clock. *)
Lemma other_events_store (e : Event) (s s' : Sys) :
  sys_step e s = Some s' ->
  match e with EvWorker _ _ | EvCreateTask _ _ _ => False | _ => True end ->
  (forall id p, repository.tasks (repo (world s')) !! id = Some p ->
                repository.tasks (repo (world s)) !! id = Some p)
  /\ repository.nextID (repo (world s')) = repository.nextID (repo (world s))
  /\ taskCounter (world s') = taskCounter (world s)
  /\ clock (world s) <= clock (world s')
  /\ (1 <= workerCount (world s) -> 1 <= workerCount (world s')).
Proof.
  intros H He.
  destruct e; cbn in He; try contradiction; cbn [sys_step] in H; clear He.
  - inversion H. cbn. repeat split; auto; lia.
  - inversion H. cbn [world].
    destruct (GetTask_world id (world s)) as (_ & _ & _ & _ & ->).
    unfold GetTask. destruct (strconv.ParseInt id) as [n [e|]];
      [|destruct (repository.GetTask id (repo (world s)))]; cbn; repeat split; auto; lia.
  - inversion H. cbn [world]. unfold DeleteTask.
    destruct (strconv.ParseInt id) as [n [e|]]; [cbn; repeat split; auto; lia|].
    unfold repository.DeleteTask.
    destruct (repository.tasks (repo (world s)) !! id) eqn:E; cbn;
      repeat split; auto; try lia.
    intros id' p Hl. apply lookup_delete_Some in Hl as [_ Hl]. exact Hl.
  - destruct (Shutdown_signal (world s)) as [w'|] eqn:Hs; [|discriminate].
    inversion H. cbn [world]. unfold Shutdown_signal in Hs.
    cbn [shutdownClosed log] in Hs. destruct (shutdownClosed (world s)); [discriminate|].
    inversion Hs. cbn. repeat split; auto; lia.
  - inversion H. cbn. repeat split; auto; lia.
  - inversion H. cbn. repeat split; auto; lia.
  - inversion H. cbn. repeat split; auto; try lia.
    intros _. destruct (count <? 1) eqn:E; [lia|]. apply Z.ltb_ge in E. lia.
  - destruct (Z.ltb_spec d 0); [discriminate|]. inversion H. cbn.
    repeat split; auto; lia.
Qed.

Lemma Good_other (e : Event) (s s' : Sys) :
  Good s -> sys_step e s = Some s' ->
  match e with EvWorker _ _ | EvCreateTask _ _ _ => False | _ => True end ->
  Good s'.
Proof.
  intros [G1 G2 G3 G4 G5] H He.
  destruct (other_events_world _ _ _ H He) as (Hh & Hq & Hw & _).
  destruct (other_events_store _ _ _ H He) as (Hsub & _ & _ & Hclock & _).
  constructor; unfold queued in *.
  - intros p t Hp. rewrite Hh in Hp. eapply lifecycle_mono; eauto.
  - rewrite Hq. exact G2.
  - intros p Hp. rewrite Hq in Hp. rewrite Hh. apply G3, Hp.
  - intros j pcj p Hj Hp. rewrite Hw in Hj. rewrite Hq, Hh.
    destruct (G4 j pcj p Hj Hp) as (Hnq & Ht & Huniq).
    split; [exact Hnq|]. split; [exact Ht|].
    intros k pck Hk Hkp. rewrite Hw in Hk. eapply Huniq; eauto.
  - intros id p Hl. rewrite Hh. apply G5, Hsub, Hl.
Qed.

Lemma sys_step_Good (e : Event) (s s' : Sys) :
  Good s -> sys_step e s = Some s' -> Good s'.
Proof.
  intros HG H.
  destruct e as [i pick|ctx req pick| | | | | | | |];
    try (eapply Good_other; [exact HG|exact H|exact I]).
  - cbn [sys_step] in H.
    destruct (workers s !! i) as [pc|] eqn:Hpc; [|discriminate].
    destruct (worker_step (Z.of_nat i) pick pc (world s)) as [[pc' w']|] eqn:Hstep;
      [|discriminate].
    inversion H. subst s'.
    destruct (worker_step_cases _ _ _ _ _ _ Hstep) as ((Hc & _) & [Hq | [Hb | Hcm]]).
    + eapply Good_quiet; eauto.
    + eapply Good_begin; eauto.
    + eapply Good_complete; eauto.
  - cbn [sys_step] in H. inversion H. apply Good_create, HG.
Qed.

Lemma run_invariant (P : Sys -> Prop) :
  (forall e s s', P s -> sys_step e s = Some s' -> P s') ->
  forall es s s', P s -> run es s = Some s' -> P s'.
Proof.
  intros Hstep. induction es as [|e es IH]; intros s s' HP H; cbn [run] in H.
  - inversion H. subst. exact HP.
  - destruct (sys_step e s) as [s1|] eqn:E; [|discriminate]. eauto.
Qed.

Lemma init_Good (now : GoTime.Time) : Good (init now).
Proof.
  constructor; cbn.
  - intros p t Hp. rewrite lookup_empty in Hp. discriminate.
  - apply NoDup_nil_2.
  - intros p Hp. unfold queued in Hp. cbn in Hp. apply elem_of_nil in Hp. contradiction.
  - intros i pc p Hi Hp.
    destruct i as [|[|[|[|[|i]]]]]; cbn in Hi; inversion Hi; subst; discriminate.
  - intros id p Hl. rewrite lookup_empty in Hl. discriminate.
Qed.

Lemma reachable_Good (s : Sys) : reachable s -> Good s.
Proof.
  intros (now & es & Hrun).
  exact (run_invariant Good sys_step_Good es _ _ (init_Good now) Hrun).
Qed.

End Good_facts.

(** ** Counters, queue bound and pool *)

Section Sized_facts.
Import GoInt model service worker.

Lemma wrap_int64_succ_wrap (c : Z) :
  wrap_int64 (wrap_int64 (c + 1) + 1) = wrap_int64 (wrap_uint64 (c + 1) + 1).
Proof.
  unfold wrap_int64, wrap_uint64. f_equal.
  replace ((c + 1 + 9223372036854775808) mod 18446744073709551616
           - 9223372036854775808 + 1 + 9223372036854775808)
    with ((c + 1 + 9223372036854775808) mod 18446744073709551616 + 1) by lia.
  replace ((c + 1) mod 18446744073709551616 + 1 + 9223372036854775808)
    with ((c + 1) mod 18446744073709551616 + (1 + 9223372036854775808)) by lia.
  rewrite !Zplus_mod_idemp_l. f_equal. lia.
Qed.

Lemma worker_step_nextID (workerID : Z) (pick : SelectCase) (pc pc' : WorkerPC)
    (w w' : World) :
  worker_step workerID pick pc w = Some (pc', w') ->
  repository.nextID (repo w') = repository.nextID (repo w).
Proof.
  intros H. destruct (worker_step_cases _ _ _ _ _ _ H) as (_ & [Hq | [Hb | Hc]]).
  - destruct Hq as (_ & -> & _). reflexivity.
  - destruct Hb as (_ & task & q' & _ & Hbp).
    destruct (begin_processing_cases task (set_taskQueue q' w))
      as (_ & _ & _ & _ & _ & _ & Hrepo).
    rewrite <- Hbp in Hrepo. cbn [fst snd repo set_taskQueue] in Hrepo.
    destruct Hrepo as [(_ & -> & _) | (_ & -> & _)]; reflexivity.
  - destruct Hc as (task & _ & Hct).
    destruct (complete_task_cases task w) as (_ & _ & _ & _ & _ & _ & _ & Hrepo).
    rewrite <- Hct in Hrepo. cbn [fst snd] in Hrepo.
    destruct Hrepo as [(_ & ->) | (_ & ->)]; reflexivity.
Qed.

Lemma worker_step_queue (workerID : Z) (pick : SelectCase) (pc pc' : WorkerPC)
    (w w' : World) :
  worker_step workerID pick pc w = Some (pc', w') ->
  taskQueue w' = taskQueue w
  \/ exists task, chan_recv (taskQueue w) = Some (task, taskQueue w').
Proof.
  intros H. destruct (worker_step_cases _ _ _ _ _ _ H) as (_ & [Hq | [Hb | Hc]]).
  - left. apply Hq.
  - destruct Hb as (_ & task & q' & Hrecv & Hbp).
    destruct (begin_processing_cases task (set_taskQueue q' w)) as (_ & Hq & _).
    rewrite <- Hbp in Hq. cbn [snd taskQueue set_taskQueue] in Hq.
    right. exists task. rewrite Hq. exact Hrecv.
  - destruct Hc as (task & _ & Hct).
    destruct (complete_task_cases task w) as (_ & Hq & _).
    rewrite <- Hct in Hq. left. exact Hq.
Qed.

Lemma chan_recv_bounded (q q' : Chan) (x : loc) :
  chan_recv q = Some (x, q') ->
  (length (buf q) <= queue_cap)%nat /\ (sendq q <> [] -> length (buf q) = queue_cap) ->
  (length (buf q') <= queue_cap)%nat /\ (sendq q' <> [] -> length (buf q') = queue_cap).
Proof.
  unfold chan_recv. destruct (buf q) as [|y rest]; [discriminate|].
  destruct (sendq q) as [|z parked]; intros [= <- <-] [Hle Hfull]; cbn in *.
  - split; [lia|congruence].
  - specialize (Hfull ltac:(discriminate)).
    rewrite length_app. cbn. split; [lia|intros _; lia].
Qed.

Lemma sys_step_Sized (e : Event) (s s' : Sys) :
  Sized s -> sys_step e s = Some s' -> Sized s'.
Proof.
  intros [S1 [S2 S2'] [S3 S3'] [S4 S4']] H.
  destruct e as [i pick|ctx req pick| | | | | | | |];
    try (destruct (other_events_world _ _ _ H I) as (_ & Hq & Hw & _);
         destruct (other_events_store _ _ _ H I) as (_ & Hid & Ht & _ & Hn);
         constructor; rewrite ?Hid, ?Ht, ?Hq, ?Hw; auto; fail).
  - cbn [sys_step] in H.
    destruct (workers s !! i) as [pc|] eqn:Hpc; [|discriminate].
    destruct (worker_step (Z.of_nat i) pick pc (world s)) as [[pc' w']|] eqn:Hstep;
      [|discriminate].
    inversion H. subst s'. clear H.
    destruct (worker_step_cases _ _ _ _ _ _ Hstep) as ((_ & Ht & _ & Hn) & _).
    pose proof (worker_step_nextID _ _ _ _ _ _ Hstep) as Hid.
    constructor; cbn [world workers].
    + rewrite Hid. exact S1.
    + rewrite Hid, Ht. auto.
    + destruct (worker_step_queue _ _ _ _ _ _ Hstep) as [-> | [task Hrecv]]; [auto|].
      eapply chan_recv_bounded; eauto.
    + rewrite length_insert, Hn. auto.
  - cbn [sys_step] in H. inversion H. subst s'. clear H.
    rewrite CreateTask_eq_enqueue.
    set (p0 := new_loc (heap (world s))).
    set (w1 := created (req_Title req) (req_Description req) (world s)).
    destruct (enqueue_cases ctx pick p0 w1) as (_ & Hr & _ & Ht & Hn & Hqc).
    destruct (created_queue (req_Title req) (req_Description req) (world s))
      as (Hq1 & _).
    destruct (created_scalars (req_Title req) (req_Description req) (world s))
      as (_ & Ht1 & Hn1 & _).
    pose proof (created_repo (req_Title req) (req_Description req) (world s)) as Hr1.
    fold w1 in Hq1, Ht1, Hn1, Hr1.
    constructor; cbn [world workers].
    + rewrite Hr, Hr1. cbn. apply wrap_int64_range.
    + rewrite Hr, Hr1, Ht, Ht1. cbn [repository.nextID]. split.
      * unfold wrap_uint64, maxUint64.
        pose proof (Z.mod_pos_bound (taskCounter (world s) + 1) 18446744073709551616
                      ltac:(lia)). lia.
      * rewrite S2'. apply wrap_int64_succ_wrap.
    + destruct Hqc as [[Hq _] | [(Hready & Hq & _) | (Hready & _ & Hq & _)]];
        rewrite Hq; cbn [chan_send chan_park buf sendq]; rewrite ?Hq1.
      * auto.
      * unfold send_ready in Hready. rewrite Hq1 in Hready.
        apply bool_decide_eq_true in Hready. rewrite length_app. cbn.
        split; [lia|]. intros Hne. specialize (S3' Hne). lia.
      * unfold send_ready in Hready. rewrite Hq1 in Hready.
        apply bool_decide_eq_false in Hready. split; [exact S3|]. intros _. lia.
    + rewrite Hn, Hn1. auto.
Qed.

Lemma init_Sized (now : GoTime.Time) : Sized (init now).
Proof.
  constructor; cbn.
  - unfold is_int64, minInt64, maxInt64. lia.
  - unfold maxUint64. split; [lia|reflexivity].
  - unfold queue_cap. split; [lia|congruence].
  - split; [reflexivity|lia].
Qed.

Lemma reachable_Sized (s : Sys) : reachable s -> Sized s.
Proof.
  intros (now & es & Hrun).
  exact (run_invariant Sized sys_step_Sized es _ _ (init_Sized now) Hrun).
Qed.

End Sized_facts.

(** ** What holds in every state of the process *)

Section process_facts.
Import GoInt model service worker.

Lemma reachable_run (s s' : Sys) (es : list Event) :
  reachable s -> run es s = Some s' -> reachable s'.
Proof.
  intros (now & es0 & H0) H. exists now, (es0 ++ es).
  revert H0. generalize (init now). induction es0 as [|e es0 IH]; intros s0 H0.
  - cbn in *. inversion H0. subst. exact H.
  - cbn [app run] in *. destruct (sys_step e s0); [auto|discriminate].
Qed.



(** X2: the Duration of a task of the process is never negative, when read
    at the clock of the process or later. *)
Theorem Duration_never_negative (s : Sys) (p : loc) (t : Task) (now : GoTime.Time) :
  reachable s -> heap (world s) !! p = Some t -> clock (world s) <= now ->
  0 <= Duration t now.
Proof.
  intros Hr Hp Hnow.
  destruct (good_lifecycle s (reachable_Good s Hr) p t Hp)
    as (_ & [(_ & Hs & _) | [(_ & (st & Hs & Hle) & Hc & _)
                            | (_ & (st & c & Hs & Hc & Hle & _) & _)]]);
    unfold Duration; rewrite Hs; [lia| |]; rewrite Hc;
    apply Milliseconds_nonneg, Sub_nonneg; lia.
Qed.

Lemma Duration_never_negative_witness :
  0 <= Duration (mkTask "1" "T" "D" StatusProcessing 0 (Some 0) None "0s" "" "") 7.
Proof.
  apply (Duration_never_negative before_completion 1%positive).
  - exists 0, run_until_completion. vm_compute. reflexivity.
  - vm_compute. reflexivity.
  - vm_compute. discriminate.
Defined.

(** X3: in every state of the process the store holds each task under the
    id that is written in the task: GetTask of an id returns a task with
    that id, and no task is stored under two ids. *)
Theorem store_keyed_by_task_ID (s : Sys) (id : string) (p : loc) :
  reachable s -> repository.GetTask id (repo (world s)) = inl p ->
  (exists t, heap (world s) !! p = Some t /\ ID t = id)
  /\ forall id', repository.GetTask id' (repo (world s)) = inl p -> id' = id.
Proof.
  intros Hr Hg. pose proof (good_keyed s (reachable_Good s Hr)) as Hk.
  assert (Hget : forall i q, repository.GetTask i (repo (world s)) = inl q ->
                             repository.tasks (repo (world s)) !! i = Some q).
  { intros i q. unfold repository.GetTask.
    destruct (repository.tasks (repo (world s)) !! i); congruence. }
  destruct (Hk id p (Hget _ _ Hg)) as (t & Ht & Hid).
  split; [eauto|]. intros id' Hg'.
  destruct (Hk id' p (Hget _ _ Hg')) as (t' & Ht' & Hid'). congruence.
Qed.

Lemma store_keyed_by_task_ID_witness :
  (exists t, heap (world before_completion) !! 1%positive = Some t /\ ID t = "1"%string)
  /\ forall id', repository.GetTask id' (repo (world before_completion)) = inl 1%positive ->
                 id' = "1"%string.
Proof.
  apply (store_keyed_by_task_ID before_completion "1" 1%positive).
  - exists 0, run_until_completion. vm_compute. reflexivity.
  - vm_compute. reflexivity.
Defined.

(** X4: in every state of the process no task is queued twice, a task that
    a worker holds is not queued, and no two workers hold the same task. *)
Theorem task_with_one_worker (s : Sys) :
  reachable s ->
  NoDup (buf (taskQueue (world s)) ++ sendq (taskQueue (world s)))
  /\ forall i j pci pcj p,
       workers s !! i = Some pci -> held pci = Some p ->
       ~ queued (world s) p
       /\ (workers s !! j = Some pcj -> held pcj = Some p -> j = i).
Proof.
  intros Hr. destruct (reachable_Good s Hr) as [_ G2 _ G4 _].
  split; [exact G2|]. intros i j pci pcj p Hi Hp.
  destruct (G4 i pci p Hi Hp) as (Hnq & _ & Huniq). split; [exact Hnq|].
  intros Hj Hpj. eapply Huniq; eauto.
Qed.

Lemma task_with_one_worker_witness :
  NoDup (buf (taskQueue (world before_completion))
         ++ sendq (taskQueue (world before_completion)))
  /\ forall i j pci pcj p,
       workers before_completion !! i = Some pci -> held pci = Some p ->
       ~ queued (world before_completion) p
       /\ (workers before_completion !! j = Some pcj -> held pcj = Some p -> j = i).
Proof.
  apply (task_with_one_worker before_completion).
  exists 0, run_until_completion. vm_compute. reflexivity.
Defined.

Lemma FormatInt_numeric (i : Z) : is_int64 i -> numeric_id (strconv.FormatInt i).
Proof.
  intros Hi. apply ParseInt_ok_numeric. rewrite ParseInt_FormatInt by exact Hi.
  reflexivity.
Qed.

(** X5: once CreateTask of the service has stored a task, whether it then
    returns the task, returns the cancellation error or is parked, the id
    given by the store is numeric and GetTask of the service with that id
    returns that task, which at that moment is Pending with the title and
    description of the request. *)
Theorem created_task_is_retrievable (s : Sys) (ctx : Context)
    (req : CreateTaskRequest) (pick : SelectCase) :
  reachable s ->
  numeric_id (strconv.FormatInt (repository.nextID (repo (world s))))
  /\ (GetTask (strconv.FormatInt (repository.nextID (repo (world s))))
              (CreateTask ctx req pick (world s)).2).1
     = inl (new_loc (heap (world s)))
  /\ heap (CreateTask ctx req pick (world s)).2 !! new_loc (heap (world s))
     = Some (mkTask (strconv.FormatInt (repository.nextID (repo (world s))))
                    (req_Title req) (req_Description req) StatusPending
                    (clock (world s)) None None "" "" "")
  /\ forall task, (CreateTask ctx req pick (world s)).1 = Returned (inl task) ->
                  task = new_loc (heap (world s)).
Proof.
  intros Hr. pose proof (sized_nextID s (reachable_Sized s Hr)) as Hid.
  pose proof (FormatInt_numeric _ Hid) as Hnum.
  split; [exact Hnum|].
  rewrite CreateTask_eq_enqueue.
  destruct (enqueue_cases ctx pick (new_loc (heap (world s)))
              (created (req_Title req) (req_Description req) (world s)))
    as (Hh & Hrp & _ & _ & _ & Hqc).
  split; [|split].
  - rewrite GetTask_numeric by exact Hnum. rewrite Hrp, created_repo.
    unfold repository.GetTask. cbn [repository.tasks].
    rewrite lookup_insert_eq. reflexivity.
  - rewrite Hh, created_heap. apply lookup_insert_eq.
  - intros task Ht.
    destruct Hqc as [[_ [err He]] | [(_ & _ & He) | (_ & _ & _ & He)]];
      rewrite He in Ht; congruence.
Qed.

Lemma created_task_is_retrievable_witness :
  (GetTask "2" (CreateTask None req_TD CaseSend (world before_completion)).2).1
  = inl (new_loc (heap (world before_completion))).
Proof.
  destruct (created_task_is_retrievable before_completion None req_TD CaseSend)
    as (_ & H & _).
  - exists 0, run_until_completion. vm_compute. reflexivity.
  - exact H.
Defined.




(** X7: in every state of the process the buffer of the queue holds at
    most 100 tasks, and callers are parked in CreateTask only while it
    holds exactly 100. *)
Theorem queue_never_exceeds_capacity (s : Sys) :
  reachable s ->
  (length (buf (taskQueue (world s))) <= 100)%nat
  /\ (sendq (taskQueue (world s)) <> [] ->
      length (buf (taskQueue (world s))) = 100%nat).
Proof. intros Hr. exact (sized_buffer s (reachable_Sized s Hr)). Qed.

Lemma queue_never_exceeds_capacity_witness :
  (length (buf (taskQueue (world after_shutdown))) <= 100)%nat
  /\ (sendq (taskQueue (world after_shutdown)) <> [] ->
      length (buf (taskQueue (world after_shutdown))) = 100%nat).
Proof.
  apply (queue_never_exceeds_capacity after_shutdown).
  exists 0, run_until_shutdown. vm_compute. reflexivity.
Defined.

(** X8: what CreateTask of the service answers.  It is parked exactly when
    the buffer is full and the caller's context is live.  It returns an
    error only when the caller's context is done, and the queue is then as
    it was.  With room in the buffer and a live context it returns the new
    task and has put it at the back of the buffer. *)
Theorem CreateTask_outcomes (ctx : Context) (req : CreateTaskRequest)
    (pick : SelectCase) (w : World) :
  ((exists task, (CreateTask ctx req pick w).1 = ParkedInSend task)
   <-> (send_ready (taskQueue w) = false /\ ctx = None))
  /\ (forall err, (CreateTask ctx req pick w).1 = Returned (inr err) ->
        ctx <> None /\ taskQueue (CreateTask ctx req pick w).2 = taskQueue w)
  /\ (send_ready (taskQueue w) = true -> ctx = None ->
      (CreateTask ctx req pick w).1 = Returned (inl (new_loc (heap w)))
      /\ buf (taskQueue (CreateTask ctx req pick w).2)
         = buf (taskQueue w) ++ [new_loc (heap w)]).
Proof.
  rewrite CreateTask_eq_enqueue.
  destruct (created_queue (req_Title req) (req_Description req) w) as (Hq & _).
  unfold enqueue. rewrite Hq.
  destruct (send_ready (taskQueue w)), ctx as [cerr|]; try destruct pick;
    cbn [fst snd taskQueue log set_taskQueue chan_send chan_park buf];
    rewrite ?Hq.
  all: split; [split; [intros [task Ht]|intros [H1 H2]]|split; [intros err He|intros H1 H2]].
  all: try discriminate; try (split; [discriminate|reflexivity]); eauto.
Qed.

Lemma CreateTask_outcomes_witness :
  (CreateTask None req_TD CaseSend (world before_completion)).1
  = Returned (inl (new_loc (heap (world before_completion))))
  /\ buf (taskQueue (CreateTask None req_TD CaseSend (world before_completion)).2)
     = buf (taskQueue (world before_completion))
       ++ [new_loc (heap (world before_completion))].
Proof.
  destruct (CreateTask_outcomes None req_TD CaseSend (world before_completion))
    as (_ & _ & H).
  apply H; [vm_compute; reflexivity|reflexivity].
Defined.

(** X9: the number of workers never changes: in every state of the process
    there are the five workers that NewTaskService started, whatever
    SetWorkerCount was given, and the workerCount field is at least 1. *)
Theorem pool_size_fixed (s : Sys) :
  reachable s ->
  length (workers s) = 5%nat /\ 1 <= workerCount (world s).
Proof. intros Hr. exact (sized_pool s (reachable_Sized s Hr)). Qed.

Lemma pool_size_fixed_witness :
  length (workers (default (init 0) (run [EvSetWorkerCount 0] (init 0)))) = 5%nat
  /\ 1 <= workerCount (world (default (init 0) (run [EvSetWorkerCount 0] (init 0)))).
Proof.
  apply (pool_size_fixed (default (init 0) (run [EvSetWorkerCount 0] (init 0)))).
  exists 0, [EvSetWorkerCount 0]. vm_compute. reflexivity.
Defined.

End process_facts.

(** ** The worker loop in the running process *)

Section worker_process_facts.
Import GoInt GoTime model service worker.

Lemma sys_step_shutdownClosed (e : Event) (s s' : Sys) :
  shutdownClosed (world s) = true -> sys_step e s = Some s' ->
  shutdownClosed (world s') = true.
Proof.
  intros Hc H.
  destruct e as [i pick|ctx req pick| |id|id| | |delay|count|d]; cbn [sys_step] in H.
  - destruct (workers s !! i) as [pc|]; [|discriminate].
    destruct (worker_step (Z.of_nat i) pick pc (world s)) as [[pc' w']|] eqn:Hstep;
      [|discriminate].
    inversion H. cbn [world].
    destruct (worker_step_flags _ _ _ _ _ _ Hstep) as [_ Hs]. congruence.
  - inversion H. cbn [world]. rewrite CreateTask_eq_enqueue.
    destruct (enqueue_heap ctx pick (new_loc (heap (world s)))
                (created (req_Title req) (req_Description req) (world s)))
      as (_ & _ & _ & Hs).
    destruct (created_queue (req_Title req) (req_Description req) (world s))
      as (_ & _ & Hs').
    congruence.
  - inversion H. exact Hc.
  - inversion H. cbn [world].
    destruct (GetTask_world id (world s)) as (_ & _ & _ & Hs & _). congruence.
  - inversion H. cbn [world].
    destruct (DeleteTask_world id (world s)) as (_ & _ & _ & Hs). congruence.
  - unfold Shutdown_signal in H. cbn in H. rewrite Hc in H. discriminate.
  - inversion H. exact Hc.
  - inversion H. exact Hc.
  - inversion H. exact Hc.
  - destruct (d <? 0); [discriminate|]. inversion H. exact Hc.
Qed.

(** X10: Shutdown can be called once.  After one call, whatever happens
    next, a second call closes the closed shutdown channel: it panics
    instead of returning. *)
Theorem Shutdown_only_once (s s1 s2 : Sys) (es : list Event) :
  sys_step EvShutdown s = Some s1 -> run es s1 = Some s2 ->
  sys_step EvShutdown s2 = None.
Proof.
  intros H1 Hrun.
  assert (Hc : shutdownClosed (world s1) = true).
  { cbn [sys_step] in H1. unfold Shutdown_signal in H1. cbn in H1.
    destruct (shutdownClosed (world s)); [discriminate|].
    inversion H1. reflexivity. }
  pose proof (run_invariant (fun s => shutdownClosed (world s) = true)
                (fun e s s' => sys_step_shutdownClosed e s s') es s1 s2 Hc Hrun) as Hc2.
  cbn [sys_step]. unfold Shutdown_signal. cbn. cbn in Hc2. rewrite Hc2. reflexivity.
Qed.

Lemma Shutdown_only_once_witness :
  sys_step EvShutdown
    (default (init 0) (run [EvShutdown; EvWorker 0 CaseDefault; EvTick 5] (init 0)))
  = None.
Proof.
  apply (Shutdown_only_once (init 0)
           (default (init 0) (sys_step EvShutdown (init 0)))
           _ [EvWorker 0 CaseDefault; EvTick 5]);
    vm_compute; reflexivity.
Defined.

Lemma UpdateStatus_Processing_Pending (t : Task) (now : Time) :
  StartedAt t = None -> CompletedAt t = None ->
  Result t = ""%string -> Error t = ""%string ->
  UpdateStatus StatusProcessing now t
  = mkTask (ID t) (Title t) (Description t) StatusProcessing (CreatedAt t)
           (Some now) None "0s" "" "".
Proof.
  destruct t as [id ti de st cr sa ca ds re er]. cbn. intros -> -> -> ->.
  unfold UpdateStatus. cbn.
  rewrite Sub_exact by (unfold is_int64, minInt64, maxInt64; lia).
  rewrite Z.sub_diag. reflexivity.
Qed.

Lemma recv_oldest (s : Sys) (task : loc) (rest : list loc) :
  Sized s ->
  buf (taskQueue (world s)) ++ sendq (taskQueue (world s)) = task :: rest ->
  exists q', chan_recv (taskQueue (world s)) = Some (task, q')
             /\ buf q' ++ sendq q' = rest.
Proof.
  intros [_ _ [_ Hfull] _] Hq. unfold chan_recv.
  destruct (buf (taskQueue (world s))) as [|x b] eqn:Hb.
  - destruct (sendq (taskQueue (world s))) as [|y sq]; [discriminate|].
    specialize (Hfull ltac:(discriminate)). discriminate.
  - cbn in Hq. inversion Hq. subst x.
    destruct (sendq (taskQueue (world s))) as [|y sq]; eexists; split; try reflexivity.
    cbn. rewrite <- app_assoc. reflexivity.
Qed.

(** What step 2 does to the oldest queued task of a state of the
    process. *)
Lemma step2_effect (s : Sys) (i : nat) (task : loc) (rest : list loc) :
  Good s -> Sized s -> workers s !! i = Some AtDequeue ->
  buf (taskQueue (world s)) ++ sendq (taskQueue (world s)) = task :: rest ->
  exists s' t,
    sys_step (EvWorker i CaseRecv) s = Some s'
    /\ heap (world s) !! task = Some t
    /\ heap (world s')
       = <[task := mkTask (ID t) (Title t) (Description t) StatusProcessing
                          (CreatedAt t) (Some (clock (world s))) None "0s" "" ""]>
           (heap (world s))
    /\ buf (taskQueue (world s')) ++ sendq (taskQueue (world s')) = rest
    /\ (repository.tasks (repo (world s)) !! ID t = None ->
        workers s' = <[i := AtLoopHead]> (workers s)
        /\ repo (world s') = repo (world s))
    /\ (is_Some (repository.tasks (repo (world s)) !! ID t) ->
        workers s'
        = <[i := AtDelay task (clock (world s) + processingDelay (world s))]> (workers s)
        /\ repo (world s')
           = {| repository.tasks := <[ID t := task]> (repository.tasks (repo (world s)));
                repository.nextID := repository.nextID (repo (world s)) |}).
Proof.
  intros HG HS Hi Hq.
  destruct (recv_oldest s task rest HS Hq) as (q' & Hrecv & Hrest).
  assert (Hqd : queued (world s) task).
  { unfold queued. rewrite Hq. apply elem_of_cons. left. reflexivity. }
  destruct (good_queued s HG task Hqd) as (t & Ht & Hst).
  destruct (good_lifecycle s HG task t Ht)
    as (He & [(_ & Hsa & Hca & Hre & _) | [(Hs' & _) | (Hs' & _)]]);
    try congruence.
  pose proof (UpdateStatus_Processing_Pending t (clock (world s)) Hsa Hca Hre He) as Hup.
  destruct (begin_processing_cases task (set_taskQueue q' (world s)))
    as (Hh & Hqq & _ & _ & _ & _ & Hrepo).
  cbn [heap clock repo processingDelay set_taskQueue taskQueue] in Hh, Hqq, Hrepo.
  assert (Hh' : heap (begin_processing task (set_taskQueue q' (world s))).2
                = <[task := mkTask (ID t) (Title t) (Description t) StatusProcessing
                              (CreatedAt t) (Some (clock (world s))) None "0s" "" ""]>
                    (heap (world s))).
  { rewrite Hh, <- Hup. apply map_eq. intros k.
    destruct (decide (k = task)) as [->|Hne].
    - rewrite lookup_alter_eq, lookup_insert_eq, Ht. reflexivity.
    - rewrite lookup_alter_ne, lookup_insert_ne by congruence. reflexivity. }
  assert (Hid : ID (heap (begin_processing task (set_taskQueue q' (world s))).2 !!! task)
                = ID t).
  { rewrite Hh'. rewrite lookup_total_insert_eq. reflexivity. }
  rewrite Hid in Hrepo.
  exists {| world := (begin_processing task (set_taskQueue q' (world s))).2;
            workers := <[i := (begin_processing task (set_taskQueue q' (world s))).1]>
                         (workers s) |}, t.
  split.
  { cbn [sys_step]. rewrite Hi. cbn [worker_step]. rewrite Hrecv.
    destruct (begin_processing task (set_taskQueue q' (world s))). reflexivity. }
  cbn [world workers].
  split; [exact Ht|]. split; [exact Hh'|]. split; [rewrite Hqq; exact Hrest|].
  split.
  - intros Hnone. destruct Hrepo as [(_ & Hr & Hpc) | (Hsome & _)].
    + rewrite Hpc. auto.
    + rewrite Hnone in Hsome. destruct Hsome; discriminate.
  - intros Hsome. destruct Hrepo as [(Hnone & _) | (_ & Hr & Hpc)].
    + rewrite Hnone in Hsome. destruct Hsome; discriminate.
    + rewrite Hpc. auto.
Qed.

(** X11: step 2 of the worker loop in a state of the process.  A worker
    that waits on the queue can take the oldest queued task.  That task is
    Pending; the step makes it Processing with started_at the current
    instant and the duration text 0s, and leaves the rest of the queue in
    order.  If the task is still stored under its id the worker goes on to
    the delay, which ends processingDelay later; if it has been deleted the
    store is left as it was and the worker returns to the head of its
    loop. *)
Theorem step2_starts_oldest_task (s : Sys) (i : nat) (task : loc) (rest : list loc) :
  reachable s -> workers s !! i = Some AtDequeue ->
  buf (taskQueue (world s)) ++ sendq (taskQueue (world s)) = task :: rest ->
  exists s' t,
    sys_step (EvWorker i CaseRecv) s = Some s'
    /\ heap (world s) !! task = Some t
    /\ Status t = StatusPending
    /\ heap (world s') !! task
       = Some (mkTask (ID t) (Title t) (Description t) StatusProcessing
                      (CreatedAt t) (Some (clock (world s))) None "0s" "" "")
    /\ buf (taskQueue (world s')) ++ sendq (taskQueue (world s')) = rest
    /\ (repository.tasks (repo (world s)) !! ID t = None ->
        workers s' !! i = Some AtLoopHead /\ repo (world s') = repo (world s))
    /\ (is_Some (repository.tasks (repo (world s)) !! ID t) ->
        workers s' !! i
        = Some (AtDelay task (clock (world s) + processingDelay (world s)))
        /\ repository.GetTask (ID t) (repo (world s')) = inl task).
Proof.
  intros Hr Hi Hq.
  pose proof (reachable_Good s Hr) as HG.
  destruct (step2_effect s i task rest HG (reachable_Sized s Hr) Hi Hq)
    as (s' & t & Hstep & Ht & Hh & Hrest & Hnone & Hsome).
  exists s', t. split; [exact Hstep|]. split; [exact Ht|].
  split.
  { assert (Hqd : queued (world s) task).
    { unfold queued. rewrite Hq. apply elem_of_cons. left. reflexivity. }
    destruct (good_queued s HG task Hqd) as (t0 & Ht0 & Hst). congruence. }
  split; [rewrite Hh; apply lookup_insert_eq|]. split; [exact Hrest|].
  assert (Hlt : (i < length (workers s))%nat) by (eapply lookup_lt_Some; eauto).
  split.
  - intros H. destruct (Hnone H) as [-> ->].
    split; [apply list_lookup_insert_eq; exact Hlt|reflexivity].
  - intros H. destruct (Hsome H) as [-> ->].
    split; [apply list_lookup_insert_eq; exact Hlt|].
    unfold repository.GetTask. cbn [repository.tasks].
    rewrite lookup_insert_eq. reflexivity.
Qed.

Lemma step2_starts_oldest_task_witness :
  exists s' t,
    sys_step (EvWorker 0 CaseRecv) task_queued = Some s'
    /\ heap (world task_queued) !! 1%positive = Some t
    /\ Status t = StatusPending
    /\ heap (world s') !! 1%positive
       = Some (mkTask (ID t) (Title t) (Description t) StatusProcessing
                      (CreatedAt t) (Some (clock (world task_queued))) None "0s" "" "")
    /\ buf (taskQueue (world s')) ++ sendq (taskQueue (world s')) = []
    /\ (repository.tasks (repo (world task_queued)) !! ID t = None ->
        workers s' !! 0%nat = Some AtLoopHead
        /\ repo (world s') = repo (world task_queued))
    /\ (is_Some (repository.tasks (repo (world task_queued)) !! ID t) ->
        workers s' !! 0%nat
        = Some (AtDelay 1%positive
                  (clock (world task_queued) + processingDelay (world task_queued)))
        /\ repository.GetTask (ID t) (repo (world s')) = inl 1%positive).
Proof.
  apply (step2_starts_oldest_task task_queued 0 1%positive []).
  - exists 0, run_until_queued. vm_compute. reflexivity.
  - vm_compute. reflexivity.
  - vm_compute. reflexivity.
Defined.

(** A task that is allocated and not in flight keeps its value in every
    later state. *)
Lemma settled_forever (s : Sys) (p : loc) (t : Task) :
  heap (world s) !! p = Some t -> ~ in_flight s p ->
  forall es s', run es s = Some s' -> heap (world s') !! p = Some t.
Proof.
  intros Hp Hnf es s' Hrun.
  exact (proj1 (run_untouched es s s' p t Hp Hnf Hrun)).
Qed.

(** X12: a task whose worker is stopped during the delay (step 3) is left
    behind: the worker exits, and the task stays Processing, with no
    completed_at, in every later state of the process. *)
Theorem interrupted_task_stays_Processing (s s' : Sys) (i : nat) (task : loc)
    (deadline : Time) (pick : SelectCase) :
  reachable s -> workers s !! i = Some (AtDelay task deadline) ->
  pick = CaseCtxDone \/ pick = CaseShutdown ->
  sys_step (EvWorker i pick) s = Some s' ->
  workers s' !! i = Some Exited
  /\ exists t, heap (world s') !! task = Some t
               /\ Status t = StatusProcessing /\ CompletedAt t = None
               /\ forall es s'', run es s' = Some s'' ->
                                 heap (world s'') !! task = Some t.
Proof.
  intros Hr Hi Hpick Hstep.
  destruct (reachable_Good s Hr) as [G1 _ _ G4 _].
  destruct (G4 i _ task Hi eq_refl) as (Hnq & (t & Ht & Hst) & Huniq).
  assert (Hlt : (i < length (workers s))%nat) by (eapply lookup_lt_Some; eauto).
  assert (Hs' : s' = {| world := world s'; workers := <[i := Exited]> (workers s) |}
                /\ heap (world s') = heap (world s)
                /\ taskQueue (world s') = taskQueue (world s)).
  { cbn [sys_step] in Hstep. rewrite Hi in Hstep. cbn [worker_step] in Hstep.
    destruct Hpick as [-> | ->];
      [destruct (ctxDone (world s))|destruct (shutdownClosed (world s))];
      inversion Hstep; cbn; auto. }
  destruct Hs' as (Hs' & Hh & Hq).
  split; [rewrite Hs'; cbn [workers]; apply list_lookup_insert_eq; exact Hlt|].
  exists t. rewrite Hh. split; [exact Ht|]. split; [exact Hst|].
  split.
  { destruct (G1 task t Ht) as (_ & [(Hp & _) | [(_ & _ & Hc & _) | (Hp & _)]]);
      congruence. }
  apply settled_forever; [rewrite Hh; exact Ht|].
  intros [Hqd | (j & pcj & Hj & Hheld)].
  - apply Hnq. unfold queued in *. rewrite <- Hq. exact Hqd.
  - rewrite Hs' in Hj. cbn [workers] in Hj.
    destruct (decide (j = i)) as [->|Hne].
    + rewrite list_lookup_insert_eq in Hj by exact Hlt.
      inversion Hj. subst pcj. discriminate.
    + rewrite list_lookup_insert_ne in Hj by congruence.
      apply Hne. eapply Huniq; eauto.
Qed.

Lemma interrupted_task_stays_Processing_witness :
  exists t, heap (world (default in_delay
                           (run [EvShutdown; EvWorker 0 CaseShutdown] in_delay)))
              !! 1%positive = Some t
            /\ Status t = StatusProcessing /\ CompletedAt t = None.
Proof.
  destruct (interrupted_task_stays_Processing
              (default in_delay (sys_step EvShutdown in_delay))
              (default in_delay (run [EvShutdown; EvWorker 0 CaseShutdown] in_delay))
              0 1%positive 120000000000 CaseShutdown)
    as (_ & t & Ht & Hs & Hc & _).
  - exists 0, (run_into_delay ++ [EvShutdown]). vm_compute. reflexivity.
  - vm_compute. reflexivity.
  - right. reflexivity.
  - vm_compute. reflexivity.
  - exists t. auto.
Defined.

(** X13: a task that is deleted from the store while it is queued is
    dropped by the worker that takes it: the worker returns to the head of
    its loop, and the task stays Processing, with no completed_at, in every
    later state of the process. *)
Theorem deleted_task_is_dropped (s s' : Sys) (i : nat) (task : loc)
    (rest : list loc) (t : Task) :
  reachable s -> workers s !! i = Some AtDequeue ->
  buf (taskQueue (world s)) ++ sendq (taskQueue (world s)) = task :: rest ->
  heap (world s) !! task = Some t ->
  repository.tasks (repo (world s)) !! ID t = None ->
  sys_step (EvWorker i CaseRecv) s = Some s' ->
  workers s' !! i = Some AtLoopHead
  /\ exists t', heap (world s') !! task = Some t'
                /\ Status t' = StatusProcessing /\ CompletedAt t' = None
                /\ forall es s'', run es s' = Some s'' ->
                                  heap (world s'') !! task = Some t'.
Proof.
  intros Hr Hi Hq Ht Hnone Hstep.
  pose proof (reachable_Good s Hr) as HG.
  destruct (step2_effect s i task rest HG (reachable_Sized s Hr) Hi Hq)
    as (s1 & t1 & Hstep1 & Ht1 & Hh & Hrest & Hn & _).
  assert (s1 = s') by congruence. subst s1.
  assert (t1 = t) by congruence. subst t1.
  destruct (Hn Hnone) as [Hws _].
  assert (Hlt : (i < length (workers s))%nat) by (eapply lookup_lt_Some; eauto).
  split; [rewrite Hws; apply list_lookup_insert_eq; exact Hlt|].
  eexists. split; [rewrite Hh; apply lookup_insert_eq|].
  split; [reflexivity|]. split; [reflexivity|].
  apply settled_forever; [rewrite Hh; apply lookup_insert_eq|].
  pose proof (good_queue_nodup s HG) as Hnd. rewrite Hq in Hnd.
  apply NoDup_cons in Hnd as [Hnotin _].
  intros [Hqd | (j & pcj & Hj & Hheld)].
  - apply Hnotin. unfold queued in Hqd. rewrite Hrest in Hqd. exact Hqd.
  - rewrite Hws in Hj.
    destruct (decide (j = i)) as [->|Hne].
    + rewrite list_lookup_insert_eq in Hj by exact Hlt.
      inversion Hj. subst pcj. discriminate.
    + rewrite list_lookup_insert_ne in Hj by congruence.
      destruct (good_held s HG j pcj task Hj Hheld) as (Hnq & _).
      apply Hnq. unfold queued. rewrite Hq. apply elem_of_cons. left. reflexivity.
Qed.

Lemma deleted_task_is_dropped_witness :
  workers (default deleted_in_queue (sys_step (EvWorker 0 CaseRecv) deleted_in_queue))
    !! 0%nat = Some AtLoopHead.
Proof.
  destruct (deleted_task_is_dropped deleted_in_queue
              (default deleted_in_queue (sys_step (EvWorker 0 CaseRecv) deleted_in_queue))
              0 1%positive [] (mkTask "1" "T" "D" StatusPending 0 None None "" "" ""))
    as (H & _).
  - exists 0, run_delete_queued. vm_compute. reflexivity.
  - vm_compute. reflexivity.
  - vm_compute. reflexivity.
  - vm_compute. reflexivity.
  - vm_compute. reflexivity.
  - vm_compute. reflexivity.
  - exact H.
Defined.



End worker_process_facts.

(** ** After the stop signal *)

Section stop_facts.
Import GoInt GoTime model service worker.

(** Under the stop signal every step of a worker brings it nearer to its
    exit. *)
Lemma worker_step_rank (workerID : Z) (pick : SelectCase) (pc pc' : WorkerPC)
    (w w' : World) :
  stop_delivered w = true -> worker_step workerID pick pc w = Some (pc', w') ->
  (S (exit_rank pc') <= exit_rank pc)%nat.
Proof.
  unfold stop_delivered. intros Hstop H.
  destruct pc as [| | |task deadline|task|]; cbn [worker_step] in H.
  - inversion H. cbn. lia.
  - destruct pick; try discriminate.
    + destruct (ctxDone w); inversion H; cbn; lia.
    + destruct (shutdownClosed w); inversion H; cbn; lia.
    + rewrite Hstop in H. discriminate.
  - destruct pick; try discriminate.
    + destruct (ctxDone w); inversion H; cbn; lia.
    + destruct (shutdownClosed w); inversion H; cbn; lia.
    + destruct (chan_recv (taskQueue w)) as [[task q]|]; [|discriminate].
      destruct (begin_processing_fields task (set_taskQueue q w))
        as (_ & _ & _ & _ & Hpc).
      inversion H as [H1]. rewrite H1 in Hpc. cbn [fst] in Hpc.
      destruct Hpc as [-> | ->]; cbn; lia.
  - destruct pick; try discriminate.
    + destruct (ctxDone w); inversion H; cbn; lia.
    + destruct (shutdownClosed w); inversion H; cbn; lia.
    + destruct (deadline <=? clock w); inversion H; cbn; lia.
  - destruct (complete_task_cases task w) as (_ & _ & _ & _ & _ & _ & Hpc & _).
    inversion H as [H1]. rewrite H1 in Hpc. cbn [fst] in Hpc. subst pc'. cbn. lia.
  - discriminate.
Qed.

Lemma sys_step_rank (e : Event) (s s' : Sys) (i : nat) (pc : WorkerPC) :
  stop_delivered (world s) = true -> sys_step e s = Some s' ->
  workers s !! i = Some pc ->
  exists pc', workers s' !! i = Some pc'
              /\ (worker_steps i [e] + exit_rank pc' <= exit_rank pc)%nat.
Proof.
  intros Hstop H Hi.
  destruct e as [j pick|ctx req pick| | | | | | | |];
    try (destruct (other_events_world _ s s' H I) as (_ & _ & -> & _);
         exists pc; split; [exact Hi|cbn; lia]).
  - cbn [sys_step] in H.
    destruct (workers s !! j) as [pcj|] eqn:Hj; [|discriminate].
    destruct (worker_step (Z.of_nat j) pick pcj (world s)) as [[pc' w']|] eqn:Hstep;
      [|discriminate].
    inversion H. subst s'. cbn [workers worker_steps].
    destruct (decide (j = i)) as [->|Hne].
    + rewrite list_lookup_insert_eq by (eapply lookup_lt_Some; eauto).
      exists pc'. split; [reflexivity|].
      rewrite bool_decide_eq_true_2 by reflexivity.
      assert (pcj = pc) by congruence. subst pcj.
      pose proof (worker_step_rank _ _ _ _ _ _ Hstop Hstep). lia.
    + rewrite list_lookup_insert_ne by exact Hne.
      exists pc. split; [exact Hi|].
      rewrite bool_decide_eq_false_2 by exact Hne. lia.
  - cbn [sys_step] in H. inversion H. cbn [workers worker_steps].
    exists pc. split; [exact Hi|lia].
Qed.

Lemma run_rank (es : list Event) :
  forall (s s' : Sys) (i : nat) (pc : WorkerPC),
    stop_delivered (world s) = true -> run es s = Some s' ->
    workers s !! i = Some pc ->
    stop_delivered (world s') = true
    /\ exists pc', workers s' !! i = Some pc'
                   /\ (worker_steps i es + exit_rank pc' <= exit_rank pc)%nat.
Proof.
  induction es as [|e es IH]; intros s s' i pc Hstop Hrun Hi.
  - inversion Hrun. subst s'. split; [exact Hstop|].
    exists pc. split; [exact Hi|cbn; lia].
  - cbn [run] in Hrun. destruct (sys_step e s) as [s1|] eqn:Hstep; [|discriminate].
    destruct (sys_step_rank e s s1 i pc Hstop Hstep Hi) as (pc1 & Hi1 & Hle1).
    destruct (IH s1 s' i pc1 (sys_step_stop e s s1 Hstop Hstep) Hrun Hi1)
      as (Hstop' & pc' & Hi' & Hle').
    split; [exact Hstop'|]. exists pc'. split; [exact Hi'|].
    assert (worker_steps i (e :: es) = (worker_steps i [e] + worker_steps i es)%nat).
    { destruct e; cbn; lia. }
    lia.
Qed.

Lemma exit_rank_0 (pc : WorkerPC) : exit_rank pc = 0%nat -> pc = Exited.
Proof. destruct pc; cbn; intros; try discriminate; reflexivity. Qed.

Lemma exit_rank_le_4 (pc : WorkerPC) : (exit_rank pc <= 4)%nat.
Proof. destruct pc; cbn; lia. Qed.

(** Under the stop signal a worker that has not exited can take a step. *)
Lemma stopped_worker_can_step (s : Sys) (i : nat) (pc : WorkerPC) :
  stop_delivered (world s) = true -> workers s !! i = Some pc -> pc <> Exited ->
  exists pick, is_Some (sys_step (EvWorker i pick) s).
Proof.
  unfold stop_delivered. intros Hstop Hi Hne.
  exists (if ctxDone (world s) then CaseCtxDone else CaseShutdown).
  cbn [sys_step]. rewrite Hi.
  destruct (ctxDone (world s)) eqn:Hc; cbn in Hstop;
    destruct pc; cbn [worker_step]; rewrite ?Hc, ?Hstop; try congruence; eauto;
    match goal with
    | |- context [complete_task ?t ?w] => destruct (complete_task t w); eauto
    end.
Qed.

(** X15: once the stop signal is there (the shutdown channel is closed or
    the context of the service is cancelled), every worker leaves its loop
    within four of its own steps, whatever else happens: a worker that has
    not exited can always take a step, and each of its steps brings it
    nearer to its exit. *)
Theorem workers_exit_after_stop (s s' : Sys) (i : nat) (pc : WorkerPC)
    (es : list Event) :
  stop_delivered (world s) = true -> workers s !! i = Some pc ->
  run es s = Some s' ->
  exists pc',
    workers s' !! i = Some pc'
    /\ (worker_steps i es + exit_rank pc' <= exit_rank pc)%nat
    /\ ((4 <= worker_steps i es)%nat -> pc' = Exited)
    /\ (pc' <> Exited -> exists pick, is_Some (sys_step (EvWorker i pick) s')).
Proof.
  intros Hstop Hi Hrun.
  destruct (run_rank es s s' i pc Hstop Hrun Hi) as (Hstop' & pc' & Hi' & Hle).
  exists pc'. split; [exact Hi'|]. split; [exact Hle|]. split.
  - intros H4. apply exit_rank_0. pose proof (exit_rank_le_4 pc). lia.
  - intros Hne. eapply stopped_worker_can_step; eauto.
Qed.

Lemma workers_exit_after_stop_witness :
  workers (default after_shutdown
             (run [EvWorker 0 CaseRecv; EvTick 120000000000; EvWorker 0 CaseTimer;
                   EvWorker 0 CaseTimer; EvWorker 0 CaseShutdown] after_shutdown))
    !! 0%nat = Some Exited.
Proof.
  destruct (workers_exit_after_stop after_shutdown
              (default after_shutdown
                 (run [EvWorker 0 CaseRecv; EvTick 120000000000; EvWorker 0 CaseTimer;
                       EvWorker 0 CaseTimer; EvWorker 0 CaseShutdown] after_shutdown))
              0 AtDequeue
              [EvWorker 0 CaseRecv; EvTick 120000000000; EvWorker 0 CaseTimer;
               EvWorker 0 CaseTimer; EvWorker 0 CaseShutdown])
    as (pc' & Hpc & _ & H4 & _).
  - vm_compute. reflexivity.
  - vm_compute. reflexivity.
  - vm_compute. reflexivity.
  - rewrite Hpc. f_equal. apply H4. vm_compute. lia.
Defined.

End stop_facts.

(** ** Listing and deleting *)

Section listing_facts.
Import GoInt GoTime model service worker.

(** X16: ListTasks in a state of the process returns every stored task
    exactly once: the list has no duplicates, is as long as the store has
    ids, and holds exactly the tasks that GetTask of the store returns for
    some id. *)
Theorem ListTasks_lists_each_task_once (s : Sys) :
  reachable s ->
  exists l,
    ListTasks (world s) = (inl l, world s)
    /\ NoDup l
    /\ length l = size (repository.tasks (repo (world s)))
    /\ forall p, p ∈ l <-> exists id, repository.GetTask id (repo (world s)) = inl p.
Proof.
  intros Hr. pose proof (good_keyed s (reachable_Good s Hr)) as Hk.
  exists ((map_to_list (repository.tasks (repo (world s)))).*2).
  split; [reflexivity|]. split; [|split].
  - apply NoDup_fmap_2_strong; [|apply NoDup_map_to_list].
    intros [id1 p1] [id2 p2] H1 H2 Heq. cbn in Heq. subst p2.
    apply elem_of_map_to_list in H1, H2.
    destruct (Hk _ _ H1) as (t1 & Ht1 & Hid1).
    destruct (Hk _ _ H2) as (t2 & Ht2 & Hid2).
    f_equal. congruence.
  - rewrite length_fmap. apply length_map_to_list.
  - intros p. rewrite list_elem_of_fmap. split.
    + intros ([id q] & -> & Hin). apply elem_of_map_to_list in Hin.
      exists id. unfold repository.GetTask. rewrite Hin. reflexivity.
    + intros (id & Hg). unfold repository.GetTask in Hg.
      destruct (repository.tasks (repo (world s)) !! id) as [q|] eqn:Hq;
        [|discriminate].
      inversion Hg. subst q. exists (id, p). split; [reflexivity|].
      apply elem_of_map_to_list. exact Hq.
Qed.

Lemma ListTasks_lists_each_task_once_witness :
  exists l,
    ListTasks (world before_completion) = (inl l, world before_completion)
    /\ NoDup l
    /\ length l = size (repository.tasks (repo (world before_completion)))
    /\ forall p, p ∈ l
                 <-> exists id, repository.GetTask id (repo (world before_completion))
                                = inl p.
Proof.
  apply (ListTasks_lists_each_task_once before_completion).
  exists 0, run_until_completion. vm_compute. reflexivity.
Defined.

(** X17: DeleteTask of the service touches one id only.  GetTask of any
    other id answers as before; the counter of the store, the tasks
    themselves and the queue are as they were, so a queued task that is
    deleted is still handed to a worker. *)
Theorem DeleteTask_leaves_other_tasks (id id' : string) (w : World) :
  id' <> id ->
  (GetTask id' (DeleteTask id w).2).1 = (GetTask id' w).1
  /\ repository.nextID (repo (DeleteTask id w).2) = repository.nextID (repo w)
  /\ heap (DeleteTask id w).2 = heap w
  /\ taskQueue (DeleteTask id w).2 = taskQueue w.
Proof.
  intros Hne.
  destruct (DeleteTask_world id w) as (Hh & Hq & _).
  assert (Hrepo : repository.tasks (repo (DeleteTask id w).2) !! id'
                  = repository.tasks (repo w) !! id'
                  /\ repository.nextID (repo (DeleteTask id w).2)
                     = repository.nextID (repo w)).
  { unfold DeleteTask. destruct (strconv.ParseInt id) as [v [e|]]; [auto|].
    unfold repository.DeleteTask.
    destruct (repository.tasks (repo w) !! id); cbn; [|auto].
    split; [apply lookup_delete_ne; congruence|reflexivity]. }
  destruct Hrepo as [Hl Hn].
  split; [|auto].
  unfold GetTask. destruct (strconv.ParseInt id') as [v [e|]]; [reflexivity|].
  unfold repository.GetTask. rewrite Hl, Hh.
  destruct (repository.tasks (repo w) !! id'); reflexivity.
Qed.

Lemma DeleteTask_leaves_other_tasks_witness :
  (GetTask "1" (DeleteTask "2" stored_world).2).1 = (GetTask "1" stored_world).1.
Proof.
  apply (DeleteTask_leaves_other_tasks "2" "1" stored_world). discriminate.
Defined.

End listing_facts.

(** ** The handlers *)

Section handler_facts.
Import GoInt GoTime model service worker.

Lemma empty_not_numeric : ~ numeric_id "".
Proof. intros H. inversion H; congruence. Qed.

Lemma numeric_dec (id : string) : numeric_id id \/ ~ numeric_id id.
Proof.
  destruct (strconv.ParseInt id) as [v [e|]] eqn:P.
  - right. apply ParseInt_error_iff. rewrite P. discriminate.
  - left. apply ParseInt_ok_numeric. rewrite P. reflexivity.
Qed.

(** The three answers of the GetTask handler. *)
Lemma handler_GetTask_cases (id : string) (w : World) :
  (~ numeric_id id
   /\ exists msg, (handler.GetTask id w).1
                  = handler.mkResponse handler.StatusBadRequest (handler.gin_H_error msg))
  \/ (numeric_id id /\ repository.tasks (repo w) !! id = None
      /\ (handler.GetTask id w).1
         = handler.mkResponse handler.StatusNotFound
                              (handler.gin_H_error "Task not found"))
  \/ (numeric_id id
      /\ exists p, repository.tasks (repo w) !! id = Some p
                   /\ (handler.GetTask id w).1
                      = handler.mkResponse handler.StatusOK
                          (handler.task_json
                             (dto.NewTaskResponse (heap w !!! p) (clock w)))).
Proof.
  unfold handler.GetTask. destruct (String.eqb id "") eqn:E.
  - apply String.eqb_eq in E. subst id. left. split; [exact empty_not_numeric|].
    eexists. reflexivity.
  - unfold GetTask. destruct (strconv.ParseInt id) as [v [e|]] eqn:P.
    + left. split; [apply ParseInt_error_iff; rewrite P; discriminate|].
      eexists. reflexivity.
    + assert (Hn : numeric_id id) by (apply ParseInt_ok_numeric; rewrite P; reflexivity).
      unfold repository.GetTask.
      destruct (repository.tasks (repo w) !! id) as [p|] eqn:Hp.
      * right. right. split; [exact Hn|]. exists p. split; reflexivity.
      * right. left. split; [exact Hn|]. split; reflexivity.
Qed.

Lemma handler_DeleteTask_cases (id : string) (w : World) :
  (~ numeric_id id
   /\ exists msg, (handler.DeleteTask id w).1
                  = handler.mkResponse handler.StatusBadRequest (handler.gin_H_error msg))
  \/ (numeric_id id /\ repository.tasks (repo w) !! id = None
      /\ (handler.DeleteTask id w).1
         = handler.mkResponse handler.StatusNotFound
                              (handler.gin_H_error "Task not found")
      /\ repo (handler.DeleteTask id w).2 = repo w)
  \/ (numeric_id id /\ is_Some (repository.tasks (repo w) !! id)
      /\ (handler.DeleteTask id w).1
         = handler.mkResponse handler.StatusNoContent handler.no_body
      /\ repo (handler.DeleteTask id w).2
         = {| repository.tasks := delete id (repository.tasks (repo w));
              repository.nextID := repository.nextID (repo w) |}).
Proof.
  unfold handler.DeleteTask. destruct (String.eqb id "") eqn:E.
  - apply String.eqb_eq in E. subst id. left. split; [exact empty_not_numeric|].
    eexists. reflexivity.
  - unfold DeleteTask. destruct (strconv.ParseInt id) as [v [e|]] eqn:P.
    + left. split; [apply ParseInt_error_iff; rewrite P; discriminate|].
      eexists. reflexivity.
    + assert (Hn : numeric_id id) by (apply ParseInt_ok_numeric; rewrite P; reflexivity).
      unfold repository.DeleteTask.
      destruct (repository.tasks (repo w) !! id) as [p|] eqn:Hp.
      * right. right. split; [exact Hn|]. split; [eauto|]. split; reflexivity.
      * right. left. split; [exact Hn|]. split; [reflexivity|].
        split; [reflexivity|]. destruct w as [h c [m n] pd wc q cd sc ck lg]. reflexivity.
Qed.

Ltac codes :=
  unfold handler.StatusOK, handler.StatusCreated, handler.StatusNoContent,
    handler.StatusBadRequest, handler.StatusNotFound,
    handler.StatusInternalServerError in *.

(** One equivalence between a status code and its condition, once the
    answer of the handler is known. *)
Ltac code_iff :=
  let H := fresh "H" in
  let H1 := fresh "H" in
  let H2 := fresh "H" in
  split; intros H;
  first [ discriminate | reflexivity | assumption | contradiction
        | match type of H with
          | _ /\ _ =>
              destruct H as [H1 H2];
              first [contradiction | discriminate | destruct H2; discriminate]
          end
        | split; [assumption | first [reflexivity | eauto]] ].

(** X18: the status codes of the GetTask handler.  It answers 400 exactly
    for the ids that are not numeric (the empty id is one), 404 exactly for
    the numeric ids that are not stored, 200 exactly for the stored ones,
    and never 500. *)
Theorem handler_GetTask_codes (id : string) (w : World) :
  (handler.code (handler.GetTask id w).1 = handler.StatusBadRequest
   <-> ~ numeric_id id)
  /\ (handler.code (handler.GetTask id w).1 = handler.StatusNotFound
      <-> numeric_id id /\ repository.tasks (repo w) !! id = None)
  /\ (handler.code (handler.GetTask id w).1 = handler.StatusOK
      <-> numeric_id id /\ is_Some (repository.tasks (repo w) !! id))
  /\ handler.code (handler.GetTask id w).1 <> handler.StatusInternalServerError.
Proof.
  destruct (handler_GetTask_cases id w)
    as [(Hn & msg & ->) | [(Hn & Hp & ->) | (Hn & p & Hp & ->)]];
    cbn [handler.code]; codes; rewrite ?Hp;
    (split; [code_iff|split; [code_iff|split; [code_iff|discriminate]]]).
Qed.

(** X19: what the GetTask handler shows of a state of the process.  With
    200 the body is a task with the id that was asked for, with no error
    text, with one of the statuses pending, processing and completed, and
    with a duration that is not negative. *)
Theorem handler_GetTask_body (s : Sys) (id : string) (r : handler.Response) :
  reachable s -> (handler.GetTask id (world s)).1 = r ->
  handler.code r = handler.StatusOK ->
  exists resp,
    handler.body r = handler.task_json resp
    /\ dto.ID resp = id
    /\ dto.Error resp = ""%string
    /\ (dto.Status resp = "pending"%string \/ dto.Status resp = "processing"%string
        \/ dto.Status resp = "completed"%string)
    /\ 0 <= dto.Duration resp.
Proof.
  intros Hr <- Hcode. pose proof (reachable_Good s Hr) as HG.
  destruct (handler_GetTask_cases id (world s))
    as [(Hn & msg & E) | [(Hn & Hp & E) | (Hn & p & Hp & E)]];
    rewrite E in Hcode |- *; cbn [handler.code handler.body] in *; codes;
    try discriminate.
  destruct (good_keyed s HG id p Hp) as (t & Ht & Hid).
  rewrite (lookup_total_correct _ _ _ Ht).
  eexists. split; [reflexivity|]. cbn [dto.ID dto.Error dto.Status dto.Duration dto.NewTaskResponse].
  split; [exact Hid|].
  destruct (good_lifecycle s HG p t Ht) as (He & Hshape).
  split; [exact He|]. split.
  - destruct Hshape as [(-> & _) | [(-> & _) | (-> & _)]]; cbn; auto.
  - destruct Hshape as [(_ & Hs & _) | [(_ & (st & Hs & Hle) & Hc & _)
                                       | (_ & (st & c & Hs & Hc & Hle & _) & _)]];
      unfold Duration; rewrite Hs; [lia| |]; rewrite Hc;
      apply Milliseconds_nonneg, Sub_nonneg; lia.
Qed.

Lemma handler_GetTask_body_witness :
  exists resp,
    handler.body (handler.GetTask "1" (world before_completion)).1
    = handler.task_json resp
    /\ dto.ID resp = "1"%string
    /\ dto.Error resp = ""%string
    /\ (dto.Status resp = "pending"%string \/ dto.Status resp = "processing"%string
        \/ dto.Status resp = "completed"%string)
    /\ 0 <= dto.Duration resp.
Proof.
  apply (handler_GetTask_body before_completion "1").
  - exists 0, run_until_completion. vm_compute. reflexivity.
  - reflexivity.
  - vm_compute. reflexivity.
Defined.

(** X20: the status codes of the DeleteTask handler.  It answers 400
    exactly for the ids that are not numeric, 404 exactly for the numeric
    ids that are not stored, 204 exactly for the stored ones, and never
    500; after a 204 the GetTask handler answers 404 for that id. *)
Theorem handler_DeleteTask_codes (id : string) (w : World) :
  (handler.code (handler.DeleteTask id w).1 = handler.StatusBadRequest
   <-> ~ numeric_id id)
  /\ (handler.code (handler.DeleteTask id w).1 = handler.StatusNotFound
      <-> numeric_id id /\ repository.tasks (repo w) !! id = None)
  /\ (handler.code (handler.DeleteTask id w).1 = handler.StatusNoContent
      <-> numeric_id id /\ is_Some (repository.tasks (repo w) !! id))
  /\ handler.code (handler.DeleteTask id w).1 <> handler.StatusInternalServerError
  /\ (handler.code (handler.DeleteTask id w).1 = handler.StatusNoContent ->
      handler.code (handler.GetTask id (handler.DeleteTask id w).2).1
      = handler.StatusNotFound).
Proof.
  destruct (handler_DeleteTask_cases id w)
    as [(Hn & msg & E) | [(Hn & Hp & E & Hrepo) | (Hn & [p Hp] & E & Hrepo)]];
    rewrite E; cbn [handler.code]; codes; rewrite ?Hp;
    (split; [code_iff|split; [code_iff|split; [code_iff|split; [discriminate|]]]]);
    try discriminate.
  intros _.
  destruct (handler_GetTask_cases id (handler.DeleteTask id w).2)
    as [(Hn' & _) | [(_ & _ & ->) | (_ & p' & Hp' & _)]].
  - contradiction.
  - reflexivity.
  - rewrite Hrepo in Hp'. cbn [repository.tasks] in Hp'.
    rewrite lookup_delete_eq in Hp'. discriminate.
Qed.

Lemma service_CreateTask_cases (ctx : Context) (req : CreateTaskRequest)
    (pick : SelectCase) (w : World) :
  heap (CreateTask ctx req pick w).2 !! new_loc (heap w)
  = Some (mkTask (strconv.FormatInt (repository.nextID (repo w)))
                 (req_Title req) (req_Description req) StatusPending
                 (clock w) None None "" "" "")
  /\ repository.tasks (repo (CreateTask ctx req pick w).2)
     = <[strconv.FormatInt (repository.nextID (repo w)) := new_loc (heap w)]>
         (repository.tasks (repo w))
  /\ ((ctx <> None /\ exists err, (CreateTask ctx req pick w).1 = Returned (inr err))
      \/ (CreateTask ctx req pick w).1 = Returned (inl (new_loc (heap w)))
      \/ (send_ready (taskQueue w) = false /\ ctx = None
          /\ (CreateTask ctx req pick w).1 = ParkedInSend (new_loc (heap w)))).
Proof.
  rewrite CreateTask_eq_enqueue.
  destruct (enqueue_cases ctx pick (new_loc (heap w))
              (created (req_Title req) (req_Description req) w))
    as (Hh & Hrp & _ & _ & _ & _).
  split; [rewrite Hh, created_heap; apply lookup_insert_eq|].
  split; [rewrite Hrp, created_repo; reflexivity|].
  destruct (created_queue (req_Title req) (req_Description req) w) as (Hq & _).
  unfold enqueue. rewrite Hq.
  destruct (send_ready (taskQueue w)), ctx as [cerr|]; try destruct pick; cbn [fst];
    first [ right; left; reflexivity
          | right; right; repeat split; reflexivity
          | left; split; [discriminate|eexists; reflexivity] ].
Qed.

(** X21: the answers of the CreateTask handler.  400 is the answer exactly
    when the body does not bind, and then nothing is created.  Otherwise
    the handler answers 201 or 500, or is parked while the buffer is full;
    500 comes only with a request context that is done.  The body of a 201
    is the new task, with the id that the store assigned and the title and
    description of the request. *)
Theorem handler_CreateTask_codes (bound : option CreateTaskRequest) (ctx : Context)
    (pick : SelectCase) (w : World) :
  match bound, (handler.CreateTask bound ctx pick w).1 with
  | None, resp =>
      resp = Some (handler.mkResponse handler.StatusBadRequest
                     (handler.gin_H_error "Invalid request body"))
      /\ (handler.CreateTask bound ctx pick w).2 = w
  | Some req, None => send_ready (taskQueue w) = false /\ ctx = None
  | Some req, Some r =>
      (handler.code r = handler.StatusInternalServerError /\ ctx <> None)
      \/ (handler.code r = handler.StatusCreated
          /\ exists resp,
               handler.body r = handler.task_json resp
               /\ dto.ID resp = (repository.getNextID (repo w)).1
               /\ dto.Title resp = req_Title req
               /\ dto.Description resp = req_Description req)
  end.
Proof.
  destruct bound as [req|]; [|split; reflexivity].
  unfold handler.CreateTask.
  destruct (service_CreateTask_cases ctx req pick w)
    as (Hh & _ & [(Hctx & err & Hres) | [Hres | (Hfull & Hctx & Hres)]]);
    destruct (CreateTask ctx req pick w) as [res w'];
    cbn [fst snd] in Hh, Hres; subst res; cbn [fst].
  - left. split; [reflexivity|exact Hctx].
  - right. split; [reflexivity|]. eexists. split; [reflexivity|].
    rewrite (lookup_total_correct _ _ _ Hh). rewrite getNextID_eq.
    repeat split.
  - split; assumption.
Qed.

(** X22: a task created through the CreateTask handler can be read back.
    In a state of the process, after a 201 the GetTask handler answers 200
    for the id of the body, with that id and with the title and description
    of the request. *)
Theorem POST_then_GET (s : Sys) (req : CreateTaskRequest) (ctx : Context)
    (pick : SelectCase) (r : handler.Response) (w' : World) :
  reachable s ->
  handler.CreateTask (Some req) ctx pick (world s) = (Some r, w') ->
  handler.code r = handler.StatusCreated ->
  exists created got,
    handler.body r = handler.task_json created
    /\ numeric_id (dto.ID created)
    /\ (handler.GetTask (dto.ID created) w').1
       = handler.mkResponse handler.StatusOK (handler.task_json got)
    /\ dto.ID got = dto.ID created
    /\ dto.Title got = req_Title req
    /\ dto.Description got = req_Description req.
Proof.
  intros Hr Hc Hcode.
  pose proof (FormatInt_numeric _ (sized_nextID s (reachable_Sized s Hr))) as Hnum.
  unfold handler.CreateTask in Hc.
  destruct (service_CreateTask_cases ctx req pick (world s))
    as (Hh & Hrp & [(Hctx & err & Hres) | [Hres | (Hfull & _ & Hres)]]);
    destruct (CreateTask ctx req pick (world s)) as [res w1];
    cbn [fst snd] in Hh, Hrp, Hres; subst res; inversion Hc; subst r; subst w';
    cbn [handler.code] in Hcode; codes; try discriminate.
  rewrite (lookup_total_correct _ _ _ Hh).
  eexists. eexists. split; [reflexivity|].
  cbn [dto.ID dto.NewTaskResponse ID].
  split; [exact Hnum|].
  destruct (handler_GetTask_cases
              (strconv.FormatInt (repository.nextID (repo (world s)))) w1)
    as [(Hn & _) | [(_ & Hp & _) | (_ & p & Hp & E)]].
  - contradiction.
  - rewrite Hrp, lookup_insert_eq in Hp. discriminate.
  - rewrite Hrp, lookup_insert_eq in Hp. inversion Hp. subst p.
    rewrite (lookup_total_correct _ _ _ Hh) in E.
    split; [exact E|]. repeat split.
Qed.

Lemma POST_then_GET_witness :
  exists created got,
    handler.body (handler.mkResponse handler.StatusCreated
                    (handler.task_json
                       (dto.mkTaskResponse "2" "T" "D" "pending" "" "" 0 None None 0)))
    = handler.task_json created
    /\ numeric_id (dto.ID created)
    /\ (handler.GetTask (dto.ID created)
          (handler.CreateTask (Some req_TD) None CaseSend (world before_completion)).2).1
       = handler.mkResponse handler.StatusOK (handler.task_json got)
    /\ dto.ID got = dto.ID created
    /\ dto.Title got = req_Title req_TD
    /\ dto.Description got = req_Description req_TD.
Proof.
  apply (POST_then_GET before_completion req_TD None CaseSend).
  - exists 0, run_until_completion. vm_compute. reflexivity.
  - vm_compute. reflexivity.
  - reflexivity.
Defined.

(** X23: the ListTasks handler in a state of the process answers 200 with
    one entry for each stored id: the ids of the entries are the ids of the
    store, each once. *)
Theorem handler_ListTasks_ids (s : Sys) :
  reachable s ->
  exists rs,
    (handler.ListTasks (world s)).1
    = handler.mkResponse handler.StatusOK (handler.tasks_json rs)
    /\ length rs = size (repository.tasks (repo (world s)))
    /\ NoDup (dto.ID <$> rs)
    /\ forall id, id ∈ dto.ID <$> rs
                  <-> is_Some (repository.tasks (repo (world s)) !! id).
Proof.
  intros Hr. pose proof (good_keyed s (reachable_Good s Hr)) as Hk.
  eexists. split; [reflexivity|].
  assert (Hids : dto.ID <$> map (fun task => dto.NewTaskResponse
                                     (heap (world s) !!! task) (clock (world s)))
                              (map_to_list (repository.tasks (repo (world s)))).*2
                 = (map_to_list (repository.tasks (repo (world s)))).*1).
  { rewrite <- 2!list_fmap_compose.
    apply list_fmap_ext. intros i [id p] Hi. cbn.
    apply list_elem_of_lookup_2, elem_of_map_to_list in Hi.
    destruct (Hk id p Hi) as (t & Ht & Hid).
    rewrite (lookup_total_correct _ _ _ Ht). exact Hid. }
  split; [|split].
  - rewrite length_map, length_fmap. apply length_map_to_list.
  - rewrite Hids. apply NoDup_fst_map_to_list.
  - intros id. rewrite Hids, list_elem_of_fmap. split.
    + intros ([id' p] & -> & Hin). apply elem_of_map_to_list in Hin. eauto.
    + intros [p Hp]. exists (id, p). split; [reflexivity|].
      apply elem_of_map_to_list. exact Hp.
Qed.

Lemma handler_ListTasks_ids_witness :
  exists rs,
    (handler.ListTasks (world before_completion)).1
    = handler.mkResponse handler.StatusOK (handler.tasks_json rs)
    /\ length rs = size (repository.tasks (repo (world before_completion)))
    /\ NoDup (dto.ID <$> rs)
    /\ forall id, id ∈ dto.ID <$> rs
                  <-> is_Some (repository.tasks (repo (world before_completion)) !! id).
Proof.
  apply (handler_ListTasks_ids before_completion).
  exists 0, run_until_completion. vm_compute. reflexivity.
Defined.

End handler_facts.
